(** * Blue-green deployment strategy of flyctl

    A shallow embedding of [internal/command/deploy/strategy_bluegreen.go]
    and the properties of its phases.

    Conventions of the embedding.
    - Go [int] is [Z]; the values met here (ports, check totals, parsed
      tags) never leave the 64-bit range, and [Atoi] rejects what does. A
      counter that a loop only steps up from zero is a [nat].
    - A Go map that the code may meet as [nil] is an [option (gmap _ _)]:
      reading a nil map gives the zero value, writing to it panics.
    - A pointer field ([*int], [*string]) is an [option].
    - Calls to the fleet API are recorded in a trace, and their answers
      come from an environment that sees the trace so far.
    - A Go panic is an outcome of its own.
    - The abort channel is a clock of polls: it is open for the first
      polls and closed from some poll on, or never closed.
    - Each waiting phase runs over a schedule that lists, event by event,
      which goroutine moves and what the fleet answers it.

    Left out: the tracing spans, the release of the leases, and the passing
    of time in sleeps and tickers (a fired ticker is a choice of the
    schedule). The waiting phases are embedded without the redrawing of
    their status tables; the renderers are embedded on their own, as
    functions from the table they are shown to the terminal operations they
    make. Entries do not share their launch inputs or maps with each
    other. *)

From Stdlib Require Import ZArith String Ascii List Sorting.Sorted.
From stdpp Require Import base option list gmap strings sorting.

Open Scope Z_scope.
Open Scope string_scope.

(** ** Strings *)

Module Str.

(** [strings.HasPrefix] *)
Fixpoint has_prefix (p s : string) : bool :=
  match p, s with
  | EmptyString, _ => true
  | String a p', String b s' => if Ascii.eqb a b then has_prefix p' s' else false
  | String _ _, EmptyString => false
  end.

(** [strings.Contains] *)
Fixpoint contains (s sub : string) : bool :=
  if has_prefix sub s then true
  else match s with
       | EmptyString => false
       | String _ s' => contains s' sub
       end.

(** [strings.Join] *)
Fixpoint join (l : list string) (sep : string) : string :=
  match l with
  | [] => ""
  | [x] => x
  | x :: l' => x ++ sep ++ join l' sep
  end.

End Str.

(** ** [strconv.Atoi] and [fmt.Sprint] on integers *)

Module Strconv.

Definition is_digit (c : ascii) : bool :=
  let n := nat_of_ascii c in (48 <=? n)%nat && (n <=? 57)%nat.

Definition digit_val (c : ascii) : Z := Z.of_nat (nat_of_ascii c) - 48.

(** The digits of a string, most significant first; [None] when a byte is
    not a decimal digit. *)
Fixpoint parse_digits (acc : Z) (s : string) : option Z :=
  match s with
  | EmptyString => Some acc
  | String c s' =>
      if is_digit c then parse_digits (acc * 10 + digit_val c) s' else None
  end.

Inductive num_error := ErrSyntax | ErrRange.

Definition min_int : Z := - 2 ^ 63.
Definition max_int : Z := 2 ^ 63 - 1.

(** [strconv.Atoi]: an optional sign, then one or more decimal digits, the
    value within the range of [int]. *)
Definition Atoi (s : string) : num_error + Z :=
  match s with
  | EmptyString => inl ErrSyntax
  | String c rest =>
      let neg := Ascii.eqb c "-" in
      let body := if neg || Ascii.eqb c "+" then rest else s in
      match body with
      | EmptyString => inl ErrSyntax
      | _ =>
          match parse_digits 0 body with
          | None => inl ErrSyntax
          | Some n =>
              let v := if neg then - n else n in
              if ((min_int <=? v)%Z && (v <=? max_int)%Z)%bool then inr v else inl ErrRange
          end
      end
  end.

Definition digit_char (d : Z) : ascii := ascii_of_nat (Z.to_nat (48 + d)).

(** Decimal digits of a non-negative number; [fuel] bounds the number of
    digits and is taken large enough by [Sprint]. *)
Fixpoint digits (fuel : nat) (n : Z) (acc : string) : string :=
  match fuel with
  | O => acc
  | S fuel' =>
      let acc' := String (digit_char (n mod 10)) acc in
      if (n <? 10)%Z then acc' else digits fuel' (n / 10) acc'
  end.

(** [fmt.Sprint] of an [int], which is also [fmt.Sprintf("%d", n)]. *)
Definition Sprint (n : Z) : string :=
  let a := Z.abs n in
  let body := digits (S (Z.to_nat (Z.log2 a))) a "" in
  if (n <? 0)%Z then String "-" body else body.

End Strconv.

(** ** Errors *)

(** Go error values, as far as the deployment builds and inspects them. *)
#[warnings="-register-all"]
Inductive error :=
| ENew (msg : string)                        (* errors.New(msg), and errors of the remote API *)
| EWrap (cause : error) (msg : string)       (* errors.Wrap(cause, msg) *)
| EErrorf (pre : string) (cause : error)     (* fmt.Errorf(pre + "%v", cause) *)
| EMulti (errs : list error)                 (* *multierror.Error *)
| ERetry (errs : list error)                 (* retry.Error, one entry per attempt *)
| ENumError (fn num : string) (e : Strconv.num_error). (* *strconv.NumError *)

Definition ErrAborted : error := ENew "deployment aborted by user".
Definition ErrWaitTimeout : error := ENew "wait timeout".
Definition ErrCreateGreenMachine : error := ENew "failed to create green machines".
Definition ErrWaitForStartedState : error :=
  ENew "could not get all green machines into started state".
Definition ErrWaitForHealthy : error :=
  ENew "could not get all green machines to be healthy".
Definition ErrMarkReadyForTraffic : error := ENew "failed to mark green machines as ready".
Definition ErrCordonBlueMachines : error := ENew "failed to cordon blue machines".
Definition ErrStopBlueMachines : error := ENew "failed to stop blue machines".
Definition ErrWaitForStoppedState : error :=
  ENew "could not get all blue machines into stopped state".
Definition ErrDestroyBlueMachines : error := ENew "failed to destroy previous deployment".
Definition ErrValidationError : error :=
  ENew "app not in valid state for bluegreen deployments".
Definition ErrOrgLimit : error :=
  ENew "app can't undergo bluegreen deployment due to org limits".

Section ErrorText.

(** [strconv.Quote], of the Go library, used in the text of a
    [*strconv.NumError]. *)
Variable Quote : string -> string.

Definition num_error_text (e : Strconv.num_error) : string :=
  match e with
  | Strconv.ErrSyntax => "invalid syntax"
  | Strconv.ErrRange => "value out of range"
  end.

Definition newline : string := String (ascii_of_nat 10) EmptyString.
Definition tab : string := String (ascii_of_nat 9) EmptyString.

(** [err.Error()] *)
Fixpoint Error (e : error) : string :=
  match e with
  | ENew msg => msg
  | EWrap cause msg => msg ++ ": " ++ Error cause
  | EErrorf pre cause => pre ++ Error cause
  | EMulti errs =>
      let points := map (fun x => "* " ++ Error x) errs in
      match errs with
      | [_] => "1 error occurred:" ++ newline ++ tab
                 ++ Str.join points (newline ++ tab) ++ newline ++ newline
      | _ => Strconv.Sprint (Z.of_nat (length errs)) ++ " errors occurred:"
               ++ newline ++ tab ++ Str.join points (newline ++ tab)
               ++ newline ++ newline
      end
  | ERetry errs =>
      let numbered :=
        (fix number (i : nat) (l : list error) : list string :=
           match l with
           | [] => []
           | x :: l' =>
               ("#" ++ Strconv.Sprint (Z.of_nat (S i)) ++ ": " ++ Error x)
                 :: number (S i) l'
           end) O errs in
      "All attempts fail:" ++ newline ++ Str.join numbered newline
  | ENumError fn num ne =>
      "strconv." ++ fn ++ ": parsing " ++ Quote num ++ ": " ++ num_error_text ne
  end.

End ErrorText.

(** [errors.As(err, &merr)] with [merr : *multierror.Error]: the first
    aggregate on the chain of causes. *)
Fixpoint as_multierror (e : error) : option (list error) :=
  match e with
  | EMulti errs => Some errs
  | EWrap cause _ => as_multierror cause
  | _ => None
  end.

(** ** Data model *)

Module Check.
Record HTTPHeader := { Name : string; Values : list string }.

(** [fly.MachineCheck], the fields the deployment reads or writes. *)
Record t := {
  Port : option Z;
  Type_ : option string;
  Interval : option Z;
  Timeout : option Z;
  GracePeriod : option Z;
  HTTPMethod : option string;
  HTTPPath : option string;
  HTTPProtocol : option string;
  HTTPSkipTLSVerify : option bool;
  HTTPHeaders : list HTTPHeader
}.
End Check.

Module Service.
(** [fly.MachineService] *)
Record t := {
  Protocol : string;
  InternalPort : Z;
  Checks : list Check.t
}.
End Service.

Module Config.
(** [fly.MachineConfig]; [None] is a nil map. *)
Record t := {
  Metadata : option (gmap string string);
  Services : list Service.t;
  Checks : option (gmap string Check.t)
}.
End Config.

Module LaunchInput.
(** [fly.LaunchMachineInput] *)
Record t := {
  ID : string;
  Config : Config.t;
  SkipLaunch : bool;
  SkipServiceRegistration : bool
}.
End LaunchInput.

Module Machine.
(** [fly.Machine] behind a [machine.LeasableMachine]: [Checks] are the
    statuses of its configured checks, [FormattedMachineId] the text of
    the method of that name. *)
Record t := {
  ID : string;
  FormattedMachineId : string;
  State : string;
  Checks : list string
}.
End Machine.

(** [fly.HealthCheckStatus], the two counters the deployment reads. *)
Record HealthCheckStatus := { Total : Z; Passing : Z }.

Record machineUpdateEntry := {
  leasableMachine : Machine.t;
  launchInput : LaunchInput.t
}.

Abbreviation machineUpdateEntries := (list machineUpdateEntry).

(** [machineUpdateEntries.machines()] *)
Definition machines (es : machineUpdateEntries) : list Machine.t :=
  map leasableMachine es.

(** The mutable and the fixed fields of [blueGreen] that the phases use. *)
Record blueGreen := {
  greenMachines : machineUpdateEntries;
  blueMachines : machineUpdateEntries;
  stopSignal : string;
  appName : string;
  hangingBlueMachines : list string;
  timestamp : string
}.

(** ** The outside world *)

(** A request to the fleet API. *)
Inductive FleetCall :=
| CLaunch (input : LaunchInput.t)
| CGet (id : string)
| CUncordon (id : string)
| CCordon (id : string)
| CStop (id : string) (signal : string)
| CDestroy (id : string) (force : bool)
| CWait (id : string) (desired : string).

(** What one background task of a waiting phase does next. *)
Inductive wstate :=
| WRun                 (* its fleet call has not returned yet *)
| WSend (e : error)    (* blocked sending [e] on the error channel *)
| WCount               (* about to add one to the completion counter *)
| WEnd.                (* returned *)

(** The branch a [select] of the foreground loop takes. *)
Inductive selection :=
| SelTimer             (* the ticker of the per-wait timeout fired *)
| SelRecv (i : nat)    (* the error of task [i] is received *)
| SelDefault.          (* nothing is ready *)

(** One scheduling decision in a waiting phase: the wait of task [i]
    answers [r]; the [Get] of poller [i] answers [r] while its context has
    the error [ctxErr]; task [i] adds one to the completion counter; or the
    foreground loop runs one iteration. *)
Inductive event :=
| EvWait (i : nat) (r : option error)
| EvGet (i : nat) (ctxErr : option error) (r : error + HealthCheckStatus)
| EvCount (i : nat)
| EvFore (sel : selection).

(** Everything the deployment gets from outside strategy_bluegreen.go. *)
Record Env := {
  (* fly.MachineConfigMetadataKeyFlyctlBGTag *)
  MachineConfigMetadataKeyFlyctlBGTag : string;
  (* apiClient.CanPerformBluegreenDeployment *)
  CanPerformBluegreenDeployment : string -> error + bool;
  (* flaps.Launch, given the requests made so far *)
  Launch : list FleetCall -> LaunchInput.t -> error + Machine.t;
  (* Uncordon, Cordon, Stop and Destroy, given the requests made so far *)
  Reply : list FleetCall -> FleetCall -> option error;
  (* the abort channel is closed from this poll on *)
  abortAfter : option nat;
  (* colorize.Bold *)
  Bold : string -> string;
  (* strconv.Quote *)
  Quote : string -> string;
  (* the interleavings of the three waiting phases *)
  startSchedule : list event;
  healthSchedule : list event;
  stopSchedule : list event
}.

(** The state threaded through the phases. *)
Record St := {
  bg : blueGreen;
  trace : list FleetCall;     (* requests to the fleet API, oldest first *)
  polls : nat;                (* polls of the abort channel so far *)
  stderr : list string        (* what was written to io.ErrOut, oldest first *)
}.

Inductive outcome (A : Type) :=
| Done (a : A)
| Panic (msg : string)
| Stuck.                      (* a waiting phase outlives its schedule *)
Arguments Done {A} a.
Arguments Panic {A} msg.
Arguments Stuck {A}.

Definition M (A : Type) : Type := St -> outcome A * St.

Definition ret {A} (a : A) : M A := fun s => (Done a, s).
Definition panic {A} (msg : string) : M A := fun s => (Panic msg, s).
Definition stuck {A} : M A := fun s => (Stuck, s).

Definition bind {A B} (m : M A) (k : A -> M B) : M B :=
  fun s =>
    match m s with
    | (Done a, s') => k a s'
    | (Panic msg, s') => (Panic msg, s')
    | (Stuck, s') => (Stuck, s')
    end.

Notation "'let*' x ':=' m 'in' k" := (bind m (fun x => k))
  (at level 10, x name, m at level 100, k at level 200).
Notation "'do' m 'in' k" := (bind m (fun _ => k))
  (at level 10, m at level 100, k at level 200).

Definition get : M St := fun s => (Done s, s).
Definition put (s : St) : M unit := fun _ => (Done tt, s).
Definition getBG : M blueGreen := fun s => (Done (bg s), s).

Definition setBG (b : blueGreen) : M unit :=
  fun s => (Done tt, {| bg := b; trace := trace s; polls := polls s; stderr := stderr s |}).

Definition setBlue (b : blueGreen) (l : machineUpdateEntries) : blueGreen :=
  {| greenMachines := greenMachines b; blueMachines := l; stopSignal := stopSignal b;
     appName := appName b; hangingBlueMachines := hangingBlueMachines b;
     timestamp := timestamp b |}.

Definition setGreen (b : blueGreen) (l : machineUpdateEntries) : blueGreen :=
  {| greenMachines := l; blueMachines := blueMachines b; stopSignal := stopSignal b;
     appName := appName b; hangingBlueMachines := hangingBlueMachines b;
     timestamp := timestamp b |}.

Definition setHanging (b : blueGreen) (l : list string) : blueGreen :=
  {| greenMachines := greenMachines b; blueMachines := blueMachines b;
     stopSignal := stopSignal b; appName := appName b; hangingBlueMachines := l;
     timestamp := timestamp b |}.

(** [fmt.Fprintf(bg.io.ErrOut, ...)] with the text already formatted. *)
Definition eprint (text : string) : M unit :=
  fun s => (Done tt, {| bg := bg s; trace := trace s; polls := polls s;
                        stderr := (stderr s ++ [text])%list |}).

(** [bg.isAborted()]: one poll of the abort channel. *)
Definition isAborted (env : Env) : M bool :=
  fun s =>
    let closed := match abortAfter env with
                  | Some n => (n <=? polls s)%nat
                  | None => false
                  end in
    (Done closed, {| bg := bg s; trace := trace s; polls := S (polls s);
                     stderr := stderr s |}).

(** [bg.sleepAbortable(d)]: true when the channel closes before the sleep
    ends; the decision is that of the next poll. *)
Definition sleepAbortable (env : Env) : M bool := isAborted env.

(** A request to the fleet API that answers with an error or nil. *)
Definition fleet (env : Env) (c : FleetCall) : M (option error) :=
  fun s =>
    (Done (Reply env (trace s) c),
     {| bg := bg s; trace := (trace s ++ [c])%list; polls := polls s;
        stderr := stderr s |}).

(** [bg.flaps.Launch] *)
Definition fleetLaunch (env : Env) (input : LaunchInput.t) : M (error + Machine.t) :=
  fun s =>
    (Done (Launch env (trace s) input),
     {| bg := bg s; trace := (trace s ++ [CLaunch input])%list; polls := polls s;
        stderr := stderr s |}).

(** A fleet request whose answer the schedule of a waiting phase carries. *)
Definition record (c : FleetCall) : M unit :=
  fun s => (Done tt, {| bg := bg s; trace := (trace s ++ [c])%list; polls := polls s;
                        stderr := stderr s |}).

(** ** Reading and writing the entries *)

(** [m[k]] on a [map[string]string] that may be nil. *)
Definition mdGet (m : option (gmap string string)) (k : string) : string :=
  match m with
  | Some g => default "" (g !! k)
  | None => ""
  end.

(** [m[k] = v]; [None] is the panic of an assignment to a nil map. *)
Definition mdSet (m : option (gmap string string)) (k v : string)
  : option (option (gmap string string)) :=
  match m with
  | Some g => Some (Some (<[k := v]> g))
  | None => None
  end.

Definition withMetadata (li : LaunchInput.t) (md : option (gmap string string))
  : LaunchInput.t :=
  {| LaunchInput.ID := LaunchInput.ID li;
     LaunchInput.Config :=
       {| Config.Metadata := md;
          Config.Services := Config.Services (LaunchInput.Config li);
          Config.Checks := Config.Checks (LaunchInput.Config li) |};
     LaunchInput.SkipLaunch := LaunchInput.SkipLaunch li;
     LaunchInput.SkipServiceRegistration := LaunchInput.SkipServiceRegistration li |}.

Definition withChecks (li : LaunchInput.t) (cs : option (gmap string Check.t))
  : LaunchInput.t :=
  {| LaunchInput.ID := LaunchInput.ID li;
     LaunchInput.Config :=
       {| Config.Metadata := Config.Metadata (LaunchInput.Config li);
          Config.Services := Config.Services (LaunchInput.Config li);
          Config.Checks := cs |};
     LaunchInput.SkipLaunch := LaunchInput.SkipLaunch li;
     LaunchInput.SkipServiceRegistration := LaunchInput.SkipServiceRegistration li |}.

Definition withSkipServiceRegistration (li : LaunchInput.t) (b : bool) : LaunchInput.t :=
  {| LaunchInput.ID := LaunchInput.ID li;
     LaunchInput.Config := LaunchInput.Config li;
     LaunchInput.SkipLaunch := LaunchInput.SkipLaunch li;
     LaunchInput.SkipServiceRegistration := b |}.

Definition withLaunchInput (e : machineUpdateEntry) (li : LaunchInput.t)
  : machineUpdateEntry :=
  {| leasableMachine := leasableMachine e; launchInput := li |}.

(** [mach.launchInput.Config.Metadata[key]] *)
Definition tagOf (key : string) (e : machineUpdateEntry) : string :=
  mdGet (Config.Metadata (LaunchInput.Config (launchInput e))) key.

(** [len(entry.launchInput.Config.Checks)] *)
Definition lenChecks (e : machineUpdateEntry) : nat :=
  match Config.Checks (LaunchInput.Config (launchInput e)) with
  | Some g => size g
  | None => O
  end.

(** ** The zombie sweep *)

(** The loop of [getZombies] over the tags; Go leaves the order of a map
    range open, which only decides the parse error reported when several
    tags fail to parse. *)
Fixpoint parseAll (l : list string) : error + list Z :=
  match l with
  | [] => inr []
  | str :: l' =>
      match Strconv.Atoi str with
      | inl e => inl (ENumError "Atoi" str e)
      | inr num =>
          match parseAll l' with
          | inl e => inl e
          | inr numbers => inr (num :: numbers)
          end
      end
  end.

(** [sort.Ints] *)
Definition sortInts (numbers : list Z) : list Z := merge_sort Z.le numbers.

Definition getZombies (ids : gset string) : outcome (gset string * option error) :=
  match parseAll (elements ids) with
  | inl err => Done (ids, Some err)
  | inr numbers =>
      match sortInts numbers with
      | [] => Panic "index out of range [0] with length 0"
      | n0 :: _ => Done (ids ∖ {[ Strconv.Sprint n0 ]}, None)
      end
  end.

(** The first loop of [DeleteZombiesFromPreviousDeployment]: empty tags
    become "-1" in the entries, and the tags are collected. [None] is the
    panic of writing "-1" into a nil metadata map. *)
Fixpoint collectTags (key : string) (blue : machineUpdateEntries) (tags : gset string)
  : option (machineUpdateEntries * gset string) :=
  match blue with
  | [] => Some ([], tags)
  | mach :: rest =>
      let md := Config.Metadata (LaunchInput.Config (launchInput mach)) in
      let md' := if String.eqb (mdGet md key) "" then mdSet md key "-1" else Some md in
      match md' with
      | None => None
      | Some md1 =>
          let mach' := withLaunchInput mach (withMetadata (launchInput mach) md1) in
          match collectTags key rest ({[ tagOf key mach' ]} ∪ tags) with
          | None => None
          | Some (rest', tags') => Some (mach' :: rest', tags')
          end
      end
  end.

(** [retry.Do(f, retry.Attempts(n), ...)]: [f] is tried until it succeeds,
    at most [n] times; the errors of the failed attempts are returned
    together. *)
Fixpoint retryDo (attempts : nat) (f : M (option error)) (errs : list error)
  : M (option error) :=
  match attempts with
  | O => ret (Some (ERetry errs))
  | S n =>
      let* r := f in
      match r with
      | None => ret None
      | Some e => retryDo n f (errs ++ [e])%list
      end
  end.

(** The second loop of [DeleteZombiesFromPreviousDeployment]. *)
Fixpoint destroyZombies (env : Env) (zombies : gset string) (blue : machineUpdateEntries)
  : M (option error) :=
  match blue with
  | [] => ret None
  | mach :: rest =>
      let* aborted := isAborted env in
      if aborted then ret (Some ErrAborted)
      else
        let tag := tagOf (MachineConfigMetadataKeyFlyctlBGTag env) mach in
        if bool_decide (tag ∈ zombies) then
          let deleteFunc := fleet env (CDestroy (Machine.ID (leasableMachine mach)) true) in
          let* err := retryDo 3 deleteFunc [] in
          match err with
          | Some e => ret (Some e)
          | None =>
              do eprint ("  Zombie Machine "
                           ++ Bold env (Machine.FormattedMachineId (leasableMachine mach))
                           ++ " destroyed [" ++ tag ++ "]" ++ newline) in
              destroyZombies env zombies rest
          end
        else destroyZombies env zombies rest
  end.

(** The third loop: the entries whose tag is not a zombie tag. *)
Definition nonZombies (key : string) (zombies : gset string) (blue : machineUpdateEntries)
  : machineUpdateEntries :=
  filter (fun mach => tagOf key mach ∉ zombies) blue.

Definition DeleteZombiesFromPreviousDeployment (env : Env) : M (option error) :=
  let key := MachineConfigMetadataKeyFlyctlBGTag env in
  let* b := getBG in
  match collectTags key (blueMachines b) ∅ with
  | None => panic "assignment to entry in nil map"
  | Some (blue, tags) =>
      do setBG (setBlue b blue) in
      if Nat.eqb (size tags) 1 then
        do eprint ("  No hanging machines from a failed previous deployment" ++ newline) in
        ret None
      else
        match getZombies tags with
        | Panic msg => panic msg
        | Stuck => stuck
        | Done (_, Some err) => ret (Some err)
        | Done (zombies, None) =>
            let* err := destroyZombies env zombies blue in
            match err with
            | Some e => ret (Some e)
            | None =>
                let* b' := getBG in
                do setBG (setBlue b' (nonZombies key zombies blue)) in
                ret None
            end
        end
  end.

(** ** Check propagation *)

(** A loop whose body may panic. *)
Fixpoint foldO {A B : Type} (f : B -> A -> outcome B) (l : list A) (b : B) : outcome B :=
  match l with
  | [] => Done b
  | a :: l' =>
      match f b a with
      | Done b' => foldO f l' b'
      | Panic msg => Panic msg
      | Stuck => Stuck
      end
  end.

(** [fmt.Sprintf("bg_deployments_%s", t)] *)
Definition checkKey (t : string) : string := "bg_deployments_" ++ t.

(** The machine check [cc] built from a service check, with its defaults. *)
Definition customCheck (service : Service.t) (check : Check.t) : Check.t :=
  {| Check.Port := match Check.Port check with
                   | Some p => Some p
                   | None => Some (Service.InternalPort service)
                   end;
     Check.Type_ := match Check.Type_ check with
                    | Some t => Some t
                    | None => Some (Service.Protocol service)
                    end;
     Check.Interval := Check.Interval check;
     Check.Timeout := Check.Timeout check;
     Check.GracePeriod := Check.GracePeriod check;
     Check.HTTPMethod := Check.HTTPMethod check;
     Check.HTTPPath := Check.HTTPPath check;
     Check.HTTPProtocol := Check.HTTPProtocol check;
     Check.HTTPSkipTLSVerify := Check.HTTPSkipTLSVerify check;
     Check.HTTPHeaders := Check.HTTPHeaders check |}.

(** The body of the innermost loop: the map is made when nil, then the
    check is stored under the key of [*check.Type], whose dereference
    panics on a nil pointer. *)
Definition attachCheck (service : Service.t) (checks : option (gmap string Check.t))
    (check : Check.t) : outcome (option (gmap string Check.t)) :=
  let cc := customCheck service check in
  let m := match checks with
           | Some g => g
           | None => ∅
           end in
  match Check.Type_ check with
  | None => Panic "invalid memory address or nil pointer dereference"
  | Some t => Done (Some (<[checkKey t := cc]> m))
  end.

Definition attachService (checks : option (gmap string Check.t)) (service : Service.t)
  : outcome (option (gmap string Check.t)) :=
  foldO (attachCheck service) (Service.Checks service) checks.

Definition attachEntry (entry : machineUpdateEntry) : outcome machineUpdateEntry :=
  let cfg := LaunchInput.Config (launchInput entry) in
  match foldO attachService (Config.Services cfg) (Config.Checks cfg) with
  | Done checks => Done (withLaunchInput entry (withChecks (launchInput entry) checks))
  | Panic msg => Panic msg
  | Stuck => Stuck
  end.

(** The loop over the blue entries, as a function of the list. *)
Fixpoint attachAll (blue : machineUpdateEntries) : outcome machineUpdateEntries :=
  match blue with
  | [] => Done []
  | entry :: rest =>
      match attachEntry entry with
      | Done entry' =>
          match attachAll rest with
          | Done rest' => Done (entry' :: rest')
          | Panic msg => Panic msg
          | Stuck => Stuck
          end
      | Panic msg => Panic msg
      | Stuck => Stuck
      end
  end.

Definition attachCustomTopLevelChecks : M unit :=
  let* b := getBG in
  match attachAll (blueMachines b) with
  | Done blue => setBG (setBlue b blue)
  | Panic msg => panic msg
  | Stuck => stuck
  end.

(** ** The sequential phases *)

(** The loop of [CreateGreenMachines]: [done] are the blue entries already
    handled, [greenMachines] the local slice of that name. The launch input
    is shared by the blue entry and the green entry made from it, so what is
    written to it shows in both. *)
Fixpoint createLoop (env : Env) (done todo greens : machineUpdateEntries)
  : M (option error) :=
  match todo with
  | [] =>
      let* b := getBG in
      do setBG (setGreen b greens) in
      ret None
  | mach :: rest =>
      let* b := getBG in
      let li1 := withSkipServiceRegistration (launchInput mach) true in
      match mdSet (Config.Metadata (LaunchInput.Config li1))
                  (MachineConfigMetadataKeyFlyctlBGTag env) (timestamp b) with
      | None =>
          do setBG (setBlue b (done ++ withLaunchInput mach li1 :: rest)%list) in
          panic "assignment to entry in nil map"
      | Some md =>
          let li2 := withMetadata li1 md in
          let mach' := withLaunchInput mach li2 in
          do setBG (setBlue b (done ++ mach' :: rest)%list) in
          let* r := fleetLaunch env li2 in
          match r with
          | inl err => ret (Some err)
          | inr newMachineRaw =>
              let green := {| leasableMachine := newMachineRaw; launchInput := li2 |} in
              do eprint ("  Created machine "
                           ++ Bold env (Machine.FormattedMachineId newMachineRaw)
                           ++ newline) in
              createLoop env (done ++ [mach'])%list rest (greens ++ [green])%list
          end
      end
  end.

Definition CreateGreenMachines (env : Env) : M (option error) :=
  let* b := getBG in
  createLoop env [] (blueMachines b) [].

Fixpoint markLoop (env : Env) (l : list Machine.t) : M (option error) :=
  match l with
  | [] => ret None
  | gm :: rest =>
      let* aborted := isAborted env in
      if aborted then ret (Some ErrAborted)
      else
        let* err := fleet env (CUncordon (Machine.ID gm)) in
        match err with
        | Some e => ret (Some e)
        | None =>
            do eprint ("  Machine " ++ Bold env (Machine.FormattedMachineId gm)
                         ++ " now ready" ++ newline) in
            markLoop env rest
        end
  end.

Definition MarkGreenMachinesAsReadyForTraffic (env : Env) : M (option error) :=
  let* b := getBG in
  markLoop env (machines (greenMachines b)).

Fixpoint cordonLoop (env : Env) (l : machineUpdateEntries) : M (option error) :=
  match l with
  | [] => ret None
  | gm :: rest =>
      let* aborted := isAborted env in
      if aborted then ret (Some ErrAborted)
      else
        let fid := Machine.FormattedMachineId (leasableMachine gm) in
        let* err := fleet env (CCordon (Machine.ID (leasableMachine gm))) in
        match err with
        | Some e =>
            do eprint ("  Failed to cordon machine " ++ Bold env fid ++ ": "
                         ++ Error (Quote env) e ++ newline) in
            cordonLoop env rest
        | None =>
            do eprint ("  Machine " ++ Bold env fid ++ " cordoned" ++ newline) in
            cordonLoop env rest
        end
  end.

Definition CordonBlueMachines (env : Env) : M (option error) :=
  let* b := getBG in
  cordonLoop env (blueMachines b).

Fixpoint stopLoop (env : Env) (signal : string) (l : machineUpdateEntries)
  : M (option error) :=
  match l with
  | [] => ret None
  | gm :: rest =>
      let* aborted := isAborted env in
      if aborted then ret (Some ErrAborted)
      else
        let fid := Machine.FormattedMachineId (leasableMachine gm) in
        let* err := fleet env (CStop (Machine.ID (leasableMachine gm)) signal) in
        match err with
        | Some e =>
            do eprint ("  Failed to stop machine " ++ Bold env fid ++ ": "
                         ++ Error (Quote env) e ++ newline) in
            stopLoop env signal rest
        | None => stopLoop env signal rest
        end
  end.

Definition StopBlueMachines (env : Env) : M (option error) :=
  let* b := getBG in
  stopLoop env (stopSignal b) (blueMachines b).

Fixpoint destroyLoop (env : Env) (l : machineUpdateEntries) : M (option error) :=
  match l with
  | [] => ret None
  | gm :: rest =>
      let* aborted := isAborted env in
      if aborted then ret (Some ErrAborted)
      else
        let* err := fleet env (CDestroy (Machine.ID (leasableMachine gm)) true) in
        match err with
        | Some _ =>
            let* b := getBG in
            do setBG (setHanging b
                        (hangingBlueMachines b ++ [LaunchInput.ID (launchInput gm)])%list) in
            destroyLoop env rest
        | None =>
            do eprint ("  Machine "
                         ++ Bold env (Machine.FormattedMachineId (leasableMachine gm))
                         ++ " destroyed" ++ newline) in
            destroyLoop env rest
        end
  end.

Definition DestroyBlueMachines (env : Env) : M (option error) :=
  let* b := getBG in
  destroyLoop env (blueMachines b).

(** ** The waiting phases

    A waiting phase starts one background task per machine and polls in the
    foreground. Its run is a function of the schedule: the list of the
    decisions that the Go scheduler and the fleet API take, one [event] at a
    time. A schedule that asks for a move the program cannot make (a receive
    with nothing sent, the default branch while a send is pending), or that
    ends before the foreground loop returns, gives [Stuck]. *)

Record task := { tMachine : Machine.t; tState : wstate }.

Definition setTask (tasks : list task) (i : nat) (w : wstate) : list task :=
  match tasks !! i with
  | Some t => <[i := {| tMachine := tMachine t; tState := w |}]> tasks
  | None => tasks
  end.

Definition isSending (t : task) : bool :=
  match tState t with
  | WSend _ => true
  | _ => false
  end.

(** The default branch of a [select] is taken only when no send is pending. *)
Definition noneSending (tasks : list task) : bool := forallb (fun t => negb (isSending t)) tasks.

(** Runs [step] over the schedule until it returns a result. *)
Fixpoint runPhase {C : Type} (step : event -> C -> M (C + (C * option error)))
    (sched : list event) (c : C) : M (C * option error) :=
  match sched with
  | [] => stuck
  | ev :: rest =>
      let* r := step ev c in
      match r with
      | inl c' => runPhase step rest c'
      | inr res => ret res
      end
  end.

(** *** Green machines reach the started state *)

Definition allMachinesStarted (stateMap : gmap string string) : bool :=
  let started :=
    foldr (fun kv n => if String.eqb kv.2 "started" then S n else n) O
          (map_to_list stateMap) in
  Nat.eqb started (size stateMap).

Record startCfg := {
  startTable : gmap string string;      (* machineIDToState *)
  startTasks : list task
}.

(** The first loop: every green machine is "created". *)
Definition startTableInit (greens : machineUpdateEntries) : gmap string string :=
  foldl (fun t gm => <[Machine.FormattedMachineId gm := "created"]> t) ∅ (machines greens).

(** The second loop: an entry with [SkipLaunch] is marked "started" and gets
    no task, every other entry gets one. *)
Fixpoint startSpawn (greens : machineUpdateEntries) (c : startCfg) : startCfg :=
  match greens with
  | [] => c
  | gm :: rest =>
      let id := Machine.FormattedMachineId (leasableMachine gm) in
      if LaunchInput.SkipLaunch (launchInput gm) then
        startSpawn rest {| startTable := <[id := "started"]> (startTable c);
                           startTasks := startTasks c |}
      else
        startSpawn rest
          {| startTable := startTable c;
             startTasks := (startTasks c
                              ++ [{| tMachine := leasableMachine gm; tState := WRun |}])%list |}
  end.

Definition startInit (greens : machineUpdateEntries) : startCfg :=
  startSpawn greens {| startTable := startTableInit greens; startTasks := [] |}.

Definition startStep (env : Env) (ev : event) (c : startCfg)
  : M (startCfg + (startCfg * option error)) :=
  match ev with
  | EvWait i r =>
      match startTasks c !! i with
      | Some {| tMachine := m; tState := WRun |} =>
          do record (CWait (Machine.ID m) "start") in
          match r with
          | Some err =>
              ret (inl {| startTable := startTable c;
                          startTasks := setTask (startTasks c) i (WSend err) |})
          | None =>
              ret (inl {| startTable :=
                            <[Machine.FormattedMachineId m := "started"]> (startTable c);
                          startTasks := setTask (startTasks c) i WEnd |})
          end
      | _ => stuck
      end
  | EvFore sel =>
      if allMachinesStarted (startTable c) then ret (inr (c, None))
      else
        let* aborted := isAborted env in
        if aborted then ret (inr (c, Some ErrAborted))
        else
          match sel with
          | SelTimer => ret (inr (c, Some ErrWaitTimeout))
          | SelRecv i =>
              match startTasks c !! i with
              | Some {| tMachine := _; tState := WSend err |} =>
                  ret (inr ({| startTable := startTable c;
                               startTasks := setTask (startTasks c) i WEnd |}, Some err))
              | _ => stuck
              end
          | SelDefault => if noneSending (startTasks c) then ret (inl c) else stuck
          end
  | _ => stuck
  end.

Definition WaitForGreenMachinesToBeStarted (env : Env) : M (option error) :=
  let* b := getBG in
  let* r := runPhase (startStep env) (startSchedule env) (startInit (greenMachines b)) in
  ret r.2.

(** *** Green machines become healthy *)

Definition allMachinesHealthy (stateMap : gmap string HealthCheckStatus) : bool :=
  let passed :=
    foldr (fun kv n =>
             if (Total kv.2 =? 0)%Z then n
             else if (Passing kv.2 =? Total kv.2)%Z then S n else n)
          O (map_to_list stateMap) in
  Nat.eqb passed (size stateMap).

Record healthCfg := {
  healthTable : gmap string HealthCheckStatus;   (* machineIDToHealthStatus *)
  healthTasks : list task
}.

(** The machines the two loops of the phase do not skip. *)
Definition healthChecked (gm : machineUpdateEntry) : bool :=
  negb (LaunchInput.SkipLaunch (launchInput gm))
  && negb (Nat.eqb (length (Machine.Checks (leasableMachine gm))) 0).

(** The first loop: an empty status for every machine it does not skip. *)
Fixpoint healthTableInit (greens : machineUpdateEntries)
    (t : gmap string HealthCheckStatus) : gmap string HealthCheckStatus :=
  match greens with
  | [] => t
  | gm :: rest =>
      if healthChecked gm then
        healthTableInit rest
          (<[Machine.FormattedMachineId (leasableMachine gm) :=
               {| Total := 0; Passing := 0 |}]> t)
      else healthTableInit rest t
  end.

(** The second loop: a poller for every machine it does not skip. *)
Definition healthSpawn (greens : machineUpdateEntries) : list task :=
  map (fun gm => {| tMachine := leasableMachine gm; tState := WRun |})
      (List.filter healthChecked greens).

Definition healthInit (greens : machineUpdateEntries) : healthCfg :=
  {| healthTable := healthTableInit greens ∅; healthTasks := healthSpawn greens |}.

Definition healthStep (env : Env) (ev : event) (c : healthCfg)
  : M (healthCfg + (healthCfg * option error)) :=
  match ev with
  | EvGet i ctxErr r =>
      match healthTasks c !! i with
      | Some {| tMachine := m; tState := WRun |} =>
          do record (CGet (Machine.ID m)) in
          match ctxErr, r with
          | Some err, _ =>
              ret (inl {| healthTable := healthTable c;
                          healthTasks := setTask (healthTasks c) i (WSend err) |})
          | None, inl err =>
              ret (inl {| healthTable := healthTable c;
                          healthTasks := setTask (healthTasks c) i (WSend err) |})
          | None, inr status =>
              let t := <[Machine.FormattedMachineId m := status]> (healthTable c) in
              if (Total status =? Passing status)%Z && negb (Total status =? 0)%Z then
                ret (inl {| healthTable := t;
                            healthTasks := setTask (healthTasks c) i WEnd |})
              else ret (inl {| healthTable := t; healthTasks := healthTasks c |})
          end
      | _ => stuck
      end
  | EvFore sel =>
      if allMachinesHealthy (healthTable c) then ret (inr (c, None))
      else
        let* aborted := isAborted env in
        if aborted then ret (inr (c, Some ErrAborted))
        else
          match sel with
          | SelRecv i =>
              match healthTasks c !! i with
              | Some {| tMachine := _; tState := WSend err |} =>
                  ret (inr ({| healthTable := healthTable c;
                               healthTasks := setTask (healthTasks c) i WEnd |}, Some err))
              | _ => stuck
              end
          | SelTimer => ret (inr (c, Some ErrWaitTimeout))
          | SelDefault => if noneSending (healthTasks c) then ret (inl c) else stuck
          end
  | _ => stuck
  end.

Definition WaitForGreenMachinesToBeHealthy (env : Env) : M (option error) :=
  let* b := getBG in
  let* r := runPhase (healthStep env) (healthSchedule env) (healthInit (greenMachines b)) in
  ret r.2.

(** *** Blue machines reach the stopped state *)

Record stopCfg := {
  stopTable : gmap string string;      (* machineIDToState *)
  stopTasks : list task;
  done : nat;                          (* the atomic counter of that name *)
  merr : list error                    (* merr.Errors; empty for a nil merr *)
}.

Definition stopTableInit (blue : machineUpdateEntries) : gmap string string :=
  foldl (fun t gm => <[Machine.FormattedMachineId gm := Machine.State gm]> t) ∅
        (machines blue).

Definition stopInit (blue : machineUpdateEntries) : stopCfg :=
  {| stopTable := stopTableInit blue;
     stopTasks := map (fun gm => {| tMachine := leasableMachine gm; tState := WRun |}) blue;
     done := O;
     merr := [] |}.

(** [merr.ErrorOrNil()] *)
Definition ErrorOrNil (errs : list error) : option error :=
  match errs with
  | [] => None
  | _ => Some (EMulti errs)
  end.

Definition stopStep (env : Env) (nblue : nat) (ev : event) (c : stopCfg)
  : M (stopCfg + (stopCfg * option error)) :=
  match ev with
  | EvWait i r =>
      match stopTasks c !! i with
      | Some {| tMachine := m; tState := WRun |} =>
          do record (CWait (Machine.ID m) "stop") in
          match r with
          | Some err =>
              let e := EErrorf ("failed to stop machine "
                                  ++ Machine.FormattedMachineId m ++ ": ") err in
              ret (inl {| stopTable := stopTable c;
                          stopTasks := setTask (stopTasks c) i (WSend e);
                          done := done c; merr := merr c |})
          | None =>
              ret (inl {| stopTable :=
                            <[Machine.FormattedMachineId m := "stopped"]> (stopTable c);
                          stopTasks := setTask (stopTasks c) i WCount;
                          done := done c; merr := merr c |})
          end
      | _ => stuck
      end
  | EvCount i =>
      match stopTasks c !! i with
      | Some {| tMachine := _; tState := WCount |} =>
          ret (inl {| stopTable := stopTable c;
                      stopTasks := setTask (stopTasks c) i WEnd;
                      done := S (done c); merr := merr c |})
      | _ => stuck
      end
  | EvFore sel =>
      if Nat.eqb (done c) nblue then ret (inr (c, ErrorOrNil (merr c)))
      else
        let* aborted := isAborted env in
        if aborted then ret (inr (c, Some ErrAborted))
        else
          match sel with
          | SelTimer => ret (inr (c, Some ErrWaitTimeout))
          | SelRecv i =>
              match stopTasks c !! i with
              | Some {| tMachine := _; tState := WSend err |} =>
                  ret (inl {| stopTable := stopTable c;
                              stopTasks := setTask (stopTasks c) i WCount;
                              done := done c;
                              merr := (merr c ++ [err])%list |})
              | _ => stuck
              end
          | SelDefault => if noneSending (stopTasks c) then ret (inl c) else stuck
          end
  | _ => stuck
  end.

(** The phase together with the state of its tasks when it returns. *)
Definition stopWaitRun (env : Env) : M (stopCfg * option error) :=
  let* b := getBG in
  runPhase (stopStep env (length (blueMachines b))) (stopSchedule env)
           (stopInit (blueMachines b)).

Definition WaitForBlueMachinesToBeStopped (env : Env) : M (option error) :=
  let* r := stopWaitRun env in
  ret r.2.

(** ** The orchestrator *)

(** [errors.Wrap(err, sentinel.Error())] *)
Definition wrapWith (env : Env) (sentinel : error) (err : error) : error :=
  EWrap err (Error (Quote env) sentinel).

(** A phase whose error ends [Deploy], wrapped in the phase's sentinel. *)
Definition phase (env : Env) (sentinel : error) (run : M (option error))
    (next : M (option error)) : M (option error) :=
  let* err := run in
  match err with
  | Some e => ret (Some (wrapWith env sentinel e))
  | None => next
  end.

(** One [Fprintf] per element. *)
Fixpoint eprintEach (texts : list string) : M unit :=
  match texts with
  | [] => ret tt
  | text :: rest => do eprint text in eprintEach rest
  end.

(** The abort check between two phases. *)
Definition unlessAborted (env : Env) (next : M (option error)) : M (option error) :=
  let* aborted := isAborted env in
  if aborted then ret (Some ErrAborted) else next.

(** The loop that counts the entries with at least one top-level check. *)
Fixpoint countChecked (env : Env) (blue : machineUpdateEntries) (totalChecks : nat) : M nat :=
  match blue with
  | [] => ret totalChecks
  | entry :: rest =>
      if Nat.eqb (lenChecks entry) 0 then
        do eprint (newline ++ "[WARN] Machine "
                     ++ Machine.FormattedMachineId (leasableMachine entry)
                     ++ " doesn't have healthchecks setup. We won't check its health.") in
        countChecked env rest totalChecks
      else countChecked env rest (S totalChecks)
  end.

(** [Deploy] from its first line to check propagation; [Some] is an early
    return. *)
Definition deployPrepare (env : Env) : M (option error) :=
  unlessAborted env (
    let* b := getBG in
    match CanPerformBluegreenDeployment env (appName b) with
    | inl err => ret (Some err)
    | inr canPerform =>
        if negb canPerform then ret (Some ErrOrgLimit)
        else
          do eprint (newline ++ "Cleanup Previous Deployment" ++ newline) in
          let* err := DeleteZombiesFromPreviousDeployment env in
          match err with
          | Some e => ret (Some e)
          | None =>
              do attachCustomTopLevelChecks in
              ret None
          end
    end).

(** The rest of a function after a step that may have returned early. *)
Definition andThen (m next : M (option error)) : M (option error) :=
  let* err := m in
  match err with
  | Some e => ret (Some e)
  | None => next
  end.

(** [Deploy], the validation of the checks; [Some] is an early return. *)
Definition validateChecks (env : Env) : M (option error) :=
  let* b := getBG in
  let* totalChecks := countChecked env (blueMachines b) O in
  if Nat.eqb totalChecks 0 && negb (Nat.eqb (length (blueMachines b)) 0) then
    do eprint (newline ++ newline
                 ++ "You need to define at least 1 check in order to use blue-green deployments. Refer to https://fly.io/docs/reference/configuration/#services-tcp_checks"
                 ++ newline) in
    ret (Some ErrValidationError)
  else ret None.

(** [Deploy] from the creation of the green machines to the stop of the
    blue machines; [Some] is an early return. *)
Definition deployReplace (env : Env) : M (option error) :=
  do eprint (newline ++ "Creating green machines" ++ newline) in
  phase env ErrCreateGreenMachine (CreateGreenMachines env) (
  unlessAborted env (
  do eprint (newline ++ "Waiting for all green machines to start" ++ newline) in
  phase env ErrWaitForStartedState (WaitForGreenMachinesToBeStarted env) (
  unlessAborted env (
  do eprint (newline ++ "Waiting for all green machines to be healthy" ++ newline) in
  phase env ErrWaitForHealthy (WaitForGreenMachinesToBeHealthy env) (
  unlessAborted env (
  do eprint (newline ++ "Marking green machines as ready" ++ newline) in
  phase env ErrMarkReadyForTraffic (MarkGreenMachinesAsReadyForTraffic env) (
  unlessAborted env (
  do eprint (newline ++ "Waiting before cordoning all blue machines" ++ newline) in
  let* aborted := sleepAbortable env in
  if aborted then ret (Some ErrAborted)
  else
  phase env ErrCordonBlueMachines (CordonBlueMachines env) (
  unlessAborted env (
  do eprint (newline ++ "Waiting before stopping all blue machines" ++ newline) in
  let* aborted := sleepAbortable env in
  if aborted then ret (Some ErrAborted)
  else
  do eprint (newline ++ "Stopping all blue machines" ++ newline) in
  phase env ErrStopBlueMachines (StopBlueMachines env) (
  ret None))))))))))).

(** [Deploy] from the wait for the blue machines to its last line. *)
Definition deployRetire (env : Env) : M (option error) :=
  do eprint (newline ++ "Waiting for all blue machines to stop" ++ newline) in
  let* err := WaitForBlueMachinesToBeStopped env in
  let* fatal :=
    match err with
    | None => ret None
    | Some e =>
        match as_multierror e with
        | Some errs =>
            do eprint (newline ++ "Failed to stop some machines:" ++ newline) in
            (* the loop ranges over the indexes of merr.Errors *)
            do eprintEach
                 (imap (fun i _ => "  " ++ Strconv.Sprint (Z.of_nat i) ++ newline) errs) in
            ret None
        | None => ret (Some (wrapWith env ErrWaitForStoppedState e))
        end
    end in
  match fatal with
  | Some e => ret (Some e)
  | None =>
      do eprint (newline ++ "Destroying all blue machines" ++ newline) in
      phase env ErrDestroyBlueMachines (DestroyBlueMachines env) (
        do eprint (newline ++ "Deployment Complete" ++ newline) in
        ret None)
  end.

(** [Deploy] up to the stop of the blue machines: the green machines take
    the traffic and the blue machines have been told to stop. *)
Definition deploySwitch (env : Env) : M (option error) :=
  andThen (deployPrepare env) (andThen (validateChecks env) (deployReplace env)).

Definition Deploy (env : Env) : M (option error) :=
  andThen (deploySwitch env) (deployRetire env).

(** ** Rollback *)

Fixpoint rollbackLoop (env : Env) (l : list Machine.t) : M (option error) :=
  match l with
  | [] => ret None
  | mach :: rest =>
      let* err := fleet env (CDestroy (Machine.ID mach) true) in
      match err with
      | Some e => ret (Some e)
      | None => rollbackLoop env rest
      end
  end.

Definition Rollback (env : Env) (err : error) : M (option error) :=
  if Str.contains (Error (Quote env) err) (Error (Quote env) ErrDestroyBlueMachines) then
    let* b := getBG in
    do eprint (newline ++ "Failed to destroy blue machines ("
                 ++ Str.join (hangingBlueMachines b) "," ++ ")" ++ newline) in
    do eprint (newline ++ "You can destroy them using `fly machines destroy --force <id>`") in
    ret None
  else
    let* b := getBG in
    rollbackLoop env (machines (greenMachines b)).

(** ** The status tables on the terminal *)

(** [m[key]] on a [map[string]string]: a missing key reads as "". *)
Definition viewGet (m : gmap string string) (key : string) : string :=
  default "" (m !! key).

Definition changeDetected (a b : gmap string string) : bool :=
  existsb (fun kv => negb (String.eqb kv.2 (viewGet b kv.1))) (map_to_list a).

(** What a renderer does to the terminal. *)
Inductive termOp :=
| ClearLinesAbove (count : nat)     (* bg.clearLinesAbove(count) *)
| ErrWrite (text : string).         (* fmt.Fprintf(bg.io.ErrOut, ...) *)

(** The variables that the closure of a renderer keeps between calls. *)
Record renderer := {
  firstRun : bool;
  previousView : gmap string string
}.

Definition newRenderer : renderer := {| firstRun := true; previousView := ∅ |}.

(** [iostreams.ColorScheme], the two methods the renderers call. *)
Record ColorScheme := {
  csBold : string -> string;
  csGreen : string -> string
}.

(** [fmt.Sprintf("  Machine %s - %s", bg.colorize.Bold(id), bg.colorize.Green(status))] *)
Definition machineRow (cs : ColorScheme) (id status : string) : string :=
  "  Machine " ++ csBold cs id ++ " - " ++ csGreen cs status.

(** The order of [sort.Strings]: byte by byte, a prefix first. *)
Definition stringLe (a b : string) : Prop := String.leb a b = true.

#[global] Instance stringLe_dec : RelDecision stringLe.
Proof. intros a b. unfold stringLe. apply _. Defined.

(** [sort.Strings] *)
Definition sortStrings (rows : list string) : list string := merge_sort stringLe rows.

(** One call of the function that [renderMachineStates] and
    [renderMachineHealthchecks] return, when the table shows as
    [currentView]: the lines above are cleared when this is not the first
    call and the view changed; the rows are sorted; the view is written and
    remembered when it changed. *)
Definition render (cs : ColorScheme) (currentView : gmap string string) (r : renderer)
  : list termOp * renderer :=
  let rows := map (fun kv => machineRow cs kv.1 kv.2) (map_to_list currentView) in
  let cleared :=
    if negb (firstRun r) && changeDetected currentView (previousView r)
    then [ClearLinesAbove (length rows)] else [] in
  let sorted := sortStrings rows in
  if changeDetected currentView (previousView r) then
    ((cleared ++ [ErrWrite (Str.join sorted newline ++ newline)])%list,
     {| firstRun := false; previousView := currentView |})
  else (cleared, {| firstRun := false; previousView := previousView r |}).

(** The call of the function that [renderMachineStates(state)] returns. *)
Definition renderMachineStates (cs : ColorScheme) (state : gmap string string)
    (r : renderer) : list termOp * renderer :=
  render cs state r.

(** The status text of [renderMachineHealthchecks]. *)
Definition healthText (value : HealthCheckStatus) : string :=
  if (Total value =? 0)%Z then "unchecked"
  else Strconv.Sprint (Passing value) ++ "/" ++ Strconv.Sprint (Total value) ++ " passing".

(** The call of the function that [renderMachineHealthchecks(state)]
    returns. *)
Definition renderMachineHealthchecks (cs : ColorScheme)
    (state : gmap string HealthCheckStatus) (r : renderer) : list termOp * renderer :=
  render cs (healthText <$> state) r.

(** Several calls in a row, one per snapshot of the table. *)
Fixpoint renderAll (cs : ColorScheme) (views : list (gmap string string)) (r : renderer)
  : list termOp * renderer :=
  match views with
  | [] => ([], r)
  | view :: rest =>
      let '(ops, r1) := render cs view r in
      let '(ops', r2) := renderAll cs rest r1 in
      ((ops ++ ops')%list, r2)
  end.

(** ** The constructor *)

(** [BlueGreenStrategy(md, blueMachines)] when the clock shows [now]
    seconds since the epoch; [appName] is [md.appConfig.AppName] and
    [stopSignal] is [md.stopSignal]. *)
Definition BlueGreenStrategy (appName stopSignal : string)
    (blueMachines : machineUpdateEntries) (now : Z) : blueGreen :=
  {| greenMachines := [];
     blueMachines := blueMachines;
     stopSignal := stopSignal;
     appName := appName;
     hangingBlueMachines := [];
     timestamp := Strconv.Sprint now |}.

(** * Auxiliary definitions of the statements *)

(** A state with another trace, poll count and output. *)
Definition withWorld (s : St) (tr : list FleetCall) (p : nat) (out : list string) : St :=
  {| bg := bg s; trace := tr; polls := p; stderr := out |}.

Definition withBG (s : St) (b : blueGreen) : St :=
  {| bg := b; trace := trace s; polls := polls s; stderr := stderr s |}.

(** What the loop of [allMachinesHealthy] counts. *)
Definition passes (v : HealthCheckStatus) : Prop :=
  Total v ≠ 0 ∧ Passing v = Total v.

Definition countPassed (l : list (string * HealthCheckStatus)) : nat :=
  foldr (fun kv n =>
           if (Total kv.2 =? 0)%Z then n
           else if (Passing kv.2 =? Total kv.2)%Z then S n else n) O l.

(** The service checks of an entry, each with its service, in the order in
    which the two inner loops of [attachCustomTopLevelChecks] meet them. *)
Definition serviceChecks (entry : machineUpdateEntry) : list (Service.t * Check.t) :=
  flat_map (fun service => map (fun check => (service, check)) (Service.Checks service))
           (Config.Services (LaunchInput.Config (launchInput entry))).

(** The type of a check whose type is set. *)
Definition typeOf (check : Check.t) : string := default "" (Check.Type_ check).

Definition checkTypes (entry : machineUpdateEntry) : list string :=
  map (fun p => typeOf p.2) (serviceChecks entry).

(** The top-level checks of an entry; a nil map has none. *)
Definition topLevelChecks (entry : machineUpdateEntry) : gmap string Check.t :=
  default ∅ (Config.Checks (LaunchInput.Config (launchInput entry))).

(** A service check whose type is set. *)
Definition typed (p : Service.t * Check.t) : Prop := is_Some (Check.Type_ p.2).

(** The stores of the innermost loop, one after the other. *)
Definition storeAll (m : gmap string Check.t) (pairs : list (Service.t * Check.t))
  : gmap string Check.t :=
  foldl (fun m p => <[checkKey (typeOf p.2) := customCheck p.1 p.2]> m) m pairs.

(** ** Sample data *)

Module Sample.

Definition check (port : option Z) (type : option string) : Check.t :=
  {| Check.Port := port; Check.Type_ := type; Check.Interval := None;
     Check.Timeout := None; Check.GracePeriod := None; Check.HTTPMethod := None;
     Check.HTTPPath := None; Check.HTTPProtocol := None;
     Check.HTTPSkipTLSVerify := None; Check.HTTPHeaders := [] |}.

Definition service (checks : list Check.t) : Service.t :=
  {| Service.Protocol := "tcp"; Service.InternalPort := 8080; Service.Checks := checks |}.

Definition tagKey : string := "fly_bluegreen_tag".

Definition machine (id : string) : Machine.t :=
  {| Machine.ID := id; Machine.FormattedMachineId := id;
     Machine.State := "started"; Machine.Checks := ["servicecheck-00-tcp-8080"] |}.

(** A blue entry: machine [id] with generation tag [tag]. *)
Definition entry (id tag : string) (skip : bool) (checks : list Check.t)
  : machineUpdateEntry :=
  {| leasableMachine := machine id;
     launchInput :=
       {| LaunchInput.ID := id;
          LaunchInput.Config :=
            {| Config.Metadata := Some {[ tagKey := tag ]};
               Config.Services := [service checks];
               Config.Checks := None |};
          LaunchInput.SkipLaunch := skip;
          LaunchInput.SkipServiceRegistration := false |} |}.

Definition tcp : Check.t := check None (Some "tcp").

(** The green machine launched for blue machine [id] is "g-[id]". *)
Definition launched (li : LaunchInput.t) : Machine.t :=
  {| Machine.ID := "g-" ++ LaunchInput.ID li;
     Machine.FormattedMachineId := "g-" ++ LaunchInput.ID li;
     Machine.State := "created";
     Machine.Checks := ["servicecheck-00-tcp-8080"] |}.

(** An environment whose fleet answers by [reply], that never aborts, and
    that schedules the waiting phases by the three lists. *)
Definition env (reply : list FleetCall -> FleetCall -> option error)
    (start health stop : list event) : Env :=
  {| MachineConfigMetadataKeyFlyctlBGTag := tagKey;
     CanPerformBluegreenDeployment := fun _ => inr true;
     Launch := fun _ li => inr (launched li);
     Reply := reply;
     abortAfter := None;
     Bold := fun s => s;
     Quote := fun s => s;
     startSchedule := start;
     healthSchedule := health;
     stopSchedule := stop |}.

(** The fleet never fails. *)
Definition fine : list FleetCall -> FleetCall -> option error := fun _ _ => None.

(** The fleet fails every destroy of machine [id]. *)
Definition failDestroy (id : string) : list FleetCall -> FleetCall -> option error :=
  fun _ c =>
    match c with
    | CDestroy id' _ => if String.eqb id id' then Some (ENew "machine still active") else None
    | _ => None
    end.

Definition quiet : Env := env fine [] [] [].

(** A deployment about to start over the blue machines [blue]. *)
Definition state (blue : machineUpdateEntries) : St :=
  {| bg := {| greenMachines := []; blueMachines := blue; stopSignal := "SIGINT";
              appName := "app"; hangingBlueMachines := []; timestamp := "300" |};
     trace := []; polls := 0; stderr := [] |}.

Definition passing : HealthCheckStatus := {| Total := 1; Passing := 1 |}.

End Sample.

(** A blue entry with one service check whose type is unset. *)
Definition Sample_untyped : machineUpdateEntry :=
  Sample.entry "m1" "100" false [Sample.check (Some 8080) None].


(** A blue entry whose service has two checks of type "tcp". *)
Definition Sample_tcpTwice : machineUpdateEntry :=
  Sample.entry "m1" "100" false
    [Sample.check (Some 8080) (Some "tcp"); Sample.check (Some 9090) (Some "tcp")].

(** The tag of an entry after the first loop of the sweep: an empty tag has
    become "-1". *)
Definition normalizeTag (key : string) (e : machineUpdateEntry) : machineUpdateEntry :=
  let md := Config.Metadata (LaunchInput.Config (launchInput e)) in
  if String.eqb (mdGet md key) "" then
    withLaunchInput e (withMetadata (launchInput e) (Some (<[key := "-1"]> (default ∅ md))))
  else e.

(** The metadata map of the entry is not nil. *)
Definition hasMetadata (e : machineUpdateEntry) : Prop :=
  is_Some (Config.Metadata (LaunchInput.Config (launchInput e))).

(** The forced destroy of the machine of an entry. *)
Definition destroyCall (e : machineUpdateEntry) : FleetCall :=
  CDestroy (Machine.ID (leasableMachine e)) true.

(** The tag of the entry is the text of an integer. *)
Definition integerTag (key : string) (e : machineUpdateEntry) : Prop :=
  exists n, Strconv.Atoi (tagOf key e) = inr n.

(** Scenario 2 of the specification: m1 of generation 100, m2 and m3 of
    generation 200. *)
Definition Sample_m1 : machineUpdateEntry := Sample.entry "m1" "100" false [Sample.tcp].
Definition Sample_m2 : machineUpdateEntry := Sample.entry "m2" "200" false [Sample.tcp].
Definition Sample_m3 : machineUpdateEntry := Sample.entry "m3" "200" false [Sample.tcp].

(** The ids that [DestroyBlueMachines] appends to the hanging list when it
    runs over [l] after the fleet calls [tr]: those whose destroy fails. *)
Fixpoint hangingAfter (env : Env) (tr : list FleetCall) (l : machineUpdateEntries)
  : list string :=
  match l with
  | [] => []
  | e :: rest =>
      let here := match Reply env tr (destroyCall e) with
                  | Some _ => [LaunchInput.ID (launchInput e)]
                  | None => []
                  end in
      (here ++ hangingAfter env (tr ++ [destroyCall e]) rest)%list
  end.

(** Two blue machines of one generation. *)
Definition Sample_a : machineUpdateEntry := Sample.entry "m1" "100" false [Sample.tcp].
Definition Sample_b : machineUpdateEntry := Sample.entry "m2" "100" false [Sample.tcp].

(** Schedules under which two green machines start and pass their checks,
    and two blue machines stop. *)
Definition Sample_start2 : list event := [EvWait 0 None; EvWait 1 None; EvFore SelDefault].
Definition Sample_health2 : list event :=
  [EvGet 0 None (inr Sample.passing); EvGet 1 None (inr Sample.passing); EvFore SelDefault].
Definition Sample_stop2 : list event :=
  [EvWait 0 None; EvWait 1 None; EvCount 0; EvCount 1; EvFore SelDefault].

(** The fleet cannot destroy m1; everything else goes well. *)
Definition Sample_m1Hangs : Env :=
  Sample.env (Sample.failDestroy "m1") Sample_start2 Sample_health2 Sample_stop2.

(** The forced destroy of a machine. *)
Definition destroyMachine (m : Machine.t) : FleetCall := CDestroy (Machine.ID m) true.

(** After the fleet calls [tr], the fleet destroys the machines of [l] one
    after the other without an error. *)
Definition destroyedInTurn (env : Env) (tr : list FleetCall) (l : list Machine.t) : Prop :=
  forall l1 g l2,
    l = (l1 ++ g :: l2)%list ->
    Reply env (tr ++ (destroyMachine <$> l1))%list (destroyMachine g) = None.

(** What [Rollback] prints when the destroy of the blue machines failed. *)
Definition hangingGuidance (hanging : list string) : list string :=
  [newline ++ "Failed to destroy blue machines (" ++ Str.join hanging "," ++ ")" ++ newline;
   newline ++ "You can destroy them using `fly machines destroy --force <id>`"].

(** A deployment that has created the green machines g-m1 and g-m2. *)
Definition Sample_created : St :=
  withBG (Sample.state [Sample_a; Sample_b])
    (setGreen (bg (Sample.state [Sample_a; Sample_b]))
       [ {| leasableMachine := Sample.launched (launchInput Sample_a);
            launchInput := launchInput Sample_a |};
         {| leasableMachine := Sample.launched (launchInput Sample_b);
            launchInput := launchInput Sample_b |} ]).

(** The fleet cannot destroy the green machine g-m1. *)
Definition Sample_greenHangs : Env := Sample.env (Sample.failDestroy "g-m1") [] [] [].

(** The launch input that [CreateGreenMachines] sends for a blue entry:
    service registration is skipped and the tag is the timestamp of the
    deployment; the other fields, [SkipLaunch] among them, go as they are. *)
Definition stampInput (key ts : string) (li : LaunchInput.t) : LaunchInput.t :=
  withMetadata (withSkipServiceRegistration li true)
    (Some (<[key := ts]> (default ∅ (Config.Metadata (LaunchInput.Config li))))).

Definition cordonCall (e : machineUpdateEntry) : FleetCall :=
  CCordon (Machine.ID (leasableMachine e)).

Definition stopCall (signal : string) (e : machineUpdateEntry) : FleetCall :=
  CStop (Machine.ID (leasableMachine e)) signal.

(** The background task of a machine, not yet answered. *)
Definition newTask (e : machineUpdateEntry) : task :=
  {| tMachine := leasableMachine e; tState := WRun |}.

(** A blue entry with [SkipLaunch] set. *)
Definition Sample_skipped : machineUpdateEntry := Sample.entry "m1" "100" true [Sample.tcp].

(** Schedules for the deployment over [Sample_skipped]: no green machine is
    waited for, and the blue machine stops. *)
Definition Sample_skippedRun : Env :=
  Sample.env Sample.fine [EvFore SelDefault] [EvFore SelDefault]
    [EvWait 0 None; EvCount 0; EvFore SelDefault].

(** The fleet call is a destroy. *)
Definition isDestroy (c : FleetCall) : Prop :=
  match c with
  | CDestroy _ _ => True
  | _ => False
  end.

(** From [s] to [s'] the fleet was only asked to destroy machines, and the
    green list did not change. *)
Definition onlyDestroys (s s' : St) : Prop :=
  (exists calls, trace s' = (trace s ++ calls)%list /\ Forall isDestroy calls)
  /\ greenMachines (bg s') = greenMachines (bg s).

(** Blue entries without any check, on the services or at the top level. *)
Definition Sample_unchecked : machineUpdateEntry := Sample.entry "m1" "100" false [].
Definition Sample_unchecked2 : machineUpdateEntry := Sample.entry "m2" "100" false [].

(** Everything goes well for two machines. *)
Definition Sample_fine2 : Env :=
  Sample.env Sample.fine Sample_start2 Sample_health2 Sample_stop2.

(** The task has returned. *)
Definition ended (t : task) : bool :=
  match tState t with
  | WEnd => true
  | _ => false
  end.

Definition countEnded (tasks : list task) : nat := length (List.filter ended tasks).

(** What the stop-wait phase keeps true between two events: one task per
    blue machine, and a counter that tells how many of them have returned. *)
Definition stopInv (nblue : nat) (c : stopCfg) : Prop :=
  length (stopTasks c) = nblue /\ done c = countEnded (stopTasks c).

(** The state after [text] is written to the error stream. *)
Definition printed (text : string) (s : St) : St :=
  withWorld s (trace s) (polls s) (stderr s ++ [text])%list.



(** The blue machine m2 does not stop in time; everything else goes well. *)
Definition Sample_m2Stays : Env :=
  Sample.env Sample.fine Sample_start2 Sample_health2
    [EvWait 0 None; EvWait 1 (Some (ENew "timeout reached waiting for machine to stop"));
     EvCount 0; EvFore (SelRecv 1); EvCount 1; EvFore SelDefault].

(** The tag is the decimal text that [fmt.Sprintf("%d", n)] makes of an
    [int], as the timestamp of a deployment and the tag "-1" are. *)
Definition canonicalTag (t : string) : Prop :=
  exists n, Strconv.min_int <= n <= Strconv.max_int /\ t = Strconv.Sprint n.

(** The panic of a nil pointer dereference. *)
Definition nilDereference : string := "invalid memory address or nil pointer dereference".

(** The totals of the table are counts. *)
Definition totalsAreCounts (stateMap : gmap string HealthCheckStatus) : Prop :=
  map_Forall (fun _ v => 0 <= Total v) stateMap.

(** The status that the fleet reports in the event, if any, is a count. *)
Definition reportsCount (ev : event) : Prop :=
  match ev with
  | EvGet _ _ (inr status) => 0 <= Total status
  | _ => True
  end.

(** The terminal operations of a renderer clear only what was written:
    [balanced w ops] holds when, [w] being the number of rows last written
    (if any), every clear in [ops] asks for the number of rows of the write
    before it, and every write is a block of rows, one per line. *)
Inductive balanced : option nat -> list termOp -> Prop :=
| balanced_nil w : balanced w []
| balanced_clear n ops :
    balanced (Some n) ops -> balanced (Some n) (ClearLinesAbove n :: ops)
| balanced_write w rows ops :
    balanced (Some (length rows)) ops ->
    balanced w (ErrWrite (Str.join rows newline ++ newline) :: ops).

(** The operation is a clear. *)
Definition isClear (op : termOp) : Prop :=
  match op with
  | ClearLinesAbove _ => True
  | ErrWrite _ => False
  end.

(** The rows of a view before they are sorted. *)
Definition rowsOf (cs : ColorScheme) (view : gmap string string) : list string :=
  map (fun kv => machineRow cs kv.1 kv.2) (map_to_list view).

(** A colour scheme that leaves the text as it is. *)
Definition Sample_plain : ColorScheme := {| csBold := fun s => s; csGreen := fun s => s |}.

(** Two machines that have been created, and the same two once the first
    has started. *)
Definition Sample_viewCreated : gmap string string :=
  {[ "g-m1" := "created"; "g-m2" := "created" ]}.
Definition Sample_viewStarted : gmap string string :=
  {[ "g-m1" := "started"; "g-m2" := "created" ]}.

(** After the fleet calls [tr], the fleet answers nil to the calls of
    [calls], made one after the other. *)
Definition answersNil (env : Env) (tr : list FleetCall) (calls : list FleetCall) : Prop :=
  forall l1 c l2, calls = (l1 ++ c :: l2)%list -> Reply env (tr ++ l1)%list c = None.

Definition uncordonCall (m : Machine.t) : FleetCall := CUncordon (Machine.ID m).

(** The abort channel is closed at the next poll. *)
Definition abortClosed (env : Env) (s : St) : Prop :=
  exists n, abortAfter env = Some n /\ (n <= polls s)%nat.

(** The number of polls from [s] on that still find the abort channel
    open; [None] when it is never closed. *)
Definition pollsLeft (env : Env) (s : St) : option nat :=
  match abortAfter env with
  | Some n => Some (n - polls s)%nat
  | None => None
  end.

(** The machines that a loop with one poll per machine reaches before the
    poll that finds the abort channel closed. *)
Definition reached {A} (env : Env) (s : St) (l : list A) : list A :=
  match pollsLeft env s with
  | Some k => take k l
  | None => l
  end.

(** What such a loop returns. *)
Definition abortedWithin {A} (env : Env) (s : St) (l : list A) : option error :=
  match pollsLeft env s with
  | Some k => if (k <? length l)%nat then Some ErrAborted else None
  | None => None
  end.

(** The user aborts after [n] polls of a deployment that the fleet serves
    without an error. *)
Definition Sample_abortAfter (n : nat) : Env :=
  {| MachineConfigMetadataKeyFlyctlBGTag := Sample.tagKey;
     CanPerformBluegreenDeployment := fun _ => inr true;
     Launch := fun _ li => inr (Sample.launched li);
     Reply := Sample.fine;
     abortAfter := Some n;
     Bold := fun s => s;
     Quote := fun s => s;
     startSchedule := Sample_start2;
     healthSchedule := Sample_health2;
     stopSchedule := Sample_stop2 |}.

(** The fleet cannot uncordon g-m1. *)
Definition Sample_uncordonFails : Env :=
  Sample.env (fun _ c => match c with
                         | CUncordon "g-m1" => Some (ENew "machine not found")
                         | _ => None
                         end) [] [] [].

(** A blue entry after [CreateGreenMachines] wrote to its launch input. *)
Definition stampEntry (key ts : string) (e : machineUpdateEntry) : machineUpdateEntry :=
  withLaunchInput e (stampInput key ts (launchInput e)).

(** The fleet launches the machine for m1 and fails on the one for m2. *)
Definition Sample_secondLaunchFails : Env :=
  {| MachineConfigMetadataKeyFlyctlBGTag := Sample.tagKey;
     CanPerformBluegreenDeployment := fun _ => inr true;
     Launch := fun _ li => if String.eqb (LaunchInput.ID li) "m2"
                           then inl (ENew "no capacity in region")
                           else inr (Sample.launched li);
     Reply := Sample.fine;
     abortAfter := None;
     Bold := fun s => s;
     Quote := fun s => s;
     startSchedule := [];
     healthSchedule := [];
     stopSchedule := [] |}.

(** The line that [CreateGreenMachines] prints for a launched machine. *)
Definition createdLine (env : Env) (m : Machine.t) : string :=
  "  Created machine " ++ Bold env (Machine.FormattedMachineId m) ++ newline.

(** A deployment of [Sample_a] and [Sample_b] built by the constructor at
    second 1700000000. *)
Definition Sample_fresh : St :=
  {| bg := BlueGreenStrategy "app" "SIGINT" [Sample_a; Sample_b] 1700000000;
     trace := []; polls := 0; stderr := [] |}.

(** The state after one poll of the abort channel. *)
Definition polled (s : St) : St := withWorld s (trace s) (S (polls s)) (stderr s).

(** The organization of the app may not deploy blue-green. *)
Definition Sample_denied : Env :=
  {| MachineConfigMetadataKeyFlyctlBGTag := Sample.tagKey;
     CanPerformBluegreenDeployment := fun _ => inr false;
     Launch := fun _ li => inr (Sample.launched li);
     Reply := Sample.fine;
     abortAfter := None;
     Bold := fun s => s;
     Quote := fun s => s;
     startSchedule := Sample_start2;
     healthSchedule := Sample_health2;
     stopSchedule := Sample_stop2 |}.

(** What [Rollback] does for an error of the destroy phase. *)
Definition guided (s : St) : St :=
  withWorld s (trace s) (polls s)
    (stderr s ++ hangingGuidance (hangingBlueMachines (bg s)))%list.

(** The tags of the entries, as the first loop of the sweep collects them. *)
Definition tagSet (key : string) (blue : machineUpdateEntries) : gset string :=
  list_to_set (tagOf key <$> blue) ∪ ∅.


(** A machine description without a metadata map. *)
Definition Sample_noMetadata : machineUpdateEntry :=
  {| leasableMachine := Sample.machine "m9";
     launchInput :=
       {| LaunchInput.ID := "m9";
          LaunchInput.Config :=
            {| Config.Metadata := None;
               Config.Services := [Sample.service [Sample.tcp]];
               Config.Checks := None |};
          LaunchInput.SkipLaunch := false;
          LaunchInput.SkipServiceRegistration := false |} |}.

(** The line the sweep prints for a destroyed machine. *)
Definition zombieLine (env : Env) (e : machineUpdateEntry) : string :=
  "  Zombie Machine " ++ Bold env (Machine.FormattedMachineId (leasableMachine e))
    ++ " destroyed [" ++ tagOf (MachineConfigMetadataKeyFlyctlBGTag env) e ++ "]" ++ newline.

(** The state after [n] polls of the abort channel, the fleet calls [calls]
    and the lines [out]. *)
Definition advanced (s : St) (n : nat) (calls : list FleetCall) (out : list string) : St :=
  withWorld s (trace s ++ calls)%list (n + polls s)%nat (stderr s ++ out)%list.

(** The fleet refuses to destroy m2 twice and then destroys it. *)
Definition Sample_destroyAtThird : Env :=
  Sample.env
    (fun tr c =>
       match c with
       | CDestroy id _ =>
           if String.eqb id "m2" && (length tr <? 2)%nat
           then Some (ENew "machine still active") else None
       | _ => None
       end)
    [] [] [].

(** The checks map after the innermost loop of [attachCustomTopLevelChecks]
    over the service checks [pairs]: the map is made only when a check is
    stored. *)
Definition stored (checks : option (gmap string Check.t))
    (pairs : list (Service.t * Check.t)) : option (gmap string Check.t) :=
  match pairs with
  | [] => checks
  | _ => Some (storeAll (default ∅ checks) pairs)
  end.

(** The launch input apart from its top-level checks. *)
Definition withoutChecks (li : LaunchInput.t) : LaunchInput.t := withChecks li None.

(** The entry has no top-level check. *)
Definition unchecked (e : machineUpdateEntry) : bool := Nat.eqb (lenChecks e) 0.

(** The warning of [Deploy] for an entry without checks. *)
Definition warning (e : machineUpdateEntry) : string :=
  newline ++ "[WARN] Machine " ++ Machine.FormattedMachineId (leasableMachine e)
    ++ " doesn't have healthchecks setup. We won't check its health.".

Definition needsCheck : string :=
  newline ++ newline
    ++ "You need to define at least 1 check in order to use blue-green deployments. Refer to https://fly.io/docs/reference/configuration/#services-tcp_checks"
    ++ newline.

(** The validation of [Deploy] fails over these entries. *)
Definition invalid (blue : machineUpdateEntries) : bool :=
  forallb unchecked blue && negb (Nat.eqb (length blue) 0).

(** A blue entry with a top-level check of its own and no service check. *)
Definition Sample_ownCheck : machineUpdateEntry :=
  {| leasableMachine := Sample.machine "m4";
     launchInput :=
       {| LaunchInput.ID := "m4";
          LaunchInput.Config :=
            {| Config.Metadata := Some {[ Sample.tagKey := "100" ]};
               Config.Services := [Sample.service []];
               Config.Checks := Some {[ "alive" := Sample.check (Some 9000) (Some "http") ]} |};
          LaunchInput.SkipLaunch := false;
          LaunchInput.SkipServiceRegistration := false |} |}.

(** The service checks of [services], in the order of the loops. *)
Definition pairsOf (services : list Service.t) : list (Service.t * Check.t) :=
  flat_map (fun service => map (fun check => (service, check)) (Service.Checks service))
           services.

(** The wait for machine [m] to reach the state [desired]. *)
Definition waitCall (desired : string) (m : Machine.t) : FleetCall :=
  CWait (Machine.ID m) desired.

Definition getCall (m : Machine.t) : FleetCall := CGet (Machine.ID m).

(** The fleet call of the task has returned. *)
Definition notRun (t : task) : bool :=
  match tState t with
  | WRun => false
  | _ => true
  end.

(** The machines of the tasks whose fleet call has returned. *)
Definition answered (tasks : list task) : list Machine.t :=
  tMachine <$> List.filter notRun tasks.

(** The green machines that the start-wait phase waits for. *)
Definition launched (greens : machineUpdateEntries) : list Machine.t :=
  leasableMachine
    <$> filter (fun gm => LaunchInput.SkipLaunch (launchInput gm) = false) greens.

(** The green machines that the health-wait phase polls. *)
Definition checked (greens : machineUpdateEntries) : list Machine.t :=
  leasableMachine <$> List.filter healthChecked greens.

(** Some green entry with [SkipLaunch] shows as [k] in the table. *)
Definition skipped (greens : machineUpdateEntries) (k : string) : Prop :=
  exists gm, gm ∈ greens /\ LaunchInput.SkipLaunch (launchInput gm) = true
             /\ Machine.FormattedMachineId (leasableMachine gm) = k.

(** The error a waiter of the stop-wait phase sends for machine [m]. *)
Definition stopError (m : Machine.t) (cause : error) : error :=
  EErrorf ("failed to stop machine " ++ Machine.FormattedMachineId m ++ ": ") cause.

(** What the start-wait phase keeps true between two events of the
    schedule [sched], when it started in [s0]. *)
Definition startInv (sched : list event) (s0 : St) (c : startCfg) (st : St) : Prop :=
  bg st = bg s0
  /\ tMachine <$> startTasks c = launched (greenMachines (bg s0))
  /\ (exists waited,
        trace st = (trace s0 ++ (waitCall "start" <$> waited))%list
        /\ waited ≡ₚ answered (startTasks c))
  /\ (forall k,
        startTable c !! k = Some "started" ->
        (exists j t, startTasks c !! j = Some t
                     /\ Machine.FormattedMachineId (tMachine t) = k /\ tState t = WEnd)
        \/ skipped (greenMachines (bg s0)) k)
  /\ (forall m, m ∈ launched (greenMachines (bg s0)) ->
                is_Some (startTable c !! Machine.FormattedMachineId m))
  /\ (forall j t e, startTasks c !! j = Some t -> tState t = WSend e ->
                    exists i, EvWait i (Some e) ∈ sched).

(** What holds when the start-wait phase returns [r]. *)
Definition startPost (sched : list event) (s0 : St) (r : option error) (st : St) : Prop :=
  bg st = bg s0
  /\ (exists waited,
        trace st = (trace s0 ++ (waitCall "start" <$> waited))%list
        /\ waited ⊆+ launched (greenMachines (bg s0))
        /\ (r = None ->
            NoDup (Machine.FormattedMachineId <$> machines (greenMachines (bg s0))) ->
            waited ≡ₚ launched (greenMachines (bg s0))))
  /\ (forall e, r = Some e ->
                e = ErrAborted \/ e = ErrWaitTimeout
                \/ exists i, EvWait i (Some e) ∈ sched).

(** The fleet cannot start g-m2. *)
Definition Sample_startFails : Env :=
  Sample.env Sample.fine
    [EvWait 0 None; EvWait 1 (Some (ENew "machine failed to start"));
     EvFore (SelRecv 1)] [] [].

(** The error names a blue machine of [s0] that did not stop. *)
Definition namesBlue (s0 : St) (e : error) : Prop :=
  exists m cause, m ∈ machines (blueMachines (bg s0)) /\ e = stopError m cause.

(** What the stop-wait phase keeps true between two events, when it
    started in [s0]. *)
Definition stopWaitInv (s0 : St) (c : stopCfg) (st : St) : Prop :=
  stopInv (length (blueMachines (bg s0))) c
  /\ bg st = bg s0
  /\ tMachine <$> stopTasks c = machines (blueMachines (bg s0))
  /\ (exists waited,
        trace st = (trace s0 ++ (waitCall "stop" <$> waited))%list
        /\ waited ≡ₚ answered (stopTasks c))
  /\ (forall j t e, stopTasks c !! j = Some t -> tState t = WSend e -> namesBlue s0 e)
  /\ Forall (namesBlue s0) (merr c).

(** What holds when the stop-wait phase returns [r]. *)
Definition stopWaitPost (s0 : St) (r : option error) (st : St) : Prop :=
  bg st = bg s0
  /\ (exists waited,
        trace st = (trace s0 ++ (waitCall "stop" <$> waited))%list
        /\ waited ⊆+ machines (blueMachines (bg s0))
        /\ (r = None \/ (exists es, r = Some (EMulti es)) ->
            waited ≡ₚ machines (blueMachines (bg s0))))
  /\ (forall es, r = Some (EMulti es) -> es <> [] /\ Forall (namesBlue s0) es)
  /\ (r = None \/ r = Some ErrAborted \/ r = Some ErrWaitTimeout
      \/ exists es, r = Some (EMulti es)).

(** A deployment over m1 and m2 that is about to wait for them to stop. *)
Definition Sample_stopping : St := Sample.state [Sample_a; Sample_b].

(** The error [e] is one that a poll of the schedule answered, as the
    error of the fleet or as the error of the context of the poller. *)
Definition polledError (sched : list event) (e : error) : Prop :=
  exists i ctxErr r, EvGet i ctxErr r ∈ sched /\ (ctxErr = Some e \/ r = inl e).

(** What the health-wait phase keeps true between two events of the
    schedule [sched], when it started in [s0]. *)
Definition healthInv (sched : list event) (s0 : St) (c : healthCfg) (st : St) : Prop :=
  bg st = bg s0
  /\ tMachine <$> healthTasks c = checked (greenMachines (bg s0))
  /\ (exists polledMachines,
        trace st = (trace s0 ++ (getCall <$> polledMachines))%list
        /\ (forall m, m ∈ polledMachines -> m ∈ checked (greenMachines (bg s0)))
        /\ (forall k v, healthTable c !! k = Some v -> Total v <> 0 ->
                        exists m, m ∈ polledMachines
                                  /\ Machine.FormattedMachineId m = k))
  /\ (forall m, m ∈ checked (greenMachines (bg s0)) ->
                is_Some (healthTable c !! Machine.FormattedMachineId m))
  /\ (forall k, is_Some (healthTable c !! k) ->
                exists m, m ∈ checked (greenMachines (bg s0))
                          /\ Machine.FormattedMachineId m = k)
  /\ (forall j t e, healthTasks c !! j = Some t -> tState t = WSend e ->
                    polledError sched e).

(** What holds when the health-wait phase returns [r]. *)
Definition healthPost (sched : list event) (s0 : St) (r : option error) (st : St) : Prop :=
  bg st = bg s0
  /\ (exists polledMachines,
        trace st = (trace s0 ++ (getCall <$> polledMachines))%list
        /\ (forall m, m ∈ polledMachines -> m ∈ checked (greenMachines (bg s0)))
        /\ (r = None ->
            forall m, m ∈ checked (greenMachines (bg s0)) ->
                      exists m', m' ∈ polledMachines
                                 /\ Machine.FormattedMachineId m'
                                    = Machine.FormattedMachineId m))
  /\ (checked (greenMachines (bg s0)) = [] -> r = None)
  /\ (forall e, r = Some e ->
                e = ErrAborted \/ e = ErrWaitTimeout \/ polledError sched e).


(** The call launches a machine. *)
Definition isLaunch (c : FleetCall) : bool :=
  match c with
  | CLaunch _ => true
  | _ => false
  end.

(** The call takes a machine out of service: a cordon or a stop. *)
Definition isDrain (c : FleetCall) : bool :=
  match c with
  | CCordon _ | CStop _ _ => true
  | _ => false
  end.

(** From [s] to [s'] no machine was launched and the list of green
    machines did not change. *)
Definition quiet (s s' : St) : Prop :=
  greenMachines (bg s') = greenMachines (bg s)
  /\ exists calls, trace s' = (trace s ++ calls)%list
                   /\ Forall (fun c => isLaunch c = false) calls.

(** A step that is [quiet] from every state, whatever its outcome. *)
Definition Quiet {A} (m : M A) : Prop := forall s, quiet s (m s).2.

(** The user aborts after the first poll: over machines of one generation
    the second poll of [Deploy] is the one that follows the creation of the
    green machines. *)
Definition Sample_abortAfterCreate : Env := Sample_abortAfter 1.

(** The calls do not take a machine out of service. *)
Definition noDrain (calls : list FleetCall) : Prop :=
  Forall (fun c => isDrain c = false) calls.

(** The user aborts after nine polls: over two machines of one generation
    the tenth poll of [Deploy] is the one before the cordon of the second
    blue machine. *)
Definition Sample_abortInCordon : Env := Sample_abortAfter 9.

(** The view that [renderMachineHealthchecks] makes of the health table. *)
Definition healthView (state : gmap string HealthCheckStatus) : gmap string string :=
  healthText <$> state.

(** Several calls in a row of the function that
    [renderMachineHealthchecks(state)] returns, one per snapshot of the
    health table. *)
Fixpoint renderHealthAll (cs : ColorScheme) (tables : list (gmap string HealthCheckStatus))
    (r : renderer) : list termOp * renderer :=
  match tables with
  | [] => ([], r)
  | table :: rest =>
      let '(ops, r1) := renderMachineHealthchecks cs table r in
      let '(ops', r2) := renderHealthAll cs rest r1 in
      ((ops ++ ops')%list, r2)
  end.

(** The health table of two green machines before any poll, and once g-m1
    passes its check. *)
Definition Sample_healthNew : gmap string HealthCheckStatus :=
  {[ "g-m1" := {| Total := 0; Passing := 0 |}; "g-m2" := {| Total := 0; Passing := 0 |} ]}.
Definition Sample_healthOne : gmap string HealthCheckStatus :=
  {[ "g-m1" := {| Total := 1; Passing := 1 |}; "g-m2" := {| Total := 0; Passing := 0 |} ]}.

(** * Properties *)

(** ** The monad *)

Lemma bind_done {A B} (m : M A) (k : A -> M B) s a s' :
  m s = (Done a, s') -> bind m k s = k a s'.
Proof. intros H. unfold bind. by rewrite H. Qed.

Lemma bind_panic {A B} (m : M A) (k : A -> M B) s msg s' :
  m s = (Panic msg, s') -> bind m k s = (Panic msg, s').
Proof. intros H. unfold bind. by rewrite H. Qed.

Lemma eprint_run (text : string) (s : St) : eprint text s = (Done tt, printed text s).
Proof. reflexivity. Qed.

(** ** The health predicate *)

Section Health.

Implicit Types (stateMap : gmap string HealthCheckStatus).
Implicit Types (l : list (string * HealthCheckStatus)).

Lemma countPassed_le l : (countPassed l <= length l)%nat.
Proof.
  induction l as [|kv l IH]; simpl; [lia|].
  destruct (Total kv.2 =? 0)%Z; [lia|].
  destruct (Passing kv.2 =? Total kv.2)%Z; lia.
Qed.

Lemma countPassed_all l :
  countPassed l = length l <-> Forall (fun kv => passes kv.2) l.
Proof.
  induction l as [|kv l IH]; simpl.
  - split; [constructor | done].
  - pose proof (countPassed_le l) as Hle. fold (countPassed l).
    destruct (Z.eqb_spec (Total kv.2) 0) as [Hz|Hz].
    + split; [lia|]. intros Hall. apply Forall_cons_1 in Hall as [[Hne _] _]. done.
    + destruct (Z.eqb_spec (Passing kv.2) (Total kv.2)) as [Hp|Hp].
      * split.
        -- intros Heq. constructor; [done|]. apply IH. lia.
        -- intros Hall. apply Forall_cons_1 in Hall as [_ Hall].
           apply IH in Hall. lia.
      * split; [lia|]. intros Hall. apply Forall_cons_1 in Hall as [[_ Heq] _]. done.
Qed.

Lemma allMachinesHealthy_passes stateMap :
  allMachinesHealthy stateMap = true <-> map_Forall (fun _ v => passes v) stateMap.
Proof.
  unfold allMachinesHealthy. fold (countPassed (map_to_list stateMap)).
  rewrite Nat.eqb_eq, <- length_map_to_list, countPassed_all, map_Forall_to_list.
  apply Forall_iff. by intros [k v].
Qed.

Lemma healthTableInit_unchecked (l1 l2 : machineUpdateEntries) gm t :
  healthChecked gm = false ->
  healthTableInit (l1 ++ gm :: l2) t = healthTableInit (l1 ++ l2) t.
Proof.
  intros Hgm. revert t. induction l1 as [|x l1 IH]; intros t; simpl.
  - by rewrite Hgm.
  - destruct (healthChecked x); apply IH.
Qed.

Lemma healthSpawn_unchecked (l1 l2 : machineUpdateEntries) gm :
  healthChecked gm = false ->
  healthSpawn (l1 ++ gm :: l2) = healthSpawn (l1 ++ l2).
Proof.
  intros Hgm. unfold healthSpawn.
  rewrite !List.filter_app. simpl. by rewrite Hgm.
Qed.

Lemma healthInit_unchecked (l1 l2 : machineUpdateEntries) gm :
  healthChecked gm = false ->
  healthInit (l1 ++ gm :: l2) = healthInit (l1 ++ l2).
Proof.
  intros Hgm. unfold healthInit.
  by rewrite healthTableInit_unchecked, healthSpawn_unchecked.
Qed.

(** The table of the health-wait phase holds counts for as long as the
    fleet reports counts. *)
Lemma healthTableInit_counts (greens : machineUpdateEntries)
    (t : gmap string HealthCheckStatus) :
  totalsAreCounts t -> totalsAreCounts (healthTableInit greens t).
Proof.
  revert t. induction greens as [|gm greens IH]; intros t Ht; [done|].
  simpl. destruct (healthChecked gm); [|by apply IH].
  apply IH. by apply map_Forall_insert_2.
Qed.

Lemma healthInit_counts (greens : machineUpdateEntries) :
  totalsAreCounts (healthTable (healthInit greens)).
Proof. apply healthTableInit_counts, map_Forall_empty. Qed.

Lemma healthStep_counts (env : Env) (ev : event) (c c' : healthCfg) (s s' : St) :
  reportsCount ev ->
  totalsAreCounts (healthTable c) ->
  healthStep env ev c s = (Done (inl c'), s') ->
  totalsAreCounts (healthTable c').
Proof.
  intros Hev Hc H. destruct ev as [i r|i ctxErr r|i|sel]; simpl in H; try discriminate H.
  - destruct (healthTasks c !! i) as [[m []]|]; try discriminate H.
    unfold bind, record in H.
    destruct ctxErr as [e|]; [unfold ret in H; by simplify_eq|].
    destruct r as [e|status]; [unfold ret in H; by simplify_eq|].
    simpl in Hev.
    destruct ((Total status =? Passing status)%Z && negb (Total status =? 0)%Z)%bool;
      unfold ret in H; simplify_eq; by apply map_Forall_insert_2.
  - destruct (allMachinesHealthy (healthTable c)); [discriminate H|].
    unfold bind at 1, isAborted at 1 in H.
    destruct (match abortAfter env with
              | Some k => (k <=? polls s)%nat
              | None => false
              end); [discriminate H|].
    destruct sel as [|i|]; try discriminate H.
    + destruct (healthTasks c !! i) as [[m []]|]; discriminate H.
    + destruct (noneSending (healthTasks c)); [|discriminate H].
      unfold ret in H. by simplify_eq.
Qed.

End Health.

(** C9. On a health table whose totals are counts (not negative, as in
    every table of the health-wait phase while the fleet reports counts),
    [allMachinesHealthy] is true exactly when every entry has [Total > 0]
    and [Passing = Total]; an entry with [Total = 0] makes it false; the
    empty table makes it true; and a green machine with no configured check
    adds nothing to the table the phase starts from, nor a poller. *)
Theorem allMachinesHealthy_correct (stateMap : gmap string HealthCheckStatus) :
  totalsAreCounts stateMap ->
  (allMachinesHealthy stateMap = true
   <-> map_Forall (fun _ v => 0 < Total v /\ Passing v = Total v) stateMap)
  /\ ((exists id v, stateMap !! id = Some v /\ Total v = 0) ->
      allMachinesHealthy stateMap = false)
  /\ allMachinesHealthy ∅ = true
  /\ (forall (l1 l2 : machineUpdateEntries) gm,
        Machine.Checks (leasableMachine gm) = [] ->
        healthInit (l1 ++ gm :: l2) = healthInit (l1 ++ l2)).
Proof.
  intros Hnonneg. split; [split | split; [| split]].
  - intros H id v Hv. apply allMachinesHealthy_passes in H.
    destruct (H id v Hv) as [Hne Heq]. specialize (Hnonneg id v Hv). simpl in Hnonneg.
    split; [lia | done].
  - intros H. apply allMachinesHealthy_passes. intros id v Hv.
    destruct (H id v Hv) as [Hpos Heq]. split; [lia | done].
  - intros (id & v & Hv & Hz).
    destruct (allMachinesHealthy stateMap) eqn:E; [|done].
    apply allMachinesHealthy_passes in E. destruct (E id v Hv) as [Hne _]. done.
  - apply allMachinesHealthy_passes. apply map_Forall_empty.
  - intros l1 l2 gm Hchecks. apply healthInit_unchecked.
    unfold healthChecked. rewrite Hchecks. simpl. apply andb_false_r.
Qed.

(** The table with the one entry g-m1, 1 of 1 passing. *)
Lemma allMachinesHealthy_correct_witness :
  totalsAreCounts {[ "g-m1" := Sample.passing ]}
  /\ (allMachinesHealthy {[ "g-m1" := Sample.passing ]} = true
      <-> map_Forall (fun _ v => 0 < Total v /\ Passing v = Total v)
            ({[ "g-m1" := Sample.passing ]} : gmap string HealthCheckStatus)).
Proof.
  assert (Hnn : totalsAreCounts {[ "g-m1" := Sample.passing ]}).
  { apply map_Forall_singleton. simpl. lia. }
  split; [exact Hnn|].
  exact (proj1 (allMachinesHealthy_correct _ Hnn)).
Defined.

(** ** Check propagation *)

Section Attach.

Local Open Scope list_scope.

Lemma checkKey_inj t1 t2 : checkKey t1 = checkKey t2 -> t1 = t2.
Proof. unfold checkKey. simpl. intros H. by simplify_eq. Qed.

Instance checkKey_Inj : Inj (=) (=) checkKey.
Proof. intros t1 t2. apply checkKey_inj. Qed.

Lemma attachCheck_typed service checks check :
  is_Some (Check.Type_ check) ->
  exists checks',
    attachCheck service checks check = Done checks'
    /\ default ∅ checks' = storeAll (default ∅ checks) [(service, check)].
Proof.
  intros [t Ht]. unfold attachCheck. rewrite Ht.
  eexists. split; [done|]. unfold storeAll, typeOf. simpl. rewrite Ht. simpl.
  by destruct checks.
Qed.

Lemma storeAll_app m l1 l2 : storeAll m (l1 ++ l2) = storeAll (storeAll m l1) l2.
Proof. unfold storeAll. apply foldl_app. Qed.

Lemma attachService_typed service checks :
  Forall (fun c => is_Some (Check.Type_ c)) (Service.Checks service) ->
  exists checks',
    attachService checks service = Done checks'
    /\ default ∅ checks'
       = storeAll (default ∅ checks)
           (map (fun check => (service, check)) (Service.Checks service)).
Proof.
  unfold attachService. generalize (Service.Checks service) as cs.
  intros cs. revert checks. induction cs as [|c cs IH]; intros checks Hall.
  - by exists checks.
  - apply Forall_cons_1 in Hall as [Hc Hall].
    destruct (attachCheck_typed service checks c Hc) as (checks1 & E1 & D1).
    destruct (IH checks1 Hall) as (checks2 & E2 & D2).
    exists checks2. simpl. rewrite E1. split; [done|].
    rewrite D2, D1. by rewrite <- storeAll_app.
Qed.

Lemma attachServices_typed services checks :
  Forall typed
    (flat_map (fun s => map (fun c => (s, c)) (Service.Checks s)) services) ->
  exists checks',
    foldO attachService services checks = Done checks'
    /\ default ∅ checks'
       = storeAll (default ∅ checks)
           (flat_map (fun s => map (fun c => (s, c)) (Service.Checks s)) services).
Proof.
  revert checks. induction services as [|s services IH]; intros checks Hall.
  - by exists checks.
  - simpl in Hall. apply Forall_app in Hall as [Hs Hall].
    assert (Hs' : Forall (fun c => is_Some (Check.Type_ c)) (Service.Checks s)).
    { apply Forall_forall. intros c Hc.
      rewrite Forall_forall in Hs. apply (Hs (s, c)).
      apply list_elem_of_fmap. by exists c. }
    destruct (attachService_typed s checks Hs') as (checks1 & E1 & D1).
    destruct (IH checks1 Hall) as (checks2 & E2 & D2).
    exists checks2. simpl. rewrite E1. split; [done|].
    by rewrite D2, D1, <- storeAll_app.
Qed.

Lemma attachEntry_typed entry :
  Forall typed (serviceChecks entry) ->
  exists entry',
    attachEntry entry = Done entry'
    /\ topLevelChecks entry' = storeAll (topLevelChecks entry) (serviceChecks entry).
Proof.
  intros Hall. unfold attachEntry.
  destruct (attachServices_typed _ (Config.Checks (LaunchInput.Config (launchInput entry)))
              Hall) as (checks' & E & D).
  rewrite E. eexists. split; [done|]. exact D.
Qed.



Lemma storeAll_dom m pairs :
  dom (storeAll m pairs)
  = dom m ∪ list_to_set (map (fun p => checkKey (typeOf p.2)) pairs).
Proof.
  revert m. induction pairs as [|p pairs IH]; intros m.
  - simpl. by rewrite union_empty_r_L.
  - change (storeAll m (p :: pairs))
      with (storeAll (<[checkKey (typeOf p.2) := customCheck p.1 p.2]> m) pairs).
    rewrite IH, dom_insert_L. simpl.
    apply set_eq. intros k. rewrite !elem_of_union. tauto.
Qed.


End Attach.

(** The loop over the checks of a service panics when one of them has no
    type. *)
Lemma attachChecks_untyped (service : Service.t) (checks : list Check.t)
    (m : option (gmap string Check.t)) :
  (exists check, check ∈ checks /\ Check.Type_ check = None) ->
  foldO (attachCheck service) checks m = Panic nilDereference.
Proof.
  revert m. induction checks as [|c checks IH]; intros m (check & Hin & Hnone).
  - by apply elem_of_nil in Hin.
  - cbn [foldO]. unfold attachCheck at 1.
    destruct (Check.Type_ c) as [t|] eqn:Et; [|done].
    apply IH. apply elem_of_cons in Hin as [->|Hin]; [congruence|]. by exists check.
Qed.

Lemma checks_typed_or_not (checks : list Check.t) :
  Forall (fun c => is_Some (Check.Type_ c)) checks
  \/ exists c, c ∈ checks /\ Check.Type_ c = None.
Proof.
  induction checks as [|c checks [IH|(c' & Hin & Hnone)]].
  - left. constructor.
  - destruct (Check.Type_ c) as [t|] eqn:Et.
    + left. constructor; [by eexists | done].
    + right. exists c. split; [left | done].
  - right. exists c'. split; [by right | done].
Qed.

Lemma attachServices_untyped (services : list Service.t)
    (m : option (gmap string Check.t)) :
  (exists p, p ∈ flat_map (fun s => map (fun c => (s, c)) (Service.Checks s)) services
             /\ Check.Type_ p.2 = None) ->
  foldO attachService services m = Panic nilDereference.
Proof.
  revert m. induction services as [|s services IH]; intros m (p & Hin & Hnone).
  - by apply elem_of_nil in Hin.
  - cbn [foldO flat_map] in *.
    destruct (checks_typed_or_not (Service.Checks s)) as [Hall|Hsome].
    + destruct (attachService_typed s m Hall) as (m' & -> & _).
      apply IH. exists p. split; [|done].
      apply elem_of_app in Hin as [Hin|Hin]; [|done].
      apply list_elem_of_fmap in Hin as (c & -> & Hc).
      rewrite Forall_forall in Hall. destruct (Hall c Hc) as [t Ht].
      simpl in Hnone. congruence.
    + unfold attachService at 1. by rewrite attachChecks_untyped.
Qed.

Lemma attachEntry_untyped (entry : machineUpdateEntry) :
  (exists p, p ∈ serviceChecks entry /\ Check.Type_ p.2 = None) ->
  attachEntry entry = Panic nilDereference.
Proof.
  intros H. unfold attachEntry. by rewrite attachServices_untyped.
Qed.

Lemma typed_or_not (l : list (Service.t * Check.t)) :
  Forall typed l \/ exists p, p ∈ l /\ Check.Type_ p.2 = None.
Proof.
  induction l as [|p l [IH|(p' & Hin & Hnone)]].
  - left. constructor.
  - destruct (Check.Type_ p.2) as [t|] eqn:Et.
    + left. constructor; [by exists t | done].
    + right. exists p. split; [left | done].
  - right. exists p'. split; [by right | done].
Qed.

(** [attachEntry] returns or panics on a nil type; it does nothing else. *)
Lemma attachEntry_outcome (entry : machineUpdateEntry) :
  (exists entry', attachEntry entry = Done entry')
  \/ attachEntry entry = Panic nilDereference.
Proof.
  destruct (typed_or_not (serviceChecks entry)) as [Hall|Hsome].
  - left. destruct (attachEntry_typed entry Hall) as (entry' & E & _). by exists entry'.
  - right. by apply attachEntry_untyped.
Qed.

(** C6. When a service check of a blue entry leaves its type unset, the
    store under the key of [*check.Type] dereferences a nil pointer:
    [attachCustomTopLevelChecks] panics and attaches nothing, whatever the
    other checks and entries are. *)
Theorem attachCustomTopLevelChecks_unset_type_panics (s : St) :
  (exists entry p,
     entry ∈ blueMachines (bg s) /\ p ∈ serviceChecks entry /\ Check.Type_ p.2 = None) ->
  attachCustomTopLevelChecks s = (Panic nilDereference, s).
Proof.
  intros (entry & p & Hentry & Hp & Hnone).
  unfold attachCustomTopLevelChecks, bind, getBG.
  assert (E : attachAll (blueMachines (bg s)) = Panic nilDereference).
  { induction (blueMachines (bg s)) as [|e blue IH].
    - by apply elem_of_nil in Hentry.
    - cbn [attachAll]. apply elem_of_cons in Hentry as [<-|Hentry].
      + rewrite attachEntry_untyped; [done|]. by exists p.
      + destruct (attachEntry_outcome e) as [(e' & ->)| ->]; [|done].
        by rewrite (IH Hentry). }
  by rewrite E.
Qed.

(** The blue entry m1 with one service check whose type is unset. *)
Lemma attachCustomTopLevelChecks_unset_type_panics_witness :
  (exists entry p,
     entry ∈ blueMachines (bg (Sample.state [Sample_untyped]))
     /\ p ∈ serviceChecks entry /\ Check.Type_ p.2 = None)
  /\ attachCustomTopLevelChecks (Sample.state [Sample_untyped])
     = (Panic nilDereference, Sample.state [Sample_untyped]).
Proof.
  assert (H : exists entry p,
            entry ∈ blueMachines (bg (Sample.state [Sample_untyped]))
            /\ p ∈ serviceChecks entry /\ Check.Type_ p.2 = None).
  { exists Sample_untyped, (Sample.service [Sample.check (Some 8080) None],
                            Sample.check (Some 8080) None).
    split; [left|]. split; [left | reflexivity]. }
  split; [exact H|].
  exact (attachCustomTopLevelChecks_unset_type_panics _ H).
Defined.




(** ** The zombie sweep *)

Section Sweep.

Local Open Scope list_scope.

Variable env : Env.

Let key := MachineConfigMetadataKeyFlyctlBGTag env.

Lemma entry_rebuild (e : machineUpdateEntry) :
  withLaunchInput e
    (withMetadata (launchInput e) (Config.Metadata (LaunchInput.Config (launchInput e))))
  = e.
Proof. by destruct e as [m [id [md sv ch] sk sr]]. Qed.

Lemma collectTags_normalize (blue : machineUpdateEntries) (tags : gset string) :
  Forall hasMetadata blue ->
  collectTags key blue tags
  = Some (normalizeTag key <$> blue,
          list_to_set (tagOf key <$> (normalizeTag key <$> blue)) ∪ tags).
Proof.
  revert tags. induction blue as [|e blue IH]; intros tags Hall.
  - simpl. by rewrite union_empty_l_L.
  - apply Forall_cons_1 in Hall as [[md Hmd] Hall]. simpl.
    unfold normalizeTag at 1 3. rewrite Hmd. simpl.
    destruct (String.eqb (default "" (md !! key)) "") eqn:E; simpl.
    + rewrite IH by done. f_equal. f_equal.
      apply set_eq. intros k. rewrite !elem_of_union. tauto.
    + rewrite <- Hmd, entry_rebuild. rewrite IH by done. f_equal. f_equal.
      apply set_eq. intros k. rewrite !elem_of_union. tauto.
Qed.

Lemma parseAll_integers (l : list string) :
  Forall (fun t => exists n, Strconv.Atoi t = inr n) l ->
  exists numbers,
    parseAll l = inr numbers
    /\ Forall2 (fun t n => Strconv.Atoi t = inr n) l numbers.
Proof.
  induction l as [|t l IH]; intros Hall.
  - exists []. by split; [|constructor].
  - apply Forall_cons_1 in Hall as [[n Hn] Hall].
    destruct (IH Hall) as (numbers & E & F).
    exists (n :: numbers). simpl. rewrite Hn, E. split; [done|]. by constructor.
Qed.

(** The first element of the sorted numbers is their minimum. *)
Lemma sortInts_head (numbers : list Z) :
  numbers <> [] ->
  exists n0 rest,
    sortInts numbers = n0 :: rest
    /\ n0 ∈ numbers
    /\ forall n, n ∈ numbers -> n0 <= n.
Proof.
  intros Hne. unfold sortInts.
  pose proof (merge_sort_Permutation Z.le numbers) as Hperm.
  pose proof (StronglySorted_merge_sort Z.le numbers) as Hsorted.
  destruct (merge_sort Z.le numbers) as [|n0 rest].
  - apply Permutation_nil_l in Hperm. congruence.
  - exists n0, rest. split; [done|]. split.
    + rewrite <- Hperm. left.
    + intros n Hn. rewrite <- Hperm in Hn.
      apply StronglySorted_inv in Hsorted as [_ Hall].
      apply elem_of_cons in Hn as [->|Hn]; [reflexivity|].
      rewrite Forall_forall in Hall. by apply Hall.
Qed.

Lemma isAborted_never (s : St) :
  abortAfter env = None ->
  isAborted env s = (Done false, withWorld s (trace s) (S (polls s)) (stderr s)).
Proof. intros H. unfold isAborted. by rewrite H. Qed.

Lemma filter_agree {A} (P Q : A -> Prop) `{!forall x, Decision (P x)}
    `{!forall x, Decision (Q x)} (l : list A) :
  (forall x, x ∈ l -> P x <-> Q x) -> filter P l = filter Q l.
Proof.
  induction l as [|x l IH]; intros Hpq; [done|].
  rewrite !filter_cons.
  assert (Hx : P x <-> Q x) by (apply Hpq; left).
  rewrite IH by (intros y Hy; apply Hpq; by right).
  destruct (decide (P x)), (decide (Q x)); tauto.
Qed.

(** With a fleet that destroys at the first attempt and no abort, the second
    loop destroys the zombie entries in order and nothing else. *)
Lemma destroyZombies_fine (zombies : gset string) (blue : machineUpdateEntries) (s : St) :
  abortAfter env = None ->
  (forall tr id, Reply env tr (CDestroy id true) = None) ->
  exists s',
    destroyZombies env zombies blue s = (Done None, s')
    /\ bg s' = bg s
    /\ trace s' = trace s ++ (destroyCall <$> filter (fun e => tagOf key e ∈ zombies) blue).
Proof.
  intros Habort Hreply. revert s. induction blue as [|e blue IH]; intros s.
  - exists s. simpl. by rewrite app_nil_r.
  - simpl. unfold bind at 1. rewrite isAborted_never by done.
    rewrite filter_cons. fold key.
    destruct (decide (tagOf key e ∈ zombies)) as [Hin|Hout].
    + rewrite bool_decide_eq_true_2 by done.
      unfold bind at 1. unfold retryDo, bind at 1, fleet. simpl.
      rewrite Hreply. unfold ret at 1. unfold bind at 1, eprint at 1. simpl.
      match goal with |- context [destroyZombies env zombies blue ?s1] =>
        destruct (IH s1) as (s' & E & Hbg & Htr) end.
      exists s'. split; [exact E|]. split; [by rewrite Hbg|].
      rewrite Htr. simpl. by rewrite <- app_assoc.
    + rewrite bool_decide_eq_false_2 by done.
      match goal with |- context [destroyZombies env zombies blue ?s1] =>
        destruct (IH s1) as (s' & E & Hbg & Htr) end.
      exists s'. split; [exact E|]. split; [by rewrite Hbg|]. by rewrite Htr.
Qed.

End Sweep.

Lemma Forall2_elem_of_l {A B} (R : A -> B -> Prop) (l : list A) (k : list B) (x : A) :
  Forall2 R l k -> x ∈ l -> exists y, y ∈ k /\ R x y.
Proof.
  induction 1 as [|a b l k Hab _ IH]; intros Hx.
  - by apply elem_of_nil in Hx.
  - apply elem_of_cons in Hx as [->|Hx].
    + exists b. split; [left | done].
    + destruct (IH Hx) as (y & Hy & Hxy). exists y. split; [by right | done].
Qed.

Lemma Forall2_elem_of_r {A B} (R : A -> B -> Prop) (l : list A) (k : list B) (y : B) :
  Forall2 R l k -> y ∈ k -> exists x, x ∈ l /\ R x y.
Proof.
  induction 1 as [|a b l k Hab _ IH]; intros Hy.
  - by apply elem_of_nil in Hy.
  - apply elem_of_cons in Hy as [->|Hy].
    + exists a. split; [left | done].
    + destruct (IH Hy) as (x & Hx & Hxy). exists x. split; [by right | done].
Qed.

(** C1, amended. When the blue entries carry at least two distinct tags,
    all of them integers, the deployment is not aborted and the fleet
    destroys at the first attempt, the sweep returns nil, keeps exactly the
    entries whose tag is the decimal text of the smallest integer [n0] among
    the tags, and destroys exactly the others, in the order of the list. *)
Theorem sweep_keeps_smallest_tag (env : Env) (s : St) :
  let key := MachineConfigMetadataKeyFlyctlBGTag env in
  let blue := normalizeTag key <$> blueMachines (bg s) in
  Forall hasMetadata (blueMachines (bg s)) ->
  Forall (integerTag key) blue ->
  (exists e1 e2, e1 ∈ blue /\ e2 ∈ blue /\ tagOf key e1 <> tagOf key e2) ->
  abortAfter env = None ->
  (forall tr id, Reply env tr (CDestroy id true) = None) ->
  exists n0 s',
    DeleteZombiesFromPreviousDeployment env s = (Done None, s')
    /\ (exists e, e ∈ blue /\ Strconv.Atoi (tagOf key e) = inr n0)
    /\ (forall e n, e ∈ blue -> Strconv.Atoi (tagOf key e) = inr n -> n0 <= n)
    /\ blueMachines (bg s') = filter (fun e => tagOf key e = Strconv.Sprint n0) blue
    /\ trace s'
       = (trace s
            ++ (destroyCall <$> filter (fun e => tagOf key e <> Strconv.Sprint n0) blue))%list.
Proof.
  intros key blue Hmd Hint (e1 & e2 & He1 & He2 & Hne) Habort Hreply.
  set (tags := (list_to_set (tagOf key <$> blue) ∪ ∅ : gset string)).
  assert (Htags : forall t, t ∈ tags <-> exists e, e ∈ blue /\ tagOf key e = t).
  { intros t. unfold tags. rewrite elem_of_union, elem_of_list_to_set, list_elem_of_fmap.
    split.
    - intros [(e & -> & He)|Hemp]; [by exists e | by apply elem_of_empty in Hemp].
    - intros (e & He & <-). left. by exists e. }
  assert (Hsize : Nat.eqb (size tags) 1 = false).
  { apply Nat.eqb_neq. intros H1. apply Hne.
    apply (size_singleton_inv tags); [done| |]; apply Htags; eauto. }
  assert (Hparse : Forall (fun t => exists n, Strconv.Atoi t = inr n) (elements tags)).
  { apply Forall_forall. intros t Ht. apply elem_of_elements, Htags in Ht.
    destruct Ht as (e & He & <-). rewrite Forall_forall in Hint. by apply Hint. }
  destruct (parseAll_integers _ Hparse) as (numbers & Eparse & Hnum).
  assert (Hnonempty : numbers <> []).
  { intros ->. apply Forall2_nil_inv_r in Hnum.
    assert (Hin : tagOf key e1 ∈ elements tags) by (apply elem_of_elements, Htags; eauto).
    rewrite Hnum in Hin. by apply elem_of_nil in Hin. }
  destruct (sortInts_head numbers Hnonempty) as (n0 & rest & Esort & Hn0 & Hmin).
  set (zombies := tags ∖ {[ Strconv.Sprint n0 ]}).
  assert (Hz : forall e, e ∈ blue ->
                 tagOf key e ∈ zombies <-> tagOf key e <> Strconv.Sprint n0).
  { intros e He. unfold zombies. rewrite elem_of_difference, elem_of_singleton.
    split; [tauto|]. intros Hn. split; [|done]. apply Htags. eauto. }
  destruct (destroyZombies_fine env zombies blue
              (withBG s (setBlue (bg s) blue)) Habort Hreply) as (s2 & E2 & Hbg2 & Htr2).
  exists n0.
  exists (withBG s2 (setBlue (bg s2) (nonZombies key zombies blue))).
  split; [|split; [|split; [|split]]].
  - unfold DeleteZombiesFromPreviousDeployment. fold key.
    unfold bind at 1, getBG at 1.
    rewrite (collectTags_normalize env) by done. fold key blue tags.
    unfold bind at 1, setBG at 1. rewrite Hsize.
    unfold getZombies. rewrite Eparse, Esort. fold zombies.
    unfold bind at 1. unfold withBG in E2. rewrite E2. reflexivity.
  - destruct (Forall2_elem_of_r _ _ _ n0 Hnum Hn0) as (t & Ht & Hatoi).
    apply elem_of_elements, Htags in Ht. destruct Ht as (e & He & <-). eauto.
  - intros e n He Hatoi.
    assert (Hin : tagOf key e ∈ elements tags) by (apply elem_of_elements, Htags; eauto).
    destruct (Forall2_elem_of_l _ _ _ _ Hnum Hin) as (n' & Hn' & Hatoi').
    rewrite Hatoi in Hatoi'. simplify_eq. by apply Hmin.
  - simpl. unfold nonZombies. apply filter_agree. intros e He.
    rewrite (Hz e He). destruct (decide (tagOf key e = Strconv.Sprint n0)); tauto.
  - simpl. rewrite Htr2. simpl. f_equal. f_equal. by apply filter_agree.
Qed.

(** C1, as stated, fails. In scenario 2 the sweep keeps m1, of the oldest
    generation, and destroys m2 and m3, of the newest: the blue list does
    not become m2, m3. *)
Lemma sweep_destroys_newest_generation :
  (DeleteZombiesFromPreviousDeployment Sample.quiet
     (Sample.state [Sample_m1; Sample_m2; Sample_m3])).1 = Done None
  /\ blueMachines (bg (DeleteZombiesFromPreviousDeployment Sample.quiet
                         (Sample.state [Sample_m1; Sample_m2; Sample_m3])).2)
     = [Sample_m1]
  /\ trace (DeleteZombiesFromPreviousDeployment Sample.quiet
              (Sample.state [Sample_m1; Sample_m2; Sample_m3])).2
     = [CDestroy "m2" true; CDestroy "m3" true]
  /\ blueMachines (bg (DeleteZombiesFromPreviousDeployment Sample.quiet
                         (Sample.state [Sample_m1; Sample_m2; Sample_m3])).2)
     <> [Sample_m2; Sample_m3].
Proof.
  split; [|split; [|split]]; try (vm_compute; reflexivity).
  vm_compute. discriminate.
Qed.

(** Scenario 2: generations 100 and 200, a fleet that never fails. *)
Lemma sweep_keeps_smallest_tag_witness :
  (Forall hasMetadata (blueMachines (bg (Sample.state [Sample_m1; Sample_m2; Sample_m3])))
   /\ Forall (integerTag Sample.tagKey)
        (normalizeTag Sample.tagKey <$> [Sample_m1; Sample_m2; Sample_m3])
   /\ abortAfter Sample.quiet = None)
  /\ exists n0 s',
       DeleteZombiesFromPreviousDeployment Sample.quiet
         (Sample.state [Sample_m1; Sample_m2; Sample_m3]) = (Done None, s')
       /\ (exists e, e ∈ normalizeTag Sample.tagKey <$> [Sample_m1; Sample_m2; Sample_m3]
                     /\ Strconv.Atoi (tagOf Sample.tagKey e) = inr n0)
       /\ (forall e n, e ∈ normalizeTag Sample.tagKey <$> [Sample_m1; Sample_m2; Sample_m3] ->
                       Strconv.Atoi (tagOf Sample.tagKey e) = inr n -> n0 <= n)
       /\ blueMachines (bg s')
          = filter (fun e => tagOf Sample.tagKey e = Strconv.Sprint n0)
                   (normalizeTag Sample.tagKey <$> [Sample_m1; Sample_m2; Sample_m3])
       /\ trace s'
          = (trace (Sample.state [Sample_m1; Sample_m2; Sample_m3])
               ++ (destroyCall
                     <$> filter (fun e => tagOf Sample.tagKey e <> Strconv.Sprint n0)
                           (normalizeTag Sample.tagKey
                              <$> [Sample_m1; Sample_m2; Sample_m3])))%list.
Proof.
  assert (H1 : Forall hasMetadata
                 (blueMachines (bg (Sample.state [Sample_m1; Sample_m2; Sample_m3])))).
  { repeat constructor; by eexists. }
  assert (H2 : Forall (integerTag Sample.tagKey)
                 (normalizeTag Sample.tagKey <$> [Sample_m1; Sample_m2; Sample_m3])).
  { repeat constructor; eexists; vm_compute; reflexivity. }
  assert (H3 : abortAfter Sample.quiet = None) by reflexivity.
  split; [by repeat split|].
  apply (sweep_keeps_smallest_tag Sample.quiet
           (Sample.state [Sample_m1; Sample_m2; Sample_m3]) H1 H2); [|exact H3|reflexivity].
  exists Sample_m1, Sample_m2. split; [|split].
  - apply list_elem_of_fmap. exists Sample_m1. split; [reflexivity | left].
  - apply list_elem_of_fmap. exists Sample_m2. split; [reflexivity | right; left].
  - vm_compute. discriminate.
Defined.

(** C3. With an empty blue list the set of tags is empty, its size is not
    1, and [getZombies] indexes the empty list of numbers: the sweep panics,
    and so does a deployment over no blue machine, before any fleet call.
    With exactly one tag the sweep returns nil and calls nothing. *)
Theorem sweep_empty_blue_panics (env : Env) (s : St) :
  DeleteZombiesFromPreviousDeployment env (withBG s (setBlue (bg s) []))
  = (Panic "index out of range [0] with length 0", withBG s (setBlue (bg s) []))
  /\ (Deploy Sample.quiet (Sample.state [])).1
     = Panic "index out of range [0] with length 0"
  /\ trace (Deploy Sample.quiet (Sample.state [])).2 = []
  /\ (DeleteZombiesFromPreviousDeployment Sample.quiet (Sample.state [Sample_m1])).1
     = Done None
  /\ trace (DeleteZombiesFromPreviousDeployment Sample.quiet (Sample.state [Sample_m1])).2
     = [].
Proof.
  split; [|split; [|split; [|split]]]; vm_compute; reflexivity.
Qed.

(** ** The destroy phase *)

(** Without an abort [DestroyBlueMachines] asks the fleet to destroy every
    blue machine, notes the ids of the failures, and returns nil whatever
    the fleet answered. *)
Lemma destroyLoop_returns_nil (env : Env) (l : machineUpdateEntries) (s : St) :
  abortAfter env = None ->
  exists s',
    destroyLoop env l s = (Done None, s')
    /\ trace s' = (trace s ++ (destroyCall <$> l))%list
    /\ blueMachines (bg s') = blueMachines (bg s)
    /\ greenMachines (bg s') = greenMachines (bg s)
    /\ hangingBlueMachines (bg s')
       = (hangingBlueMachines (bg s) ++ hangingAfter env (trace s) l)%list.
Proof.
  intros Habort. revert s. induction l as [|e l IH]; intros s.
  - exists s. simpl. by rewrite !app_nil_r.
  - cbn [destroyLoop hangingAfter fmap list_fmap]. unfold bind at 1.
    rewrite isAborted_never by done.
    unfold bind at 1, fleet at 1. cbn [trace bg polls stderr withWorld].
    fold (destroyCall e).
    destruct (Reply env (trace s) (destroyCall e)).
    + unfold bind at 1, getBG at 1. unfold bind at 1, setBG at 1.
      cbn [trace bg polls stderr].
      match goal with |- context [destroyLoop env l ?s1] =>
        destruct (IH s1) as (s' & E & Htr & Hb & Hg & Hh) end.
      exists s'. split; [exact E|]. cbn [trace bg] in Htr, Hb, Hg, Hh.
      rewrite Htr, Hb, Hg, Hh. simpl. by rewrite <- !app_assoc.
    + unfold bind at 1, eprint at 1. cbn [trace bg polls stderr].
      match goal with |- context [destroyLoop env l ?s1] =>
        destruct (IH s1) as (s' & E & Htr & Hb & Hg & Hh) end.
      exists s'. split; [exact E|]. cbn [trace bg] in Htr, Hb, Hg, Hh.
      rewrite Htr, Hb, Hg, Hh. simpl. by rewrite <- !app_assoc.
Qed.

(** C2. Without an abort, [DestroyBlueMachines] asks the fleet to destroy
    every blue machine, appends to the hanging list the id of each machine
    whose destroy fails, and returns nil even then: [Deploy] gets no error
    to wrap in [ErrDestroyBlueMachines], writes that the deployment is
    complete and returns nil. *)
Theorem DestroyBlueMachines_failure_returns_nil (env : Env) (s : St) :
  abortAfter env = None ->
  exists s',
    DestroyBlueMachines env s = (Done None, s')
    /\ trace s' = (trace s ++ (destroyCall <$> blueMachines (bg s)))%list
    /\ hangingBlueMachines (bg s')
       = (hangingBlueMachines (bg s)
            ++ hangingAfter env (trace s) (blueMachines (bg s)))%list
    /\ phase env ErrDestroyBlueMachines (DestroyBlueMachines env)
         (do eprint (newline ++ "Deployment Complete" ++ newline) in ret None) s
       = (Done None, printed (newline ++ "Deployment Complete" ++ newline) s').
Proof.
  intros Habort.
  destruct (destroyLoop_returns_nil env (blueMachines (bg s)) s Habort)
    as (s' & E & Htr & _ & _ & Hh).
  assert (E' : DestroyBlueMachines env s = (Done None, s')).
  { unfold DestroyBlueMachines, bind at 1, getBG at 1. exact E. }
  exists s'. split; [exact E'|]. split; [exact Htr|]. split; [exact Hh|].
  unfold phase. rewrite (bind_done _ _ _ _ _ E').
  by rewrite (bind_done _ _ _ _ _ (eprint_run _ _)).
Qed.

(** The fleet cannot destroy m1: "m1" hangs and nil is returned. *)
Lemma DestroyBlueMachines_failure_returns_nil_witness :
  abortAfter Sample_m1Hangs = None
  /\ hangingAfter Sample_m1Hangs (trace (Sample.state [Sample_a; Sample_b]))
       (blueMachines (bg (Sample.state [Sample_a; Sample_b]))) = ["m1"]
  /\ exists s',
       DestroyBlueMachines Sample_m1Hangs (Sample.state [Sample_a; Sample_b])
       = (Done None, s')
       /\ trace s'
          = (trace (Sample.state [Sample_a; Sample_b])
               ++ (destroyCall <$> blueMachines (bg (Sample.state [Sample_a; Sample_b]))))%list
       /\ hangingBlueMachines (bg s')
          = (hangingBlueMachines (bg (Sample.state [Sample_a; Sample_b]))
               ++ hangingAfter Sample_m1Hangs (trace (Sample.state [Sample_a; Sample_b]))
                    (blueMachines (bg (Sample.state [Sample_a; Sample_b]))))%list
       /\ phase Sample_m1Hangs ErrDestroyBlueMachines (DestroyBlueMachines Sample_m1Hangs)
            (do eprint (newline ++ "Deployment Complete" ++ newline) in ret None)
            (Sample.state [Sample_a; Sample_b])
          = (Done None, printed (newline ++ "Deployment Complete" ++ newline) s').
Proof.
  split; [reflexivity|]. split; [reflexivity|].
  exact (DestroyBlueMachines_failure_returns_nil Sample_m1Hangs
           (Sample.state [Sample_a; Sample_b]) eq_refl).
Defined.

(** The whole deployment over m1 and m2 when the fleet cannot destroy m1:
    "m1" is left hanging and [Deploy] returns nil. *)
Example deploy_returns_nil_with_hanging_machine :
  (Deploy Sample_m1Hangs (Sample.state [Sample_a; Sample_b])).1 = Done None
  /\ hangingBlueMachines
       (bg (Deploy Sample_m1Hangs (Sample.state [Sample_a; Sample_b])).2)
     = ["m1"]
  /\ drop 14 (trace (Deploy Sample_m1Hangs (Sample.state [Sample_a; Sample_b])).2)
     = [CDestroy "m1" true; CDestroy "m2" true].
Proof. split; [|split]; vm_compute; reflexivity. Qed.

(** ** Rollback *)

Lemma destroyedInTurn_cons (env : Env) (tr : list FleetCall) (g : Machine.t)
    (l : list Machine.t) :
  destroyedInTurn env tr (g :: l) ->
  Reply env tr (destroyMachine g) = None
  /\ destroyedInTurn env (tr ++ [destroyMachine g])%list l.
Proof.
  intros H. split.
  - specialize (H [] g l eq_refl). simpl in H. by rewrite app_nil_r in H.
  - intros l1 x l2 ->. specialize (H (g :: l1) x l2 eq_refl).
    simpl in H. by rewrite <- app_assoc.
Qed.

(** The loop of [Rollback] passes the machines that the fleet destroys. *)
Lemma rollbackLoop_prefix (env : Env) (l1 rest : list Machine.t) (s : St) :
  destroyedInTurn env (trace s) l1 ->
  rollbackLoop env (l1 ++ rest)%list s
  = rollbackLoop env rest
      (withWorld s (trace s ++ (destroyMachine <$> l1))%list (polls s) (stderr s)).
Proof.
  revert s. induction l1 as [|g l1 IH]; intros s H.
  - simpl. rewrite app_nil_r. by destruct s.
  - apply destroyedInTurn_cons in H as [Hg Hrest].
    cbn [app rollbackLoop]. unfold bind at 1, fleet at 1.
    fold (destroyMachine g). rewrite Hg.
    match goal with |- rollbackLoop env _ ?s1 = _ => rewrite (IH s1) by exact Hrest end.
    unfold withWorld. simpl. by rewrite <- app_assoc.
Qed.

(** C8, as stated, fails: with an error that is not of the destroy phase,
    [Rollback] stops at the first green machine that the fleet cannot
    destroy and returns that error; g-m2 is never asked to be destroyed. *)
Lemma Rollback_stops_at_first_failure :
  Str.contains (Error (Quote Sample_greenHangs) ErrAborted)
               (Error (Quote Sample_greenHangs) ErrDestroyBlueMachines) = false
  /\ machines (greenMachines (bg Sample_created))
     = [Sample.launched (launchInput Sample_a); Sample.launched (launchInput Sample_b)]
  /\ (Rollback Sample_greenHangs ErrAborted Sample_created).1
     = Done (Some (ENew "machine still active"))
  /\ trace (Rollback Sample_greenHangs ErrAborted Sample_created).2
     = [CDestroy "g-m1" true]
  /\ CDestroy "g-m2" true ∉ trace (Rollback Sample_greenHangs ErrAborted Sample_created).2.
Proof.
  split; [|split; [|split; [|split]]]; try (vm_compute; reflexivity).
  assert (E : trace (Rollback Sample_greenHangs ErrAborted Sample_created).2
              = [CDestroy "g-m1" true]) by (vm_compute; reflexivity).
  rewrite E. intros Hin. apply list_elem_of_singleton in Hin. discriminate Hin.
Qed.

(** C8, amended. For every error: if its text contains the text of
    [ErrDestroyBlueMachines], [Rollback] prints the hanging ids and the
    guidance, calls nothing and returns nil; otherwise it force-destroys the
    green machines in the order of the list, returns nil when the fleet
    destroys them all, and stops with the error of the first destroy that
    fails. *)
Theorem Rollback_by_sentinel (env : Env) (err : error) (s : St) :
  (Str.contains (Error (Quote env) err) (Error (Quote env) ErrDestroyBlueMachines) = true ->
   Rollback env err s
   = (Done None,
      withWorld s (trace s) (polls s)
        (stderr s ++ hangingGuidance (hangingBlueMachines (bg s)))%list))
  /\ (Str.contains (Error (Quote env) err) (Error (Quote env) ErrDestroyBlueMachines) = false ->
      destroyedInTurn env (trace s) (machines (greenMachines (bg s))) ->
      Rollback env err s
      = (Done None,
         withWorld s
           (trace s ++ (destroyMachine <$> machines (greenMachines (bg s))))%list
           (polls s) (stderr s)))
  /\ (Str.contains (Error (Quote env) err) (Error (Quote env) ErrDestroyBlueMachines) = false ->
      forall l1 g l2 e,
        machines (greenMachines (bg s)) = (l1 ++ g :: l2)%list ->
        destroyedInTurn env (trace s) l1 ->
        Reply env (trace s ++ (destroyMachine <$> l1))%list (destroyMachine g) = Some e ->
        Rollback env err s
        = (Done (Some e),
           withWorld s (trace s ++ (destroyMachine <$> (l1 ++ [g])))%list
             (polls s) (stderr s))).
Proof.
  split; [|split].
  - intros Hc. unfold Rollback. rewrite Hc.
    unfold bind, getBG, eprint, ret, withWorld, hangingGuidance. simpl.
    by rewrite <- app_assoc.
  - intros Hc Hall. unfold Rollback. rewrite Hc.
    unfold bind at 1, getBG at 1.
    rewrite <- (app_nil_r (machines (greenMachines (bg s)))) at 1.
    by rewrite rollbackLoop_prefix.
  - intros Hc l1 g l2 e Hsplit Hall Hfail. unfold Rollback. rewrite Hc.
    unfold bind at 1, getBG at 1. rewrite Hsplit, rollbackLoop_prefix by done.
    cbn [rollbackLoop]. unfold bind at 1, fleet at 1. cbn [trace withWorld].
    fold (destroyMachine g). rewrite Hfail.
    unfold ret, withWorld. simpl. by rewrite fmap_app, app_assoc.
Qed.

(** The error of an abort during the destroy phase, which carries the
    sentinel text, and the error of a timeout, which does not, after the
    green machines g-m1 and g-m2 were created. *)
Lemma Rollback_by_sentinel_witness :
  (Str.contains
     (Error (Quote Sample.quiet) (EWrap ErrAborted "failed to destroy previous deployment"))
     (Error (Quote Sample.quiet) ErrDestroyBlueMachines) = true
   /\ Rollback Sample.quiet (EWrap ErrAborted "failed to destroy previous deployment")
        Sample_created
      = (Done None,
         withWorld Sample_created (trace Sample_created) (polls Sample_created)
           (stderr Sample_created
              ++ hangingGuidance (hangingBlueMachines (bg Sample_created)))%list))
  /\ (Str.contains (Error (Quote Sample.quiet) ErrWaitTimeout)
                   (Error (Quote Sample.quiet) ErrDestroyBlueMachines) = false
      /\ destroyedInTurn Sample.quiet (trace Sample_created)
           (machines (greenMachines (bg Sample_created)))
      /\ Rollback Sample.quiet ErrWaitTimeout Sample_created
         = (Done None,
            withWorld Sample_created
              (trace Sample_created
                 ++ (destroyMachine <$> machines (greenMachines (bg Sample_created))))%list
              (polls Sample_created) (stderr Sample_created))).
Proof.
  split.
  - assert (H : Str.contains
                  (Error (Quote Sample.quiet)
                     (EWrap ErrAborted "failed to destroy previous deployment"))
                  (Error (Quote Sample.quiet) ErrDestroyBlueMachines) = true)
      by (vm_compute; reflexivity).
    split; [exact H|].
    exact (proj1 (Rollback_by_sentinel Sample.quiet _ Sample_created) H).
  - assert (H : Str.contains (Error (Quote Sample.quiet) ErrWaitTimeout)
                  (Error (Quote Sample.quiet) ErrDestroyBlueMachines) = false)
      by (vm_compute; reflexivity).
    assert (D : destroyedInTurn Sample.quiet (trace Sample_created)
                  (machines (greenMachines (bg Sample_created))))
      by (intros l1 g l2 _; reflexivity).
    split; [exact H|]. split; [exact D|].
    exact (proj1 (proj2 (Rollback_by_sentinel Sample.quiet _ Sample_created)) H D).
Defined.

(** ** Entries with [SkipLaunch] *)

Section SkipLaunch.

Local Open Scope list_scope.

Variable env : Env.

Lemma startSpawn_started_kept (greens : machineUpdateEntries) (c : startCfg) (k : string) :
  startTable c !! k = Some "started" ->
  startTable (startSpawn greens c) !! k = Some "started".
Proof.
  revert c. induction greens as [|gm greens IH]; intros c Hk; [done|].
  simpl. destruct (LaunchInput.SkipLaunch (launchInput gm)).
  - apply IH. simpl.
    destruct (decide (Machine.FormattedMachineId (leasableMachine gm) = k)) as [->|Hne].
    + apply lookup_insert_eq.
    + by rewrite lookup_insert_ne.
  - by apply IH.
Qed.

Lemma startSpawn_marks_skipped (greens : machineUpdateEntries) (c : startCfg)
    (gm : machineUpdateEntry) :
  gm ∈ greens ->
  LaunchInput.SkipLaunch (launchInput gm) = true ->
  startTable (startSpawn greens c) !! Machine.FormattedMachineId (leasableMachine gm)
  = Some "started".
Proof.
  revert c. induction greens as [|x greens IH]; intros c Hin Hskip.
  - by apply elem_of_nil in Hin.
  - apply elem_of_cons in Hin as [<-|Hin].
    + simpl. rewrite Hskip. apply startSpawn_started_kept. simpl. apply lookup_insert_eq.
    + simpl. destruct (LaunchInput.SkipLaunch (launchInput x)); by apply IH.
Qed.

Lemma startSpawn_tasks (greens : machineUpdateEntries) (c : startCfg) :
  startTasks (startSpawn greens c)
  = startTasks c
      ++ (newTask <$> filter (fun gm => LaunchInput.SkipLaunch (launchInput gm) = false) greens).
Proof.
  revert c. induction greens as [|gm greens IH]; intros c.
  - simpl. by rewrite app_nil_r.
  - simpl. rewrite filter_cons.
    destruct (LaunchInput.SkipLaunch (launchInput gm)) eqn:E; rewrite IH; simpl.
    + by destruct (decide (true = false)).
    + destruct (decide (false = false)); [|done]. by rewrite <- app_assoc.
Qed.

Lemma createLoop_launches_all (done todo greens : machineUpdateEntries) (s s' : St) :
  createLoop env done todo greens s = (Done None, s') ->
  trace s'
  = trace s
      ++ (CLaunch
            <$> (stampInput (MachineConfigMetadataKeyFlyctlBGTag env) (timestamp (bg s))
                   <$> (launchInput <$> todo)))
  /\ length (greenMachines (bg s')) = (length greens + length todo)%nat.
Proof.
  revert done greens s. induction todo as [|mach todo IH]; intros done greens s H.
  - simpl in H. unfold bind, getBG, setBG, ret in H. simpl in H.
    inversion H; subst; clear H. simpl. rewrite app_nil_r. split; [done | lia].
  - cbn [createLoop] in H. unfold bind at 1, getBG at 1 in H.
    destruct (Config.Metadata (LaunchInput.Config (launchInput mach))) as [md|] eqn:Emd.
    + unfold mdSet in H.
      cbn [withSkipServiceRegistration LaunchInput.Config Config.Metadata] in H.
      rewrite Emd in H.
      unfold bind at 1, setBG at 1 in H. unfold bind at 1, fleetLaunch at 1 in H.
      cbn [trace bg polls stderr] in H.
      match type of H with context [Launch env ?tr ?li] =>
        destruct (Launch env tr li) as [err|raw] eqn:EL end.
      * discriminate H.
      * unfold bind at 1, eprint at 1 in H. cbn [trace bg polls stderr] in H.
        apply IH in H as [Htr Hlen]. cbn [trace bg] in Htr, Hlen.
        split.
        -- rewrite Htr. cbn [fmap list_fmap]. rewrite <- app_assoc. simpl.
           unfold stampInput. by rewrite Emd.
        -- rewrite Hlen, length_app. simpl. lia.
    + unfold mdSet in H.
      cbn [withSkipServiceRegistration LaunchInput.Config Config.Metadata] in H.
      rewrite Emd in H.
      unfold bind, setBG, panic in H. discriminate H.
Qed.

Lemma cordonLoop_all (l : machineUpdateEntries) (s : St) :
  abortAfter env = None ->
  exists s',
    cordonLoop env l s = (Done None, s')
    /\ trace s' = trace s ++ (cordonCall <$> l)
    /\ bg s' = bg s.
Proof.
  intros Habort. revert s. induction l as [|e l IH]; intros s.
  - exists s. simpl. by rewrite app_nil_r.
  - cbn [cordonLoop fmap list_fmap]. unfold bind at 1. rewrite isAborted_never by done.
    unfold bind at 1, fleet at 1. cbn [trace bg polls stderr withWorld].
    fold (cordonCall e).
    destruct (Reply env (trace s) (cordonCall e)); unfold bind at 1, eprint at 1;
      cbn [trace bg polls stderr];
      match goal with |- context [cordonLoop env l ?s1] =>
        destruct (IH s1) as (s' & E & Htr & Hbg) end;
      exists s'; (split; [exact E|]); cbn [trace bg] in Htr, Hbg;
      rewrite Htr, Hbg; simpl; by rewrite <- app_assoc.
Qed.

Lemma stopLoop_all (signal : string) (l : machineUpdateEntries) (s : St) :
  abortAfter env = None ->
  exists s',
    stopLoop env signal l s = (Done None, s')
    /\ trace s' = trace s ++ (stopCall signal <$> l)
    /\ bg s' = bg s.
Proof.
  intros Habort. revert s. induction l as [|e l IH]; intros s.
  - exists s. simpl. by rewrite app_nil_r.
  - cbn [stopLoop fmap list_fmap]. unfold bind at 1. rewrite isAborted_never by done.
    unfold bind at 1, fleet at 1. cbn [trace bg polls stderr withWorld].
    fold (stopCall signal e).
    destruct (Reply env (trace s) (stopCall signal e)).
    + unfold bind at 1, eprint at 1. cbn [trace bg polls stderr].
      match goal with |- context [stopLoop env signal l ?s1] =>
        destruct (IH s1) as (s' & E & Htr & Hbg) end.
      exists s'. split; [exact E|]. cbn [trace bg] in Htr, Hbg.
      rewrite Htr, Hbg. simpl. by rewrite <- app_assoc.
    + match goal with |- context [stopLoop env signal l ?s1] =>
        destruct (IH s1) as (s' & E & Htr & Hbg) end.
      exists s'. split; [exact E|]. cbn [trace bg] in Htr, Hbg.
      rewrite Htr, Hbg. simpl. by rewrite <- app_assoc.
Qed.

End SkipLaunch.

(** C4, as stated, fails: for the blue entry [Sample_skipped], whose launch
    input has [SkipLaunch] set, [Deploy] launches a green machine and then
    cordons, stops and destroys the blue machine m1. *)
Lemma skip_launch_entry_is_replaced :
  LaunchInput.SkipLaunch (launchInput Sample_skipped) = true
  /\ (Deploy Sample_skippedRun (Sample.state [Sample_skipped])).1 = Done None
  /\ exists li,
       LaunchInput.ID li = "m1"
       /\ LaunchInput.SkipLaunch li = true
       /\ trace (Deploy Sample_skippedRun (Sample.state [Sample_skipped])).2
          = [CLaunch li; CUncordon "g-m1"; CCordon "m1"; CStop "m1" "SIGINT";
             CWait "m1" "stop"; CDestroy "m1" true].
Proof.
  split; [reflexivity|]. split; [vm_compute; reflexivity|].
  eexists. split; [|split]; [| |vm_compute; reflexivity]; reflexivity.
Qed.

(** C4, amended. For a blue entry whose launch input has [SkipLaunch] set:
    the start-wait phase marks its green machine "started" and starts no
    waiter for it, and the health-wait phase gives it no health entry and no
    poller. [CreateGreenMachines], when it returns nil, has launched one
    green machine per blue entry, the flag passed on in the launch input;
    and without an abort the teardown phases cordon, stop and destroy every
    blue machine, whatever the flag. *)
Theorem skip_launch_effects (env : Env) :
  (forall greens gm,
     gm ∈ greens ->
     LaunchInput.SkipLaunch (launchInput gm) = true ->
     startTable (startInit greens) !! Machine.FormattedMachineId (leasableMachine gm)
     = Some "started")
  /\ (forall greens,
        startTasks (startInit greens)
        = newTask <$> filter (fun gm => LaunchInput.SkipLaunch (launchInput gm) = false) greens)
  /\ (forall l1 gm l2,
        LaunchInput.SkipLaunch (launchInput gm) = true ->
        healthInit (l1 ++ gm :: l2) = healthInit (l1 ++ l2))
  /\ (forall s s',
        CreateGreenMachines env s = (Done None, s') ->
        trace s'
        = (trace s
             ++ (CLaunch
                   <$> (stampInput (MachineConfigMetadataKeyFlyctlBGTag env)
                          (timestamp (bg s))
                          <$> (launchInput <$> blueMachines (bg s)))))%list
        /\ length (greenMachines (bg s')) = length (blueMachines (bg s)))
  /\ (forall key ts li,
        LaunchInput.SkipLaunch (stampInput key ts li) = LaunchInput.SkipLaunch li)
  /\ (abortAfter env = None ->
      forall s,
        (exists s', CordonBlueMachines env s = (Done None, s')
                    /\ trace s' = (trace s ++ (cordonCall <$> blueMachines (bg s)))%list)
        /\ (exists s', StopBlueMachines env s = (Done None, s')
                       /\ trace s'
                          = (trace s
                               ++ (stopCall (stopSignal (bg s)) <$> blueMachines (bg s)))%list)
        /\ (exists s', DestroyBlueMachines env s = (Done None, s')
                       /\ trace s' = (trace s ++ (destroyCall <$> blueMachines (bg s)))%list)).
Proof.
  split; [|split; [|split; [|split; [|split]]]].
  - intros greens gm Hin Hskip. unfold startInit. by apply startSpawn_marks_skipped.
  - intros greens. unfold startInit. by rewrite startSpawn_tasks.
  - intros l1 gm l2 Hskip. apply healthInit_unchecked.
    unfold healthChecked. by rewrite Hskip.
  - intros s s' H. unfold CreateGreenMachines, bind at 1, getBG at 1 in H.
    apply createLoop_launches_all in H as [Htr Hlen]. split; [exact Htr|].
    rewrite Hlen. reflexivity.
  - reflexivity.
  - intros Habort s. split; [|split].
    + unfold CordonBlueMachines, bind at 1, getBG at 1.
      destruct (cordonLoop_all env (blueMachines (bg s)) s Habort) as (s' & E & Htr & _).
      by exists s'.
    + unfold StopBlueMachines, bind at 1, getBG at 1.
      destruct (stopLoop_all env (stopSignal (bg s)) (blueMachines (bg s)) s Habort)
        as (s' & E & Htr & _).
      by exists s'.
    + unfold DestroyBlueMachines, bind at 1, getBG at 1.
      destruct (destroyLoop_returns_nil env (blueMachines (bg s)) s Habort)
        as (s' & E & Htr & _).
      by exists s'.
Qed.

(** The green list m1, m1 with [SkipLaunch], and the teardown of the blue
    entry with [SkipLaunch]. *)
Lemma skip_launch_effects_witness :
  (Sample_skipped ∈ [Sample_a; Sample_skipped]
   /\ LaunchInput.SkipLaunch (launchInput Sample_skipped) = true
   /\ startTable (startInit [Sample_a; Sample_skipped])
        !! Machine.FormattedMachineId (leasableMachine Sample_skipped)
      = Some "started")
  /\ (abortAfter Sample.quiet = None
      /\ exists s',
           DestroyBlueMachines Sample.quiet (Sample.state [Sample_skipped]) = (Done None, s')
           /\ trace s'
              = (trace (Sample.state [Sample_skipped])
                   ++ (destroyCall <$> blueMachines (bg (Sample.state [Sample_skipped]))))%list).
Proof.
  split.
  - assert (Hin : Sample_skipped ∈ [Sample_a; Sample_skipped]) by (right; left).
    assert (Hskip : LaunchInput.SkipLaunch (launchInput Sample_skipped) = true)
      by reflexivity.
    split; [exact Hin|]. split; [exact Hskip|].
    exact (proj1 (skip_launch_effects Sample.quiet) _ _ Hin Hskip).
  - assert (Habort : abortAfter Sample.quiet = None) by reflexivity.
    split; [exact Habort|].
    exact (proj2 (proj2
             (proj2 (proj2 (proj2 (proj2 (proj2 (skip_launch_effects Sample.quiet)))))
                Habort (Sample.state [Sample_skipped])))).
Defined.

(** ** Validation of the checks *)

Section Validation.

Local Open Scope list_scope.

Variable env : Env.

Lemma onlyDestroys_refl (s : St) : onlyDestroys s s.
Proof. split; [|done]. exists []. by rewrite app_nil_r. Qed.

Lemma onlyDestroys_trans (s1 s2 s3 : St) :
  onlyDestroys s1 s2 -> onlyDestroys s2 s3 -> onlyDestroys s1 s3.
Proof.
  intros [(c1 & E1 & F1) G1] [(c2 & E2 & F2) G2]. split; [|congruence].
  exists (c1 ++ c2). rewrite E2, E1, app_assoc. split; [done|]. by apply Forall_app.
Qed.

(** A step that leaves the trace and the green list alone. *)
Lemma onlyDestroys_same (s s' : St) :
  trace s' = trace s -> greenMachines (bg s') = greenMachines (bg s) -> onlyDestroys s s'.
Proof. intros Ht Hg. split; [|done]. exists []. by rewrite app_nil_r. Qed.

Lemma retryDo_onlyDestroys (n : nat) (id : string) (errs : list error) (s : St) :
  onlyDestroys s (retryDo n (fleet env (CDestroy id true)) errs s).2.
Proof.
  revert errs s. induction n as [|n IH]; intros errs s.
  - apply onlyDestroys_refl.
  - cbn [retryDo]. unfold bind at 1, fleet at 1.
    destruct (Reply env (trace s) (CDestroy id true)) as [e|].
    + eapply onlyDestroys_trans; [|apply IH].
      split; [|done]. exists [CDestroy id true]. split; [done|]. by repeat constructor.
    + split; [|done]. exists [CDestroy id true]. split; [done|]. by repeat constructor.
Qed.

Lemma destroyZombies_onlyDestroys (zombies : gset string) (blue : machineUpdateEntries)
    (s : St) :
  onlyDestroys s (destroyZombies env zombies blue s).2.
Proof.
  revert s. induction blue as [|mach blue IH]; intros s.
  - apply onlyDestroys_refl.
  - cbn [destroyZombies]. unfold bind at 1, isAborted at 1.
    set (s1 := {| bg := bg s; trace := trace s; polls := S (polls s); stderr := stderr s |}).
    assert (H1 : onlyDestroys s s1) by (by apply onlyDestroys_same).
    destruct (match abortAfter env with
              | Some n => (n <=? polls s)%nat
              | None => false
              end); [exact H1|].
    destruct (bool_decide _).
    + unfold bind at 1.
      pose proof (retryDo_onlyDestroys 3 (Machine.ID (leasableMachine mach)) [] s1) as H2.
      destruct (retryDo 3 _ [] s1) as [[[e|]|msg|] s2]; cbn [snd] in H2 |- *;
        try (eapply onlyDestroys_trans; [exact H1 | exact H2]).
      unfold bind at 1, eprint at 1.
      eapply onlyDestroys_trans; [exact H1|].
      eapply onlyDestroys_trans; [exact H2|].
      eapply onlyDestroys_trans; [|apply IH]. by apply onlyDestroys_same.
    + eapply onlyDestroys_trans; [exact H1 | apply IH].
Qed.

Lemma sweep_onlyDestroys (s : St) :
  onlyDestroys s (DeleteZombiesFromPreviousDeployment env s).2.
Proof.
  unfold DeleteZombiesFromPreviousDeployment, bind at 1, getBG at 1.
  destruct (collectTags _ _ _) as [[blue tags]|]; [|apply onlyDestroys_refl].
  unfold bind at 1, setBG at 1.
  set (s1 := {| bg := setBlue (bg s) blue; trace := trace s; polls := polls s;
                stderr := stderr s |}).
  assert (H1 : onlyDestroys s s1) by (by apply onlyDestroys_same).
  destruct (Nat.eqb _ _).
  { unfold bind, eprint, ret. cbn [snd].
    eapply onlyDestroys_trans; [exact H1|]. by apply onlyDestroys_same. }
  destruct (getZombies tags) as [[zombies [err|]]|msg|]; try exact H1.
  unfold bind at 1.
  pose proof (destroyZombies_onlyDestroys zombies blue s1) as H2.
  destruct (destroyZombies env zombies blue s1) as [[[e|]|msg|] s2]; cbn [snd] in H2 |- *;
    (eapply onlyDestroys_trans; [exact H1 | exact H2]).
Qed.

Lemma prepare_onlyDestroys (s : St) : onlyDestroys s (deployPrepare env s).2.
Proof.
  unfold deployPrepare, unlessAborted, bind at 1, isAborted at 1.
  set (s1 := {| bg := bg s; trace := trace s; polls := S (polls s); stderr := stderr s |}).
  assert (H1 : onlyDestroys s s1) by (by apply onlyDestroys_same).
  destruct (match abortAfter env with
            | Some n => (n <=? polls s)%nat
            | None => false
            end); [exact H1|].
  unfold bind at 1, getBG at 1.
  destruct (CanPerformBluegreenDeployment env _) as [err|canPerform]; [exact H1|].
  destruct canPerform; cbn [negb]; [|exact H1].
  unfold bind at 1, eprint at 1.
  set (s2 := {| bg := bg s1; trace := trace s1; polls := polls s1; stderr := _ |}).
  assert (H2 : onlyDestroys s s2) by (by apply onlyDestroys_same).
  unfold bind at 1.
  pose proof (sweep_onlyDestroys s2) as H3.
  destruct (DeleteZombiesFromPreviousDeployment env s2) as [[[e|]|msg|] s3];
    cbn [snd] in H3 |- *; try (eapply onlyDestroys_trans; [exact H2 | exact H3]).
  unfold attachCustomTopLevelChecks, bind at 1. unfold bind at 1, getBG at 1.
  destruct (attachAll (blueMachines (bg s3))) as [blue|msg|];
    cbn [snd]; (eapply onlyDestroys_trans; [exact H2 | exact H3]).
Qed.

(** Over entries without checks the counting loop only warns. *)
Lemma countChecked_none (blue : machineUpdateEntries) (n : nat) (s : St) :
  Forall (fun e => lenChecks e = O) blue ->
  exists out,
    countChecked env blue n s
    = (Done n, withWorld s (trace s) (polls s) (stderr s ++ out)).
Proof.
  revert s. induction blue as [|e blue IH]; intros s Hall.
  - exists []. simpl. rewrite app_nil_r. by destruct s.
  - apply Forall_cons_1 in Hall as [He Hall]. cbn [countChecked]. rewrite He. simpl.
    unfold bind at 1, eprint at 1.
    match goal with |- context [countChecked env blue n ?s1] =>
      destruct (IH s1 Hall) as (out & E) end.
    rewrite E. eexists. unfold withWorld. simpl. by rewrite <- app_assoc.
Qed.

Lemma validateChecks_none (s : St) :
  blueMachines (bg s) <> [] ->
  Forall (fun e => lenChecks e = O) (blueMachines (bg s)) ->
  exists s',
    validateChecks env s = (Done (Some ErrValidationError), s')
    /\ trace s' = trace s /\ bg s' = bg s.
Proof.
  intros Hne Hall. unfold validateChecks, bind at 1, getBG at 1.
  destruct (countChecked_none (blueMachines (bg s)) O s Hall) as (out & E).
  unfold bind at 1. rewrite E. simpl.
  destruct (blueMachines (bg s)) as [|e blue]; [done|]. simpl.
  unfold bind, eprint, ret. simpl. by eexists.
Qed.

Lemma validateChecks_empty (s : St) :
  blueMachines (bg s) = [] -> validateChecks env s = (Done None, s).
Proof.
  intros Hnil. unfold validateChecks, bind, getBG. rewrite Hnil. simpl.
  unfold ret. by destruct s.
Qed.

End Validation.

(** C5, as stated, fails: after check propagation the launch spec of m2 has
    no top-level check and the blue list is not empty, yet the validation
    passes, because m1 has a check: two green machines are created and
    [Deploy] returns nil. *)
Lemma one_checked_entry_passes_validation :
  lenChecks <$> blueMachines (bg (deployPrepare Sample_fine2
                                    (Sample.state [Sample_a; Sample_unchecked2])).2)
  = [1%nat; 0%nat]
  /\ (Deploy Sample_fine2 (Sample.state [Sample_a; Sample_unchecked2])).1 = Done None
  /\ Machine.ID <$> machines (greenMachines
                                (bg (Deploy Sample_fine2
                                       (Sample.state [Sample_a; Sample_unchecked2])).2))
     = ["g-m1"; "g-m2"].
Proof. split; [|split]; vm_compute; reflexivity. Qed.

(** C5, amended. When [Deploy] has come through the policy check, the sweep
    and check propagation, and after propagation every launch spec of the
    non-empty blue list has zero top-level checks, [Deploy] returns
    [ErrValidationError] without a fleet call after propagation, and so far
    the fleet was only asked to destroy zombies: no green machine is
    created. Over an empty blue list the validation raises no error. *)
Theorem validation_needs_a_check (env : Env) (s s1 : St) :
  deployPrepare env s = (Done None, s1) ->
  (blueMachines (bg s1) <> [] ->
   Forall (fun e => lenChecks e = O) (blueMachines (bg s1)) ->
   exists s2,
     Deploy env s = (Done (Some ErrValidationError), s2)
     /\ trace s2 = trace s1
     /\ onlyDestroys s s2)
  /\ (blueMachines (bg s1) = [] -> validateChecks env s1 = (Done None, s1)).
Proof.
  intros Hprep. split.
  - intros Hne Hall.
    destruct (validateChecks_none env s1 Hne Hall) as (s2 & Hval & Htr & Hbg).
    exists s2. split; [|split; [exact Htr|]].
    + unfold Deploy, deploySwitch, andThen, bind. rewrite Hprep, Hval. reflexivity.
    + eapply onlyDestroys_trans.
      * pose proof (prepare_onlyDestroys env s) as H. rewrite Hprep in H. exact H.
      * apply onlyDestroys_same; [exact Htr | by rewrite Hbg].
  - apply validateChecks_empty.
Qed.

(** One blue machine whose services have no check. *)
Lemma validation_needs_a_check_witness :
  deployPrepare Sample.quiet (Sample.state [Sample_unchecked])
  = (Done None, (deployPrepare Sample.quiet (Sample.state [Sample_unchecked])).2)
  /\ blueMachines (bg (deployPrepare Sample.quiet (Sample.state [Sample_unchecked])).2) <> []
  /\ Forall (fun e => lenChecks e = O)
       (blueMachines (bg (deployPrepare Sample.quiet (Sample.state [Sample_unchecked])).2))
  /\ exists s2,
       Deploy Sample.quiet (Sample.state [Sample_unchecked])
       = (Done (Some ErrValidationError), s2)
       /\ trace s2
          = trace (deployPrepare Sample.quiet (Sample.state [Sample_unchecked])).2
       /\ onlyDestroys (Sample.state [Sample_unchecked]) s2.
Proof.
  assert (H1 : deployPrepare Sample.quiet (Sample.state [Sample_unchecked])
               = (Done None, (deployPrepare Sample.quiet (Sample.state [Sample_unchecked])).2))
    by (vm_compute; reflexivity).
  assert (H2 : blueMachines
                 (bg (deployPrepare Sample.quiet (Sample.state [Sample_unchecked])).2) <> [])
    by (vm_compute; discriminate).
  assert (H3 : Forall (fun e => lenChecks e = O)
                 (blueMachines
                    (bg (deployPrepare Sample.quiet (Sample.state [Sample_unchecked])).2))).
  { apply Forall_forall. intros e He.
    assert (E : blueMachines
                  (bg (deployPrepare Sample.quiet (Sample.state [Sample_unchecked])).2)
                = [Sample_unchecked]) by (vm_compute; reflexivity).
    rewrite E in He. apply list_elem_of_singleton in He. by subst e. }
  split; [exact H1|]. split; [exact H2|]. split; [exact H3|].
  exact (proj1 (validation_needs_a_check Sample.quiet _ _ H1) H2 H3).
Defined.

(** ** The wait for the blue machines to stop *)

Section StopWait.

Local Open Scope list_scope.

Variable env : Env.

Lemma setTask_length (tasks : list task) (i : nat) (w : wstate) :
  length (setTask tasks i w) = length tasks.
Proof. unfold setTask. destruct (tasks !! i); [apply length_insert | done]. Qed.

Lemma countEnded_setTask (tasks : list task) (i : nat) (t : task) (w : wstate) :
  tasks !! i = Some t ->
  ended t = false ->
  countEnded (setTask tasks i w)
  = (countEnded tasks + (if ended {| tMachine := tMachine t; tState := w |} then 1 else 0))%nat.
Proof.
  intros Hi Ht. unfold setTask. rewrite Hi.
  revert i Hi. induction tasks as [|x tasks IH]; intros i Hi; [done|].
  destruct i as [|i]; simpl in Hi.
  - simplify_eq. unfold countEnded. simpl. rewrite Ht.
    destruct (ended {| tMachine := tMachine t; tState := w |}); simpl; lia.
  - specialize (IH i Hi). unfold countEnded in *. simpl.
    destruct (ended x); simpl; rewrite IH; lia.
Qed.

Lemma countEnded_all (tasks : list task) :
  countEnded tasks = length tasks -> Forall (fun t => tState t = WEnd) tasks.
Proof.
  unfold countEnded. induction tasks as [|t tasks IH]; intros H; [constructor|].
  pose proof (List.filter_length_le ended tasks) as Hle.
  simpl in H. destruct (ended t) eqn:E; simpl in H; [|lia].
  constructor; [|apply IH; lia].
  unfold ended in E. by destruct (tState t).
Qed.

Lemma stopInit_inv (blue : machineUpdateEntries) : stopInv (length blue) (stopInit blue).
Proof.
  unfold stopInv, stopInit. simpl. split; [apply length_map|].
  unfold countEnded. induction blue as [|e blue IH]; simpl; [done | exact IH].
Qed.

(** An event that does not end the phase keeps the invariant. *)
Lemma stopStep_continue (n : nat) (ev : event) (c c' : stopCfg) (s s' : St) :
  stopInv n c ->
  stopStep env n ev c s = (Done (inl c'), s') ->
  stopInv n c'.
Proof.
  intros [Hlen Hdone] H. destruct ev as [i r|i ctxErr r|i|sel]; simpl in H;
    try discriminate H.
  - destruct (stopTasks c !! i) as [[m []]|] eqn:Ei; try discriminate H.
    unfold bind, record in H.
    destruct r as [err|]; unfold ret in H; inversion H; subst; clear H;
      split; simpl; rewrite ?setTask_length; try done;
      by rewrite (countEnded_setTask _ _ _ _ Ei), Nat.add_0_r.
  - destruct (stopTasks c !! i) as [[m []]|] eqn:Ei; try discriminate H.
    unfold ret in H. inversion H; subst; clear H.
    split; simpl; rewrite ?setTask_length; try done.
    rewrite (countEnded_setTask _ _ _ _ Ei) by done. simpl. lia.
  - destruct (Nat.eqb (done c) n); [discriminate H|].
    unfold bind at 1, isAborted at 1 in H.
    destruct (match abortAfter env with
              | Some k => (k <=? polls s)%nat
              | None => false
              end); [discriminate H|].
    destruct sel as [|i|].
    + discriminate H.
    + destruct (stopTasks c !! i) as [[m []]|] eqn:Ei; try discriminate H.
      unfold ret in H. inversion H; subst; clear H.
      split; simpl; rewrite ?setTask_length; try done.
      by rewrite (countEnded_setTask _ _ _ _ Ei), Nat.add_0_r.
    + destruct (noneSending (stopTasks c)); [|discriminate H].
      unfold ret in H. inversion H; subst; clear H. by split.
Qed.

(** The event that ends the phase leaves the tasks as they are; an
    aggregate error is returned only when the counter has reached the number
    of blue machines. *)
Lemma stopStep_return (n : nat) (ev : event) (c c' : stopCfg) (r : option error)
    (s s' : St) :
  stopStep env n ev c s = (Done (inr (c', r)), s') ->
  c' = c
  /\ (r = Some ErrAborted \/ r = Some ErrWaitTimeout
      \/ (r = ErrorOrNil (merr c) /\ done c = n)).
Proof.
  intros H. destruct ev as [i r0|i ctxErr r0|i|sel]; simpl in H; try discriminate H.
  - destruct (stopTasks c !! i) as [[m []]|]; try discriminate H.
    unfold bind, record in H. destruct r0; discriminate H.
  - destruct (stopTasks c !! i) as [[m []]|]; discriminate H.
  - destruct (Nat.eqb_spec (done c) n) as [Hn|Hn].
    + unfold ret in H. inversion H; subst; clear H. split; [done|]. by right; right.
    + unfold bind at 1, isAborted at 1 in H.
      destruct (match abortAfter env with
                | Some k => (k <=? polls s)%nat
                | None => false
                end).
      * unfold ret in H. inversion H; subst; clear H. split; [done|]. by left.
      * destruct sel as [|i|].
        -- unfold ret in H. inversion H; subst; clear H. split; [done|]. by right; left.
        -- destruct (stopTasks c !! i) as [[m []]|]; discriminate H.
        -- destruct (noneSending (stopTasks c)); discriminate H.
Qed.


Lemma eprintEach_run (texts : list string) (s : St) :
  eprintEach texts s = (Done tt, withWorld s (trace s) (polls s) (stderr s ++ texts)).
Proof.
  revert s. induction texts as [|t texts IH]; intros s.
  - simpl. unfold ret, withWorld. rewrite app_nil_r. by destruct s.
  - cbn [eprintEach]. unfold bind at 1, eprint at 1. rewrite IH.
    unfold withWorld. simpl. by rewrite <- app_assoc.
Qed.


End StopWait.



(** ** Decimal text *)

Section Decimal.

Import Strconv.

Lemma digit_roundtrip (d : Z) :
  0 <= d < 10 -> is_digit (digit_char d) = true /\ digit_val (digit_char d) = d.
Proof.
  intros Hd.
  assert (H : d = 0 \/ d = 1 \/ d = 2 \/ d = 3 \/ d = 4 \/ d = 5 \/ d = 6 \/ d = 7
              \/ d = 8 \/ d = 9) by lia.
  repeat (destruct H as [->|H]; [by vm_compute|]). subst. by vm_compute.
Qed.

Lemma digit_not_sign (c : ascii) :
  is_digit c = true -> Ascii.eqb c "-" = false /\ Ascii.eqb c "+" = false.
Proof.
  intros H. split.
  - destruct (Ascii.eqb_spec c "-") as [->|]; [discriminate H | done].
  - destruct (Ascii.eqb_spec c "+") as [->|]; [discriminate H | done].
Qed.

(** Reading back the digits written in front of [acc]. *)
Lemma parse_digits_digits (fuel : nat) (n : Z) (acc : string) (a : Z) :
  0 <= n < 10 ^ Z.of_nat fuel ->
  exists k, 0 <= k /\ parse_digits a (digits fuel n acc) = parse_digits (a * 10 ^ k + n) acc.
Proof.
  revert n acc. induction fuel as [|fuel IH]; intros n acc Hn.
  - exists 0. split; [lia|]. simpl. f_equal. simpl in Hn. lia.
  - cbn [digits].
    assert (Hmod : 0 <= n mod 10 < 10) by (apply Z.mod_pos_bound; lia).
    destruct (digit_roundtrip _ Hmod) as [Hd Hv].
    destruct (Z.ltb_spec n 10) as [Hlt|Hge].
    + exists 1. split; [lia|]. cbn [parse_digits]. rewrite Hd, Hv.
      f_equal. rewrite Z.mod_small by lia. lia.
    + assert (Hdiv : 0 <= n / 10 < 10 ^ Z.of_nat fuel).
      { split; [apply Z.div_pos; lia|].
        apply Z.div_lt_upper_bound; [lia|].
        rewrite Nat2Z.inj_succ, Z.pow_succ_r in Hn by lia. lia. }
      destruct (IH (n / 10) (String (digit_char (n mod 10)) acc) Hdiv) as (k & Hk & E).
      exists (k + 1). split; [lia|]. rewrite E. cbn [parse_digits]. rewrite Hd, Hv.
      f_equal. rewrite Z.pow_add_r by lia.
      pose proof (Z.div_mod n 10 ltac:(lia)) as Hdm. lia.
Qed.

Lemma digits_head_kept (fuel : nat) (n : Z) (c : ascii) (acc : string) :
  is_digit c = true ->
  exists c' rest, digits fuel n (String c acc) = String c' rest /\ is_digit c' = true.
Proof.
  revert n c acc. induction fuel as [|fuel IH]; intros n c acc Hc.
  - by exists c, acc.
  - cbn [digits].
    assert (Hmod : 0 <= n mod 10 < 10) by (apply Z.mod_pos_bound; lia).
    destruct (digit_roundtrip _ Hmod) as [Hd _].
    destruct (n <? 10)%Z; [by eexists _, _ | by apply IH].
Qed.

Lemma digits_head (fuel : nat) (n : Z) :
  exists c rest, digits (S fuel) n "" = String c rest /\ is_digit c = true.
Proof.
  cbn [digits].
  assert (Hmod : 0 <= n mod 10 < 10) by (apply Z.mod_pos_bound; lia).
  destruct (digit_roundtrip _ Hmod) as [Hd _].
  destruct (n <? 10)%Z; [by eexists _, _ | by apply digits_head_kept].
Qed.

Lemma digits_fuel (a : Z) : 0 <= a -> 0 <= a < 10 ^ Z.of_nat (S (Z.to_nat (Z.log2 a))).
Proof.
  intros Ha. split; [done|].
  pose proof (Z.log2_nonneg a) as Hlog.
  rewrite Nat2Z.inj_succ, Z2Nat.id by done.
  destruct (Z.eq_dec a 0) as [->|Hne]; [by vm_compute|].
  pose proof (Z.log2_spec a ltac:(lia)) as [_ Hup].
  eapply Z.lt_le_trans; [exact Hup|].
  apply Z.pow_le_mono_l. lia.
Qed.

(** [Atoi] reads back what [Sprint] writes. *)
Lemma Atoi_Sprint (n : Z) : min_int <= n <= max_int -> Atoi (Sprint n) = inr n.
Proof.
  intros Hrange. unfold Sprint.
  set (a := Z.abs n).
  assert (Ha : 0 <= a) by (unfold a; lia).
  destruct (digits_head (Z.to_nat (Z.log2 a)) a) as (c & rest & Ebody & Hc).
  destruct (parse_digits_digits _ a "" 0 (digits_fuel a Ha)) as (k & Hk & Eparse).
  cbn [parse_digits] in Eparse. rewrite Z.mul_0_l, Z.add_0_l in Eparse.
  assert (Hin : ((min_int <=? n)%Z && (n <=? max_int)%Z)%bool = true).
  { apply andb_true_intro. split; apply Z.leb_le; lia. }
  destruct (Z.ltb_spec n 0) as [Hneg|Hpos].
  - unfold Atoi. change (Ascii.eqb "-" "-") with true. cbn [orb].
    rewrite Ebody in Eparse |- *. rewrite Eparse.
    replace (- a) with n by (unfold a; lia). by rewrite Hin.
  - rewrite Ebody in Eparse |- *. unfold Atoi.
    destruct (digit_not_sign c Hc) as [-> ->]. cbn [orb].
    rewrite Eparse. replace a with n by (unfold a; lia). by rewrite Hin.
Qed.

Lemma Sprint_inj (n m : Z) :
  min_int <= n <= max_int -> min_int <= m <= max_int -> Sprint n = Sprint m -> n = m.
Proof.
  intros Hn Hm E. pose proof (Atoi_Sprint n Hn) as An.
  rewrite E, (Atoi_Sprint m Hm) in An. congruence.
Qed.

Lemma Atoi_range (t : string) (n : Z) : Atoi t = inr n -> min_int <= n <= max_int.
Proof.
  unfold Atoi. destruct t as [|c rest]; [discriminate|].
  set (neg := Ascii.eqb c "-").
  destruct (if (neg || Ascii.eqb c "+")%bool then rest else String c rest);
    [discriminate|].
  destruct (parse_digits 0 _) as [v|]; [|discriminate].
  destruct (Z.leb_spec min_int (if neg then - v else v)) as [Hlo|]; [|discriminate].
  destruct (Z.leb_spec (if neg then - v else v) max_int) as [Hhi|]; [|discriminate].
  cbn [andb]. intros E. simplify_eq. lia.
Qed.

(** A canonical tag is the text of [n0] exactly when its value is [n0]. *)
Lemma canonicalTag_value (t : string) (n0 : Z) :
  canonicalTag t -> (t = Sprint n0 /\ min_int <= n0 <= max_int <-> Atoi t = inr n0).
Proof.
  intros (n & Hn & ->). rewrite (Atoi_Sprint n Hn). split.
  - intros [E Hn0]. f_equal. by apply Sprint_inj.
  - intros E. simplify_eq. done.
Qed.

End Decimal.

(** ** Runs of the model *)

Example Atoi_examples :
  Strconv.Atoi "100" = inr 100
  /\ Strconv.Atoi "-1" = inr (-1)
  /\ Strconv.Atoi "+5" = inr 5
  /\ Strconv.Atoi "" = inl Strconv.ErrSyntax
  /\ Strconv.Atoi "-" = inl Strconv.ErrSyntax
  /\ Strconv.Atoi "1a" = inl Strconv.ErrSyntax
  /\ Strconv.Atoi "9223372036854775807" = inr 9223372036854775807
  /\ Strconv.Atoi "9223372036854775808" = inl Strconv.ErrRange.
Proof. repeat split; vm_compute; reflexivity. Qed.

Example Sprint_examples :
  Strconv.Sprint 0 = "0" /\ Strconv.Sprint 100 = "100" /\ Strconv.Sprint (-1) = "-1"
  /\ Strconv.Sprint 1700000000 = "1700000000".
Proof. repeat split; vm_compute; reflexivity. Qed.

Example wrapped_error_text :
  Error (fun s => s) (EWrap ErrAborted (Error (fun s => s) ErrDestroyBlueMachines))
  = "failed to destroy previous deployment: deployment aborted by user".
Proof. reflexivity. Qed.

(** Scenario 1 of the specification: two blue machines of one generation,
    everything goes well. The green machines are created, waited for,
    uncordoned; the blue machines are cordoned, stopped, waited for and
    destroyed; [Deploy] returns nil. *)
Example deploy_happy_path :
  (Deploy Sample_fine2 (Sample.state [Sample_a; Sample_b])).1 = Done None
  /\ Machine.ID <$> machines (greenMachines
                                (bg (Deploy Sample_fine2
                                       (Sample.state [Sample_a; Sample_b])).2))
     = ["g-m1"; "g-m2"]
  /\ drop 2 (trace (Deploy Sample_fine2 (Sample.state [Sample_a; Sample_b])).2)
     = [CWait "g-m1" "start"; CWait "g-m2" "start"; CGet "g-m1"; CGet "g-m2";
        CUncordon "g-m1"; CUncordon "g-m2"; CCordon "m1"; CCordon "m2";
        CStop "m1" "SIGINT"; CStop "m2" "SIGINT"; CWait "m1" "stop"; CWait "m2" "stop";
        CDestroy "m1" true; CDestroy "m2" true]
  /\ hangingBlueMachines (bg (Deploy Sample_fine2 (Sample.state [Sample_a; Sample_b])).2)
     = [].
Proof. repeat split; vm_compute; reflexivity. Qed.

(** A check with its type set is stored with the defaults of its service:
    the port of the check when it has one, the internal port otherwise. *)
Example attach_typed_check :
  exists blue,
    attachAll [Sample_a] = Done blue
    /\ map topLevelChecks blue
       = [ ({[ "bg_deployments_tcp" := Sample.check (Some 8080) (Some "tcp") ]}
            : gmap string Check.t) ].
Proof. eexists. split; vm_compute; reflexivity. Qed.

(** * Further properties *)

(** ** The status tables *)

Section Tables.

Local Open Scope list_scope.

Lemma count_all {A} (f : A -> bool) (l : list A) :
  foldr (fun x n => if f x then S n else n) O l = length l
  <-> Forall (fun x => f x = true) l.
Proof.
  assert (Hle : forall k : list A,
             (foldr (fun x n => if f x then S n else n) O k <= length k)%nat).
  { induction k as [|x k IH]; simpl; [lia|]. destruct (f x); lia. }
  induction l as [|x l IH]; simpl.
  - split; [constructor | done].
  - specialize (Hle l). destruct (f x) eqn:E.
    + split.
      * intros H. constructor; [done|]. apply IH. lia.
      * intros H. apply Forall_cons_1 in H as [_ H]. apply IH in H. lia.
    + split; [lia|]. intros H. apply Forall_cons_1 in H as [H _]. congruence.
Qed.

(** X1. [allMachinesStarted] is true exactly when every machine of the
    table is "started"; in particular on the empty table. *)
Theorem allMachinesStarted_spec (stateMap : gmap string string) :
  allMachinesStarted stateMap = true
  <-> map_Forall (fun _ status => status = "started") stateMap.
Proof.
  unfold allMachinesStarted.
  rewrite Nat.eqb_eq, <- length_map_to_list.
  rewrite (count_all (fun kv : string * string => String.eqb kv.2 "started")).
  rewrite map_Forall_to_list. apply Forall_iff. intros [k v]. simpl.
  apply String.eqb_eq.
Qed.

Lemma changeDetected_true (a b : gmap string string) :
  changeDetected a b = true
  <-> exists key status, a !! key = Some status /\ viewGet b key <> status.
Proof.
  unfold changeDetected. rewrite existsb_exists. split.
  - intros ([k v] & Hin & Hne). exists k, v.
    apply list_elem_of_In, elem_of_map_to_list in Hin. split; [done|].
    simpl in Hne. apply negb_true_iff, String.eqb_neq in Hne. congruence.
  - intros (k & v & Hk & Hne). exists (k, v). split.
    + by apply list_elem_of_In, elem_of_map_to_list.
    + simpl. apply negb_true_iff, String.eqb_neq. congruence.
Qed.

Lemma changeDetected_false (a b : gmap string string) :
  changeDetected a b = false
  <-> forall key status, a !! key = Some status -> viewGet b key = status.
Proof.
  split.
  - intros H k v Hk. destruct (decide (viewGet b k = v)) as [|Hne]; [done|].
    assert (Ht : changeDetected a b = true) by (apply changeDetected_true; eauto).
    congruence.
  - intros H. destruct (changeDetected a b) eqn:E; [|done].
    apply changeDetected_true in E as (k & v & Hk & Hne). by apply H in Hk.
Qed.

Lemma changeDetected_same (a : gmap string string) : changeDetected a a = false.
Proof.
  apply changeDetected_false. intros k v Hk. unfold viewGet. by rewrite Hk.
Qed.

(** X2. [changeDetected a b] looks at the keys of [a] only: it is true
    exactly when some row of [a] reads differently in [b], a row missing
    from [b] reading as the empty status. So a view is never detected as
    changed against itself, nor against a view that has all its rows and
    more: rows that disappear go unnoticed. *)
Theorem changeDetected_spec (a b : gmap string string) :
  (changeDetected a b = true
   <-> exists key status, a !! key = Some status /\ viewGet b key <> status)
  /\ changeDetected a a = false
  /\ (a ⊆ b -> changeDetected a b = false).
Proof.
  split; [apply changeDetected_true|]. split; [apply changeDetected_same|].
  intros Hsub. apply changeDetected_false. intros k v Hk.
  unfold viewGet. by rewrite (lookup_weaken _ _ _ _ Hk Hsub).
Qed.

#[local] Instance stringLe_total : base.Total stringLe.
Proof. intros a b. apply String.leb_total. Qed.

Lemma sortStrings_sorted (rows : list string) :
  Sorted stringLe (sortStrings rows) /\ sortStrings rows ≡ₚ rows.
Proof.
  split; [apply Sorted_merge_sort; apply _ | apply merge_sort_Permutation].
Qed.

Lemma rowsOf_length (cs : ColorScheme) (view : gmap string string) :
  length (rowsOf cs view) = size view.
Proof. unfold rowsOf. by rewrite length_map, length_map_to_list. Qed.

(** X3. A call of a renderer whose view did not change writes nothing and
    clears nothing, and a second call on the same view never does either:
    the table is redrawn only when a status changed. *)
Theorem render_unchanged_is_silent (cs : ColorScheme) (view : gmap string string)
    (r : renderer) :
  (changeDetected view (previousView r) = false ->
   render cs view r = ([], {| firstRun := false; previousView := previousView r |}))
  /\ (render cs view (render cs view r).2).1 = [].
Proof.
  assert (H : forall r0, changeDetected view (previousView r0) = false ->
              render cs view r0
              = ([], {| firstRun := false; previousView := previousView r0 |})).
  { intros r0 E. unfold render. rewrite E. by rewrite andb_false_r. }
  split; [apply H|].
  destruct (changeDetected view (previousView r)) eqn:E.
  - unfold render at 2. rewrite E. cbn [snd]. rewrite H; [done|].
    apply changeDetected_same.
  - rewrite (H r E). cbn [snd]. by rewrite H.
Qed.

Lemma render_changed_run (cs : ColorScheme) (view : gmap string string) (r : renderer) :
  changeDetected view (previousView r) = true ->
  render cs view r
  = ((if firstRun r then [] else [ClearLinesAbove (size view)])
       ++ [ErrWrite (Str.join (sortStrings (rowsOf cs view)) newline ++ newline)],
     {| firstRun := false; previousView := view |}).
Proof.
  intros E. unfold render. rewrite E. fold (rowsOf cs view). rewrite rowsOf_length.
  by destruct (firstRun r).
Qed.

(** X4. When the view changed, the renderer writes one block: the rows of
    the view, one per machine, in the order of [sort.Strings]. It clears
    the lines above first, one per row of the view, unless this is its
    first call, and it remembers the view. *)
Theorem render_changed_redraws (cs : ColorScheme) (view : gmap string string)
    (r : renderer) :
  changeDetected view (previousView r) = true ->
  exists sorted,
    render cs view r
    = ((if firstRun r then [] else [ClearLinesAbove (size view)])
         ++ [ErrWrite (Str.join sorted newline ++ newline)],
       {| firstRun := false; previousView := view |})
    /\ Sorted stringLe sorted
    /\ sorted ≡ₚ rowsOf cs view
    /\ length sorted = size view.
Proof.
  intros E. exists (sortStrings (rowsOf cs view)).
  destruct (sortStrings_sorted (rowsOf cs view)) as [Hs Hp].
  split; [|split; [exact Hs|split; [exact Hp|]]].
  - by apply render_changed_run.
  - by rewrite Hp, rowsOf_length.
Qed.

Lemma render_same_run (cs : ColorScheme) (view : gmap string string) (r : renderer) :
  changeDetected view (previousView r) = false ->
  render cs view r = ([], {| firstRun := false; previousView := previousView r |}).
Proof. intros E. unfold render. rewrite E. by rewrite andb_false_r. Qed.

Lemma render_balanced (cs : ColorScheme) (view : gmap string string) (r : renderer)
    (k : nat) (w : option nat) (ops : list termOp) :
  size view = k ->
  (firstRun r = false -> w = Some k) ->
  balanced (Some k) ops ->
  (changeDetected view (previousView r) = false -> balanced w ops) ->
  balanced w ((render cs view r).1 ++ ops).
Proof.
  intros Hk Hw Hops Hsame.
  destruct (changeDetected view (previousView r)) eqn:E.
  - rewrite (render_changed_run cs view r E).
    destruct (sortStrings_sorted (rowsOf cs view)) as [_ Hp].
    assert (Hlen : length (sortStrings (rowsOf cs view)) = size view)
      by (by rewrite Hp, rowsOf_length).
    cbn [fst]. rewrite Hk in *.
    destruct (firstRun r) eqn:F; simpl.
    + apply balanced_write. by rewrite Hlen.
    + rewrite (Hw eq_refl). apply balanced_clear, balanced_write. by rewrite Hlen.
  - rewrite (render_same_run cs view r E). simpl. by apply Hsame.
Qed.

(** After a call that wrote, or any call of a renderer that has written,
    the renderer is no longer at its first run and a block of [k] rows is
    on the terminal. *)
Lemma renderAll_balanced (cs : ColorScheme) (views : list (gmap string string))
    (r : renderer) (k : nat) :
  Forall (fun view => size view = k) views ->
  firstRun r = false ->
  balanced (Some k) (renderAll cs views r).1.
Proof.
  revert r. induction views as [|view views IH]; intros r Hall Hr.
  - apply balanced_nil.
  - apply Forall_cons_1 in Hall as [Hk Hall]. cbn [renderAll].
    destruct (render cs view r) as [ops r1] eqn:E1.
    assert (Hr1 : firstRun r1 = false).
    { unfold render in E1. destruct (changeDetected _ _); by simplify_eq. }
    specialize (IH r1 Hall Hr1).
    destruct (renderAll cs views r1) as [ops' r2]. cbn [fst] in *.
    replace ops with (render cs view r).1 by (by rewrite E1).
    by apply render_balanced with (k := k).
Qed.

(** X5. Started on a view in which some machine has a status, and called
    on views that keep showing the same number of machines, a renderer only
    ever clears the rows of the block it wrote last: its first operation is
    a write, and every clear asks for as many lines as the write before it
    put on the terminal. *)
Theorem renderAll_clears_what_it_wrote (cs : ColorScheme) (view : gmap string string)
    (views : list (gmap string string)) :
  changeDetected view ∅ = true ->
  Forall (fun v => size v = size view) views ->
  balanced None (renderAll cs (view :: views) newRenderer).1.
Proof.
  intros Hfirst Hall. cbn [renderAll].
  rewrite (render_changed_run cs view newRenderer Hfirst).
  destruct (sortStrings_sorted (rowsOf cs view)) as [_ Hp].
  assert (Hlen : length (sortStrings (rowsOf cs view)) = size view)
    by (by rewrite Hp, rowsOf_length).
  cbn [firstRun newRenderer app].
  pose proof (renderAll_balanced cs views
                {| firstRun := false; previousView := view |} (size view) Hall eq_refl)
    as H.
  destruct (renderAll cs views _) as [ops r2]. cbn [fst] in *.
  apply balanced_write. by rewrite Hlen.
Qed.

(** The first call writes the two machines as created; the second, after
    g-m1 started, clears two lines and writes them again. *)
Lemma renderAll_clears_what_it_wrote_witness :
  changeDetected Sample_viewCreated ∅ = true
  /\ Forall (fun v => size v = size Sample_viewCreated) [Sample_viewStarted]
  /\ balanced None
       (renderAll Sample_plain [Sample_viewCreated; Sample_viewStarted] newRenderer).1.
Proof.
  assert (H1 : changeDetected Sample_viewCreated ∅ = true) by (vm_compute; reflexivity).
  assert (H2 : Forall (fun v => size v = size Sample_viewCreated) [Sample_viewStarted]).
  { constructor; [vm_compute; reflexivity | constructor]. }
  split; [exact H1|]. split; [exact H2|].
  exact (renderAll_clears_what_it_wrote Sample_plain _ _ H1 H2).
Defined.

(** The view of two created machines against a renderer that showed it
    once g-m1 had started. *)
Lemma render_changed_redraws_witness :
  changeDetected Sample_viewStarted
    (previousView {| firstRun := false; previousView := Sample_viewCreated |}) = true
  /\ exists sorted,
       render Sample_plain Sample_viewStarted
         {| firstRun := false; previousView := Sample_viewCreated |}
       = ((if firstRun {| firstRun := false; previousView := Sample_viewCreated |}
           then [] else [ClearLinesAbove (size Sample_viewStarted)])
            ++ [ErrWrite (Str.join sorted newline ++ newline)],
          {| firstRun := false; previousView := Sample_viewStarted |})
       /\ Sorted stringLe sorted
       /\ sorted ≡ₚ rowsOf Sample_plain Sample_viewStarted
       /\ length sorted = size Sample_viewStarted.
Proof.
  assert (H : changeDetected Sample_viewStarted
                (previousView {| firstRun := false; previousView := Sample_viewCreated |})
              = true) by (vm_compute; reflexivity).
  split; [exact H|]. exact (render_changed_redraws Sample_plain _ _ H).
Defined.

End Tables.

(** ** The sequential phases *)

Section Sequential.

Local Open Scope list_scope.

Variable env : Env.

Lemma answersNil_cons (tr : list FleetCall) (c : FleetCall) (calls : list FleetCall) :
  answersNil env tr (c :: calls) ->
  Reply env tr c = None /\ answersNil env (tr ++ [c]) calls.
Proof.
  intros H. split.
  - specialize (H [] c calls eq_refl). by rewrite app_nil_r in H.
  - intros l1 x l2 ->. specialize (H (c :: l1) x l2 eq_refl).
    by rewrite <- app_assoc.
Qed.

Lemma isAborted_open (s : St) :
  ~ abortClosed env s ->
  isAborted env s = (Done false, withWorld s (trace s) (S (polls s)) (stderr s)).
Proof.
  intros H. unfold isAborted. destruct (abortAfter env) as [n|] eqn:E; [|done].
  destruct (Nat.leb_spec n (polls s)); [|done].
  exfalso. apply H. by exists n.
Qed.

Lemma isAborted_closed (s : St) :
  abortClosed env s ->
  isAborted env s = (Done true, withWorld s (trace s) (S (polls s)) (stderr s)).
Proof.
  intros (n & E & Hn). unfold isAborted. rewrite E.
  by destruct (Nat.leb_spec n (polls s)); [|lia].
Qed.

(** The loop of [MarkGreenMachinesAsReadyForTraffic] passes the machines
    that the fleet uncordons. *)
Lemma markLoop_prefix (l1 rest : list Machine.t) (s : St) :
  abortAfter env = None ->
  answersNil env (trace s) (uncordonCall <$> l1) ->
  exists out,
    markLoop env (l1 ++ rest) s
    = markLoop env rest
        (withWorld s (trace s ++ (uncordonCall <$> l1)) (polls s + length l1)
           (stderr s ++ out)).
Proof.
  intros Habort. revert s. induction l1 as [|g l1 IH]; intros s H.
  - exists []. simpl. rewrite !app_nil_r, Nat.add_0_r. by destruct s.
  - cbn [fmap list_fmap] in H. apply answersNil_cons in H as [Hg Hrest].
    cbn [app markLoop]. unfold bind at 1. rewrite isAborted_never by done.
    unfold bind at 1, fleet at 1. cbn [trace withWorld].
    fold (uncordonCall g). rewrite Hg.
    unfold bind at 1, eprint at 1. cbn [trace bg polls stderr].
    match goal with |- context [markLoop env (l1 ++ rest) ?s1] =>
      destruct (IH s1 Hrest) as (out & ->) end.
    eexists. unfold withWorld. cbn [trace bg polls stderr fmap list_fmap length].
    rewrite <- !app_assoc. f_equal. f_equal. lia.
Qed.

End Sequential.

(** X6. Without an abort, [MarkGreenMachinesAsReadyForTraffic] uncordons
    the green machines in the order of the list. When the fleet uncordons
    them all it returns nil; at the first uncordon that fails it returns
    that error, and the green machines after it are not uncordoned. *)
Theorem MarkGreenMachines_stops_at_first_failure (env : Env) (s : St) :
  abortAfter env = None ->
  (answersNil env (trace s) (uncordonCall <$> machines (greenMachines (bg s))) ->
   exists s',
     MarkGreenMachinesAsReadyForTraffic env s = (Done None, s')
     /\ trace s'
        = (trace s ++ (uncordonCall <$> machines (greenMachines (bg s))))%list)
  /\ (forall l1 g l2 e,
        machines (greenMachines (bg s)) = (l1 ++ g :: l2)%list ->
        answersNil env (trace s) (uncordonCall <$> l1) ->
        Reply env (trace s ++ (uncordonCall <$> l1))%list (uncordonCall g) = Some e ->
        exists s',
          MarkGreenMachinesAsReadyForTraffic env s = (Done (Some e), s')
          /\ trace s' = (trace s ++ (uncordonCall <$> (l1 ++ [g])))%list).
Proof.
  intros Habort. split.
  - intros Hall. unfold MarkGreenMachinesAsReadyForTraffic, bind at 1, getBG at 1.
    destruct (markLoop_prefix env (machines (greenMachines (bg s))) [] s Habort Hall)
      as (out & E).
    rewrite app_nil_r in E. rewrite E. eexists. split; [reflexivity|]. reflexivity.
  - intros l1 g l2 e Hsplit Hall Hfail.
    unfold MarkGreenMachinesAsReadyForTraffic, bind at 1, getBG at 1. rewrite Hsplit.
    destruct (markLoop_prefix env l1 (g :: l2) s Habort Hall) as (out & ->).
    cbn [markLoop]. unfold bind at 1. rewrite isAborted_never by done.
    unfold bind at 1, fleet at 1. cbn [trace withWorld].
    fold (uncordonCall g). rewrite Hfail.
    eexists. split; [reflexivity|]. cbn [trace]. by rewrite fmap_app, app_assoc.
Qed.

(** The fleet uncordons g-m2 but not g-m1, which comes first. *)
Lemma MarkGreenMachines_stops_at_first_failure_witness :
  abortAfter Sample_uncordonFails = None
  /\ exists s',
       MarkGreenMachinesAsReadyForTraffic Sample_uncordonFails Sample_created
       = (Done (Some (ENew "machine not found")), s')
       /\ trace s'
          = (trace Sample_created
               ++ (uncordonCall <$> ([] ++ [Sample.launched (launchInput Sample_a)])))%list.
Proof.
  split; [reflexivity|].
  apply (proj2 (MarkGreenMachines_stops_at_first_failure Sample_uncordonFails
                  Sample_created eq_refl)
           [] (Sample.launched (launchInput Sample_a))
           [Sample.launched (launchInput Sample_b)]).
  - reflexivity.
  - intros [|c l1] c' l2 H; simpl in H; discriminate H.
  - reflexivity.
Defined.

Section Teardown.

Local Open Scope list_scope.

Variable env : Env.

Lemma pollsLeft_next (s s1 : St) :
  polls s1 = S (polls s) ->
  ~ abortClosed env s ->
  match pollsLeft env s with
  | Some k => exists k', k = S k' /\ pollsLeft env s1 = Some k'
  | None => pollsLeft env s1 = None
  end.
Proof.
  intros Hp Hopen. unfold pollsLeft. destruct (abortAfter env) as [n|] eqn:E; [|done].
  exists (n - S (polls s))%nat. rewrite Hp. split; [|done].
  assert (~ (n <= polls s)%nat) by (intros Hle; apply Hopen; by exists n). lia.
Qed.

Lemma pollsLeft_closed (s : St) : abortClosed env s -> pollsLeft env s = Some O.
Proof.
  intros (n & E & Hn). unfold pollsLeft. rewrite E. f_equal. lia.
Qed.

(** One step of a loop that polls once per element. *)
Lemma reached_next {A} (s s1 : St) (x : A) (l : list A) :
  polls s1 = S (polls s) ->
  ~ abortClosed env s ->
  reached env s (x :: l) = x :: reached env s1 l
  /\ abortedWithin env s (x :: l) = abortedWithin env s1 l.
Proof.
  intros Hp Hopen. pose proof (pollsLeft_next s s1 Hp Hopen) as H.
  unfold reached, abortedWithin. destruct (pollsLeft env s) as [k|].
  - destruct H as (k' & -> & ->). by split.
  - rewrite H. by split.
Qed.

Lemma reached_closed {A} (s : St) (x : A) (l : list A) :
  abortClosed env s ->
  reached env s (x :: l) = [] /\ abortedWithin env s (x :: l) = Some ErrAborted.
Proof.
  intros H. unfold reached, abortedWithin. by rewrite (pollsLeft_closed s H).
Qed.

Lemma classic_abort (s : St) : abortClosed env s \/ ~ abortClosed env s.
Proof.
  unfold abortClosed. destruct (abortAfter env) as [n|].
  - destruct (le_dec n (polls s)) as [Hle|Hgt].
    + left. by exists n.
    + right. intros (m & E & Hm). simplify_eq. lia.
  - right. by intros (m & E & _).
Qed.

Lemma cordonLoop_abort (l : machineUpdateEntries) (s : St) :
  exists s',
    cordonLoop env l s = (Done (abortedWithin env s l), s')
    /\ trace s' = trace s ++ (cordonCall <$> reached env s l)
    /\ bg s' = bg s.
Proof.
  revert s. induction l as [|e l IH]; intros s.
  - exists s. unfold reached, abortedWithin.
    destruct (pollsLeft env s); simpl; rewrite ?take_nil, app_nil_r; done.
  - cbn [cordonLoop]. unfold bind at 1.
    destruct (classic_abort s) as [Hc|Ho].
    + rewrite isAborted_closed by done.
      destruct (reached_closed s e l Hc) as [-> ->].
      eexists. split; [reflexivity|]. simpl. by rewrite app_nil_r.
    + rewrite isAborted_open by done.
      unfold bind at 1, fleet at 1. cbn [trace bg polls stderr withWorld].
      fold (cordonCall e).
      destruct (Reply env (trace s) (cordonCall e)); unfold bind at 1, eprint at 1;
        cbn [trace bg polls stderr];
        match goal with |- context [cordonLoop env l ?s1] =>
          destruct (IH s1) as (s' & E & Htr & Hbg);
          destruct (reached_next s s1 e l eq_refl Ho) as [-> ->] end;
        exists s'; (split; [exact E|]); cbn [trace bg] in Htr, Hbg;
        rewrite Htr, Hbg; simpl; by rewrite <- app_assoc.
Qed.

Lemma stopLoop_abort (signal : string) (l : machineUpdateEntries) (s : St) :
  exists s',
    stopLoop env signal l s = (Done (abortedWithin env s l), s')
    /\ trace s' = trace s ++ (stopCall signal <$> reached env s l)
    /\ bg s' = bg s.
Proof.
  revert s. induction l as [|e l IH]; intros s.
  - exists s. unfold reached, abortedWithin.
    destruct (pollsLeft env s); simpl; rewrite ?take_nil, app_nil_r; done.
  - cbn [stopLoop]. unfold bind at 1.
    destruct (classic_abort s) as [Hc|Ho].
    + rewrite isAborted_closed by done.
      destruct (reached_closed s e l Hc) as [-> ->].
      eexists. split; [reflexivity|]. simpl. by rewrite app_nil_r.
    + rewrite isAborted_open by done.
      unfold bind at 1, fleet at 1. cbn [trace bg polls stderr withWorld].
      fold (stopCall signal e).
      destruct (Reply env (trace s) (stopCall signal e)).
      * unfold bind at 1, eprint at 1. cbn [trace bg polls stderr].
        match goal with |- context [stopLoop env signal l ?s1] =>
          destruct (IH s1) as (s' & E & Htr & Hbg);
          destruct (reached_next s s1 e l eq_refl Ho) as [-> ->] end.
        exists s'. split; [exact E|]. cbn [trace bg] in Htr, Hbg.
        rewrite Htr, Hbg. simpl. by rewrite <- app_assoc.
      * match goal with |- context [stopLoop env signal l ?s1] =>
          destruct (IH s1) as (s' & E & Htr & Hbg);
          destruct (reached_next s s1 e l eq_refl Ho) as [-> ->] end.
        exists s'. split; [exact E|]. cbn [trace bg] in Htr, Hbg.
        rewrite Htr, Hbg. simpl. by rewrite <- app_assoc.
Qed.

Lemma destroyLoop_abort (l : machineUpdateEntries) (s : St) :
  exists s',
    destroyLoop env l s = (Done (abortedWithin env s l), s')
    /\ trace s' = trace s ++ (destroyCall <$> reached env s l)
    /\ hangingBlueMachines (bg s')
       = hangingBlueMachines (bg s) ++ hangingAfter env (trace s) (reached env s l)
    /\ blueMachines (bg s') = blueMachines (bg s)
    /\ greenMachines (bg s') = greenMachines (bg s).
Proof.
  revert s. induction l as [|e l IH]; intros s.
  - exists s. unfold reached, abortedWithin.
    destruct (pollsLeft env s); simpl; rewrite ?take_nil; simpl; rewrite !app_nil_r; done.
  - cbn [destroyLoop]. unfold bind at 1.
    destruct (classic_abort s) as [Hc|Ho].
    + rewrite isAborted_closed by done.
      destruct (reached_closed s e l Hc) as [-> ->].
      eexists. split; [reflexivity|]. simpl. by rewrite !app_nil_r.
    + rewrite isAborted_open by done.
      unfold bind at 1, fleet at 1. cbn [trace bg polls stderr withWorld].
      fold (destroyCall e).
      destruct (Reply env (trace s) (destroyCall e)) eqn:ER.
      * unfold bind at 1, getBG at 1. unfold bind at 1, setBG at 1.
        cbn [trace bg polls stderr].
        match goal with |- context [destroyLoop env l ?s1] =>
          destruct (IH s1) as (s' & E & Htr & Hh & Hb & Hg);
          destruct (reached_next s s1 e l eq_refl Ho) as [-> ->] end.
        exists s'. split; [exact E|]. cbn [trace bg] in Htr, Hh, Hb, Hg.
        rewrite Htr, Hh, Hb, Hg. cbn [fmap list_fmap hangingAfter]. rewrite ER.
        simpl. by rewrite <- !app_assoc.
      * unfold bind at 1, eprint at 1. cbn [trace bg polls stderr].
        match goal with |- context [destroyLoop env l ?s1] =>
          destruct (IH s1) as (s' & E & Htr & Hh & Hb & Hg);
          destruct (reached_next s s1 e l eq_refl Ho) as [-> ->] end.
        exists s'. split; [exact E|]. cbn [trace bg] in Htr, Hh, Hb, Hg.
        rewrite Htr, Hh, Hb, Hg. cbn [fmap list_fmap hangingAfter]. rewrite ER.
        simpl. by rewrite <- !app_assoc.
Qed.

End Teardown.

(** X7. The teardown phases poll the abort channel once per blue machine,
    before they touch it. Each of [CordonBlueMachines], [StopBlueMachines]
    and [DestroyBlueMachines] calls the fleet for exactly the machines it
    reaches before the poll that finds the channel closed, in the order of
    the list and whatever the fleet answers, and returns [ErrAborted] when
    that poll comes before the end of the list, nil otherwise. The hanging
    list grows by the ids of the reached machines whose destroy failed. *)
Theorem teardown_stops_at_abort (env : Env) (s : St) :
  (exists s',
     CordonBlueMachines env s = (Done (abortedWithin env s (blueMachines (bg s))), s')
     /\ trace s' = (trace s ++ (cordonCall <$> reached env s (blueMachines (bg s))))%list
     /\ bg s' = bg s)
  /\ (exists s',
        StopBlueMachines env s = (Done (abortedWithin env s (blueMachines (bg s))), s')
        /\ trace s'
           = (trace s
                ++ (stopCall (stopSignal (bg s)) <$> reached env s (blueMachines (bg s))))%list
        /\ bg s' = bg s)
  /\ (exists s',
        DestroyBlueMachines env s = (Done (abortedWithin env s (blueMachines (bg s))), s')
        /\ trace s' = (trace s ++ (destroyCall <$> reached env s (blueMachines (bg s))))%list
        /\ hangingBlueMachines (bg s')
           = (hangingBlueMachines (bg s)
                ++ hangingAfter env (trace s) (reached env s (blueMachines (bg s))))%list
        /\ blueMachines (bg s') = blueMachines (bg s)
        /\ greenMachines (bg s') = greenMachines (bg s)).
Proof.
  split; [|split].
  - unfold CordonBlueMachines, bind at 1, getBG at 1. apply cordonLoop_abort.
  - unfold StopBlueMachines, bind at 1, getBG at 1. apply stopLoop_abort.
  - unfold DestroyBlueMachines, bind at 1, getBG at 1. apply destroyLoop_abort.
Qed.

(** The user aborts after the first poll of the destroy phase over m1 and
    m2: m1 is destroyed, m2 is not, and the phase returns [ErrAborted]. *)
Example destroy_aborted_after_first_machine :
  (DestroyBlueMachines (Sample_abortAfter 1) (Sample.state [Sample_a; Sample_b])).1
  = Done (Some ErrAborted)
  /\ trace (DestroyBlueMachines (Sample_abortAfter 1) (Sample.state [Sample_a; Sample_b])).2
     = [CDestroy "m1" true].
Proof. split; vm_compute; reflexivity. Qed.

(** ** The creation of the green machines *)

Section Create.

Local Open Scope list_scope.

Variable env : Env.

Let key := MachineConfigMetadataKeyFlyctlBGTag env.

Lemma stampInput_tag (ts : string) (li : LaunchInput.t) (e : machineUpdateEntry) :
  launchInput e = stampInput key ts li ->
  tagOf key e = ts /\ LaunchInput.SkipServiceRegistration (launchInput e) = true.
Proof.
  intros E. unfold tagOf. rewrite E. split; [|done].
  unfold stampInput, withMetadata, mdGet. simpl. by rewrite lookup_insert_eq.
Qed.

(** One round of the loop of [CreateGreenMachines] whose launch succeeds. *)
Lemma createLoop_step (done todo greens : machineUpdateEntries) (mach : machineUpdateEntry)
    (s : St) (r : outcome (option error)) (s' : St) :
  createLoop env done (mach :: todo) greens s = (r, s') ->
  (exists msg, r = Panic msg /\ greenMachines (bg s') = greenMachines (bg s)
               /\ trace s' = trace s)
  \/ (exists err,
        Launch env (trace s) (stampInput key (timestamp (bg s)) (launchInput mach)) = inl err
        /\ r = Done (Some err)
        /\ greenMachines (bg s') = greenMachines (bg s)
        /\ stderr s' = stderr s
        /\ trace s'
           = trace s ++ [CLaunch (stampInput key (timestamp (bg s)) (launchInput mach))])
  \/ (exists m s1,
        Launch env (trace s) (stampInput key (timestamp (bg s)) (launchInput mach)) = inr m
        /\ createLoop env (done ++ [stampEntry key (timestamp (bg s)) mach]) todo
             (greens ++ [{| leasableMachine := m;
                            launchInput :=
                              stampInput key (timestamp (bg s)) (launchInput mach) |}]) s1
           = (r, s')
        /\ greenMachines (bg s1) = greenMachines (bg s)
        /\ timestamp (bg s1) = timestamp (bg s)
        /\ blueMachines (bg s1) = done ++ stampEntry key (timestamp (bg s)) mach :: todo
        /\ stderr s1 = stderr s ++ [createdLine env m]
        /\ trace s1
           = trace s ++ [CLaunch (stampInput key (timestamp (bg s)) (launchInput mach))]).
Proof.
  intros H. cbn [createLoop] in H. unfold bind at 1, getBG at 1 in H. fold key in H.
  destruct (Config.Metadata (LaunchInput.Config (launchInput mach))) as [md|] eqn:Emd.
  - unfold mdSet in H.
    cbn [withSkipServiceRegistration LaunchInput.Config Config.Metadata] in H.
    rewrite Emd in H.
    unfold bind at 1, setBG at 1 in H. unfold bind at 1, fleetLaunch at 1 in H.
    cbn [trace bg polls stderr] in H.
    assert (Est : withMetadata (withSkipServiceRegistration (launchInput mach) true)
                    (Some (<[key := timestamp (bg s)]> md))
                  = stampInput key (timestamp (bg s)) (launchInput mach)).
    { unfold stampInput. by rewrite Emd. }
    rewrite Est in H.
    destruct (Launch env (trace s) (stampInput key (timestamp (bg s)) (launchInput mach)))
      as [err|m] eqn:EL.
    + right. left. exists err. unfold ret in H. by simplify_eq.
    + right. right. unfold bind at 1, eprint at 1 in H. cbn [trace bg polls stderr] in H.
      eexists m, _. split; [done|]. split; [exact H|].
      cbn [bg trace]. unfold stampEntry. rewrite <- Est. done.
  - left. unfold mdSet in H.
    cbn [withSkipServiceRegistration LaunchInput.Config Config.Metadata] in H.
    rewrite Emd in H. unfold bind, setBG, panic in H.
    eexists. by simplify_eq.
Qed.

Lemma createLoop_failure (done todo greens : machineUpdateEntries) (s s' : St)
    (err : error) :
  createLoop env done todo greens s = (Done (Some err), s') ->
  greenMachines (bg s') = greenMachines (bg s)
  /\ exists ms,
       (length ms < length todo)%nat
       /\ stderr s' = stderr s ++ (createdLine env <$> ms)
       /\ trace s'
          = trace s
              ++ (CLaunch
                    <$> take (S (length ms))
                          (stampInput key (timestamp (bg s)) <$> (launchInput <$> todo))).
Proof.
  revert done greens s. induction todo as [|mach todo IH]; intros done greens s H.
  - simpl in H. unfold bind, getBG, setBG, ret in H. discriminate H.
  - apply createLoop_step in H
      as [(msg & Hr & _)|[(e & EL & Hr & Hg & Herr & Htr)
                          |(m & s1 & EL & H & Hg & Hts & Hb1 & Herr & Htr)]].
    + discriminate Hr.
    + split; [exact Hg|]. exists []. split; [simpl; lia|].
      split; [by rewrite Herr, app_nil_r | by rewrite Htr].
    + apply IH in H as [Hg' (ms & Hn & Herr' & Htr')]. split; [congruence|].
      exists (m :: ms). split; [simpl; lia|]. split.
      * rewrite Herr', Herr. simpl. by rewrite <- app_assoc.
      * rewrite Htr', Htr, Hts. simpl. by rewrite <- app_assoc.
Qed.

Lemma createLoop_success (done todo greens : machineUpdateEntries) (s s' : St) :
  createLoop env done todo greens s = (Done None, s') ->
  blueMachines (bg s') = match todo with
                         | [] => blueMachines (bg s)
                         | _ => done ++ (stampEntry key (timestamp (bg s)) <$> todo)
                         end
  /\ exists news,
       greenMachines (bg s') = greens ++ news
       /\ launchInput <$> news
          = stampInput key (timestamp (bg s)) <$> (launchInput <$> todo)
       /\ Forall (fun g => exists tr, Launch env tr (launchInput g) = inr (leasableMachine g))
            news.
Proof.
  revert done greens s. induction todo as [|mach todo IH]; intros done greens s H.
  - simpl in H. unfold bind, getBG, setBG, ret in H. simplify_eq. simpl.
    split; [done|]. exists []. by rewrite app_nil_r.
  - apply createLoop_step in H
      as [(msg & Hr & _)|[(e & EL & Hr & Hg & Herr & Htr)
                          |(m & s1 & EL & H & Hg & Hts & Hb1 & Herr & Htr)]];
      try discriminate Hr.
    apply IH in H as [Hb (news & Hgs & Hli & Hall)].
    split.
    + rewrite Hb. destruct todo as [|x todo]; [exact Hb1|].
      rewrite Hts. cbn [fmap list_fmap]. by rewrite <- app_assoc.
    + exists ({| leasableMachine := m;
                 launchInput := stampInput key (timestamp (bg s)) (launchInput mach) |}
              :: news).
      split; [by rewrite Hgs, <- app_assoc|]. split.
      * cbn [fmap list_fmap]. rewrite Hli, Hts. done.
      * constructor; [by exists (trace s) | done].
Qed.

End Create.

(** X8. When a launch fails, [CreateGreenMachines] returns the error of the
    fleet without recording the machines it has launched before: the
    "Created machine" lines and the launches are there, the list of green
    machines is as it was. A rollback for an error other than the destroy
    sentinel then destroys nothing and leaves those machines running. *)
Theorem CreateGreenMachines_failure_strands_machines (env : Env) (s s' : St)
    (err : error) :
  CreateGreenMachines env s = (Done (Some err), s') ->
  greenMachines (bg s) = [] ->
  exists ms,
    (length ms < length (blueMachines (bg s)))%nat
    /\ stderr s' = (stderr s ++ (createdLine env <$> ms))%list
    /\ trace s'
       = (trace s
            ++ (CLaunch
                  <$> take (S (length ms))
                        (stampInput (MachineConfigMetadataKeyFlyctlBGTag env)
                                    (timestamp (bg s))
                           <$> (launchInput <$> blueMachines (bg s)))))%list
    /\ greenMachines (bg s') = []
    /\ forall err',
         Str.contains (Error (Quote env) err') (Error (Quote env) ErrDestroyBlueMachines)
         = false ->
         Rollback env err' s' = (Done None, s').
Proof.
  intros H Hgreen. unfold CreateGreenMachines, bind at 1, getBG at 1 in H.
  apply createLoop_failure in H as [Hg (ms & Hlen & Herr & Htr)].
  exists ms. split; [exact Hlen|]. split; [exact Herr|]. split; [exact Htr|].
  split; [congruence|]. intros err' Hc.
  unfold Rollback. rewrite Hc. unfold bind, getBG. rewrite Hg, Hgreen. reflexivity.
Qed.

(** The launch for m1 succeeds, the one for m2 fails: g-m1 runs, and no
    rollback will know it. *)
Lemma CreateGreenMachines_failure_strands_machines_witness :
  exists ms,
    (length ms < 2)%nat
    /\ stderr ((CreateGreenMachines Sample_secondLaunchFails
          (Sample.state [Sample_a; Sample_b])).2)
       = ([] ++ (createdLine Sample_secondLaunchFails <$> ms))%list
    /\ trace ((CreateGreenMachines Sample_secondLaunchFails
          (Sample.state [Sample_a; Sample_b])).2)
       = ([] ++ (CLaunch
                   <$> take (S (length ms))
                         (stampInput Sample.tagKey "300"
                            <$> (launchInput <$> [Sample_a; Sample_b]))))%list
    /\ greenMachines (bg ((CreateGreenMachines Sample_secondLaunchFails
          (Sample.state [Sample_a; Sample_b])).2)) = []
    /\ forall err',
         Str.contains (Error (fun s => s) err') (Error (fun s => s) ErrDestroyBlueMachines)
         = false ->
         Rollback Sample_secondLaunchFails err'
           ((CreateGreenMachines Sample_secondLaunchFails
          (Sample.state [Sample_a; Sample_b])).2)
         = (Done None,
            (CreateGreenMachines Sample_secondLaunchFails
          (Sample.state [Sample_a; Sample_b])).2).
Proof.
  apply (CreateGreenMachines_failure_strands_machines Sample_secondLaunchFails
           (Sample.state [Sample_a; Sample_b]) _ (ENew "no capacity in region")).
  - vm_compute. reflexivity.
  - reflexivity.
Defined.

Lemma Forall_fmap_eq {A B} (f : A -> B) (g : B -> B) (P : A -> Prop) (l la : list A) :
  f <$> l = g <$> (f <$> la) -> (forall x, (exists y, f x = g y) -> P x) -> Forall P l.
Proof.
  revert la. induction l as [|x l IH]; intros la E HP; [constructor|].
  destruct la as [|y la]; [discriminate|]. simpl in E. injection E as Ex El.
  constructor; [apply HP; by exists (f y) | by apply (IH la)].
Qed.

(** X9. When [CreateGreenMachines] returns nil, the blue entries are the
    ones it found with their launch inputs stamped (the deployment's
    timestamp as tag, service registration skipped); there is one green
    entry per blue entry, in the same order, with that same launch input
    and the machine the fleet answered for it, whatever the list of green
    machines was before. *)
Theorem CreateGreenMachines_pairs_green_with_blue (env : Env) (s s' : St) :
  let key := MachineConfigMetadataKeyFlyctlBGTag env in
  CreateGreenMachines env s = (Done None, s') ->
  blueMachines (bg s') = stampEntry key (timestamp (bg s)) <$> blueMachines (bg s)
  /\ leasableMachine <$> blueMachines (bg s') = leasableMachine <$> blueMachines (bg s)
  /\ launchInput <$> greenMachines (bg s') = launchInput <$> blueMachines (bg s')
  /\ Forall (fun g => exists tr, Launch env tr (launchInput g) = inr (leasableMachine g))
       (greenMachines (bg s'))
  /\ Forall (fun g => tagOf key g = timestamp (bg s)
                      /\ LaunchInput.SkipServiceRegistration (launchInput g) = true)
       (greenMachines (bg s')).
Proof.
  intros key H. unfold CreateGreenMachines, bind at 1, getBG at 1 in H.
  apply createLoop_success in H as [Hb (news & Hg & Hli & Hall)].
  rewrite app_nil_l in Hg. fold key in Hb, Hli.
  assert (Hblue : blueMachines (bg s')
                  = stampEntry key (timestamp (bg s)) <$> blueMachines (bg s)).
  { rewrite Hb. by destruct (blueMachines (bg s)). }
  split; [exact Hblue|]. split.
  { rewrite Hblue, <- list_fmap_compose. apply list_fmap_ext. by intros ? [] ?. }
  split.
  { rewrite Hg, Hli, Hblue, <- !list_fmap_compose. apply list_fmap_ext. by intros ? [] ?. }
  split; [by rewrite Hg|].
  rewrite Hg. eapply Forall_fmap_eq; [exact Hli|].
  intros g [li Hgli]. by apply (stampInput_tag env _ li).
Qed.

Lemma CreateGreenMachines_pairs_green_with_blue_witness :
  let s' := (CreateGreenMachines Sample.quiet (Sample.state [Sample_a; Sample_b])).2 in
  blueMachines (bg s') = stampEntry Sample.tagKey "300" <$> [Sample_a; Sample_b]
  /\ leasableMachine <$> blueMachines (bg s') = leasableMachine <$> [Sample_a; Sample_b]
  /\ launchInput <$> greenMachines (bg s') = launchInput <$> blueMachines (bg s')
  /\ Forall (fun g => exists tr,
               Launch Sample.quiet tr (launchInput g) = inr (leasableMachine g))
       (greenMachines (bg s'))
  /\ Forall (fun g => tagOf Sample.tagKey g = "300"
                      /\ LaunchInput.SkipServiceRegistration (launchInput g) = true)
       (greenMachines (bg s')).
Proof.
  intros s'.
  apply (CreateGreenMachines_pairs_green_with_blue Sample.quiet
           (Sample.state [Sample_a; Sample_b]) s').
  vm_compute. reflexivity.
Defined.

(** ** One generation only *)

Section OneGeneration.

Local Open Scope list_scope.

Variable env : Env.

Let key := MachineConfigMetadataKeyFlyctlBGTag env.

Lemma tagged_hasMetadata (t : string) (e : machineUpdateEntry) :
  t <> "" -> tagOf key e = t -> hasMetadata e /\ normalizeTag key e = e.
Proof.
  intros Ht E. unfold tagOf in E. unfold hasMetadata, normalizeTag. rewrite E.
  destruct (String.eqb_spec t ""); [done|]. split; [|done].
  destruct (Config.Metadata (LaunchInput.Config (launchInput e))); [by eexists|].
  simpl in E. congruence.
Qed.

Lemma one_tag_set (t : string) (blue : machineUpdateEntries) :
  blue <> [] -> Forall (fun e => tagOf key e = t) blue ->
  (list_to_set (tagOf key <$> blue) ∪ ∅ : gset string) = {[ t ]}.
Proof.
  intros Hne Hall. apply set_eq. intros k.
  rewrite elem_of_union, elem_of_list_to_set, list_elem_of_fmap, elem_of_singleton.
  rewrite Forall_forall in Hall. split.
  - intros [(e & -> & He)|Hemp]; [by apply Hall | by apply elem_of_empty in Hemp].
  - intros ->. left. destruct blue as [|e blue]; [done|].
    exists e. split; [symmetry; apply Hall|]; by left.
Qed.

(** The sweep over machines of one generation. *)
Lemma sweep_one_generation (t : string) (s : St) :
  t <> "" -> blueMachines (bg s) <> [] ->
  Forall (fun e => tagOf key e = t) (blueMachines (bg s)) ->
  exists s',
    DeleteZombiesFromPreviousDeployment env s = (Done None, s')
    /\ trace s' = trace s
    /\ blueMachines (bg s') = blueMachines (bg s)
    /\ greenMachines (bg s') = greenMachines (bg s)
    /\ stderr s'
       = stderr s
           ++ [("  No hanging machines from a failed previous deployment" ++ newline)%string].
Proof.
  intros Ht Hne Hall.
  assert (Hmd : Forall hasMetadata (blueMachines (bg s))).
  { eapply Forall_impl; [exact Hall|]. intros e He. by apply (tagged_hasMetadata t). }
  assert (Hnorm : normalizeTag key <$> blueMachines (bg s) = blueMachines (bg s)).
  { rewrite <- (list_fmap_id (blueMachines (bg s))) at 2. apply Forall_fmap_ext_1.
    eapply Forall_impl; [exact Hall|]. intros e He. by apply (tagged_hasMetadata t). }
  unfold DeleteZombiesFromPreviousDeployment, bind at 1, getBG at 1. fold key.
  unfold key at 1. rewrite (collectTags_normalize env _ ∅ Hmd). fold key.
  rewrite Hnorm, (one_tag_set t) by done. rewrite size_singleton.
  cbn [Nat.eqb]. unfold bind, setBG, eprint, ret. cbn [bg trace polls stderr].
  eexists. split; [reflexivity|]. cbn [bg trace polls stderr].
  by destruct (bg s).
Qed.

End OneGeneration.

(** X10. The tag that [CreateGreenMachines] writes for a deployment built
    by [BlueGreenStrategy] at second [now] reads back as [now] on every
    green machine; and the sweep of a later deployment whose blue machines
    carry the tags of these green machines finds one generation: it
    returns nil, destroys nothing and keeps every machine. *)
Theorem green_generation_survives_next_sweep (env : Env) (appName stopSignal : string)
    (blue : machineUpdateEntries) (now : Z) (s s' : St) :
  let key := MachineConfigMetadataKeyFlyctlBGTag env in
  bg s = BlueGreenStrategy appName stopSignal blue now ->
  Strconv.min_int <= now <= Strconv.max_int ->
  blue <> [] ->
  CreateGreenMachines env s = (Done None, s') ->
  Forall (fun g => Strconv.Atoi (tagOf key g) = inr now) (greenMachines (bg s'))
  /\ forall next,
       tagOf key <$> blueMachines (bg next) = tagOf key <$> greenMachines (bg s') ->
       exists next',
         DeleteZombiesFromPreviousDeployment env next = (Done None, next')
         /\ trace next' = trace next
         /\ blueMachines (bg next') = blueMachines (bg next).
Proof.
  intros key Hbg Hnow Hne H.
  unfold CreateGreenMachines, bind at 1, getBG at 1 in H.
  apply createLoop_success in H as [_ (news & Hg & Hli & _)].
  rewrite app_nil_l in Hg. fold key in Hli.
  assert (Hts : timestamp (bg s) = Strconv.Sprint now) by (by rewrite Hbg).
  assert (Hblue : blueMachines (bg s) = blue) by (by rewrite Hbg).
  assert (Htags : Forall (fun g => tagOf key g = Strconv.Sprint now) news).
  { eapply Forall_fmap_eq; [exact Hli|]. intros g [li Hgli].
    rewrite <- Hts. by apply (stampInput_tag env _ li). }
  assert (Hlen : length news = length blue).
  { rewrite <- (length_fmap launchInput), Hli, !length_fmap. by rewrite Hblue. }
  assert (Hnonempty : Strconv.Sprint now <> "").
  { intros E. pose proof (Atoi_Sprint now Hnow) as A. rewrite E in A. discriminate A. }
  split.
  - rewrite Hg. eapply Forall_impl; [exact Htags|].
    intros g ->. by apply Atoi_Sprint.
  - intros next Hsame. rewrite Hg in Hsame.
    destruct (sweep_one_generation env (Strconv.Sprint now) next Hnonempty)
      as (next' & E & Htr & Hb & _).
    + intros E. rewrite E in Hsame. destruct news; [|discriminate].
      destruct blue; [done | discriminate].
    + assert (HF : Forall (fun t => t = Strconv.Sprint now)
                     (tagOf key <$> blueMachines (bg next))).
      { rewrite Hsame. apply Forall_fmap. exact Htags. }
      apply Forall_fmap in HF. exact HF.
    + by exists next'.
Qed.

Lemma green_generation_survives_next_sweep_witness :
  let s' := (CreateGreenMachines Sample.quiet Sample_fresh).2 in
  Forall (fun g => Strconv.Atoi (tagOf Sample.tagKey g) = inr 1700000000)
    (greenMachines (bg s'))
  /\ forall next,
       tagOf Sample.tagKey <$> blueMachines (bg next)
       = tagOf Sample.tagKey <$> greenMachines (bg s') ->
       exists next',
         DeleteZombiesFromPreviousDeployment Sample.quiet next = (Done None, next')
         /\ trace next' = trace next
         /\ blueMachines (bg next') = blueMachines (bg next).
Proof.
  intros s'.
  apply (green_generation_survives_next_sweep Sample.quiet "app" "SIGINT"
           [Sample_a; Sample_b] 1700000000 Sample_fresh s').
  - reflexivity.
  - vm_compute. split; discriminate.
  - discriminate.
  - vm_compute. reflexivity.
Defined.

(** ** The entry checks of the deployment *)

(** X11. [Deploy] gives up before it writes a line or asks the fleet for
    anything in three cases: the deployment is already aborted
    ([ErrAborted]), the policy query fails (its error comes back as it is,
    not wrapped), and the policy says no ([ErrOrgLimit]). The state is as
    before, one poll of the abort channel apart. *)
Theorem Deploy_gate_refuses_without_effect (env : Env) (s : St) :
  (abortClosed env s -> Deploy env s = (Done (Some ErrAborted), polled s))
  /\ (~ abortClosed env s ->
      forall err,
        CanPerformBluegreenDeployment env (appName (bg s)) = inl err ->
        Deploy env s = (Done (Some err), polled s))
  /\ (~ abortClosed env s ->
      CanPerformBluegreenDeployment env (appName (bg s)) = inr false ->
      Deploy env s = (Done (Some ErrOrgLimit), polled s)).
Proof.
  unfold Deploy, deploySwitch, andThen, deployPrepare, unlessAborted.
  split; [|split].
  - intros Hclosed. unfold bind. by rewrite (isAborted_closed env s Hclosed).
  - intros Hopen err Herr. unfold bind at 1 2 3.
    rewrite (isAborted_open env s Hopen). unfold bind at 1, getBG at 1.
    change (bg (withWorld s (trace s) (S (polls s)) (stderr s))) with (bg s).
    by rewrite Herr.
  - intros Hopen Hno. unfold bind at 1 2 3.
    rewrite (isAborted_open env s Hopen). unfold bind at 1, getBG at 1.
    change (bg (withWorld s (trace s) (S (polls s)) (stderr s))) with (bg s).
    by rewrite Hno.
Qed.

Lemma Deploy_gate_refuses_without_effect_witness :
  Deploy Sample_denied (Sample.state [Sample_a; Sample_b])
  = (Done (Some ErrOrgLimit), polled (Sample.state [Sample_a; Sample_b])).
Proof.
  apply (proj2 (proj2 (Deploy_gate_refuses_without_effect Sample_denied
                         (Sample.state [Sample_a; Sample_b])))).
  - intros (n & E & _). discriminate E.
  - reflexivity.
Defined.

(** ** The text that [Rollback] looks for *)

Section SentinelText.

Lemma has_prefix_app (p s : string) : Str.has_prefix p (p ++ s) = true.
Proof.
  induction p as [|a p IH]; [done|]. simpl. by rewrite Ascii.eqb_refl.
Qed.

Lemma contains_here (p s : string) : Str.contains (p ++ s) p = true.
Proof.
  destruct (p ++ s)%string eqn:E; cbn [Str.contains];
    rewrite <- E, has_prefix_app; done.
Qed.

Lemma contains_later (a s p : string) :
  Str.contains s p = true -> Str.contains (a ++ s) p = true.
Proof.
  intros H. induction a as [|c a IH]; [exact H|].
  change (String c a ++ s)%string with (String c (a ++ s)). cbn [Str.contains].
  by destruct (Str.has_prefix p (String c (a ++ s))).
Qed.

End SentinelText.

(** X12. [Rollback] takes for a failure of the destroy phase every error
    that [Deploy] wraps in [ErrDestroyBlueMachines], whatever its cause, and
    also every error of another phase whose cause carries that text: it
    then prints the guidance, returns nil and destroys no green machine. *)
Theorem Rollback_recognises_wrapped_text (env : Env) (s : St) :
  (forall cause,
     Rollback env (wrapWith env ErrDestroyBlueMachines cause) s = (Done None, guided s))
  /\ (forall sentinel err,
        Str.contains (Error (Quote env) err) (Error (Quote env) ErrDestroyBlueMachines)
        = true ->
        Rollback env (wrapWith env sentinel err) s = (Done None, guided s)).
Proof.
  assert (Hrun : forall e,
             Str.contains (Error (Quote env) e) (Error (Quote env) ErrDestroyBlueMachines)
             = true ->
             Rollback env e s = (Done None, guided s)).
  { intros e Hc. unfold Rollback. rewrite Hc.
    unfold bind, getBG, eprint, ret, guided, withWorld, hangingGuidance. simpl.
    by rewrite <- app_assoc. }
  split.
  - intros cause. apply Hrun. unfold wrapWith. cbn [Error]. apply contains_here.
  - intros sentinel err Hc. apply Hrun. unfold wrapWith. cbn [Error].
    apply contains_later. by apply (contains_later ": ").
Qed.

(** A launch error that quotes the destroy sentinel makes the rollback of a
    failed creation leave the green machines alone. *)
Lemma Rollback_recognises_wrapped_text_witness :
  Rollback Sample.quiet
    (wrapWith Sample.quiet ErrCreateGreenMachine
       (ENew "upstream said: failed to destroy previous deployment"))
    Sample_created
  = (Done None, guided Sample_created).
Proof.
  apply (proj2 (Rollback_recognises_wrapped_text Sample.quiet Sample_created)).
  vm_compute. reflexivity.
Defined.

(** ** More on the sweep *)

Section SweepMore.

Local Open Scope list_scope.

Variable env : Env.

Let key := MachineConfigMetadataKeyFlyctlBGTag env.

Lemma tagSet_spec (blue : machineUpdateEntries) (t : string) :
  t ∈ tagSet key blue <-> exists e, e ∈ blue /\ tagOf key e = t.
Proof.
  unfold tagSet. rewrite elem_of_union, elem_of_list_to_set, list_elem_of_fmap. split.
  - intros [(e & -> & He)|Hemp]; [by exists e | by apply elem_of_empty in Hemp].
  - intros (e & He & <-). left. by exists e.
Qed.



Lemma parseAll_inr (l : list string) (numbers : list Z) :
  parseAll l = inr numbers -> Forall2 (fun t n => Strconv.Atoi t = inr n) l numbers.
Proof.
  revert numbers. induction l as [|x l IH]; intros numbers H.
  - simpl in H. simplify_eq. constructor.
  - cbn [parseAll] in H. destruct (Strconv.Atoi x) as [ne|n] eqn:Ex; [discriminate|].
    destruct (parseAll l) as [e|ns]; [discriminate|]. simplify_eq.
    constructor; [done | by apply IH].
Qed.

Lemma collectTags_nil (blue : machineUpdateEntries) (tags : gset string) :
  (exists e, e ∈ blue /\ Config.Metadata (LaunchInput.Config (launchInput e)) = None) ->
  collectTags key blue tags = None.
Proof.
  revert tags. induction blue as [|x blue IH]; intros tags (e & Hin & Hnil).
  - by apply elem_of_nil in Hin.
  - cbn [collectTags]. apply elem_of_cons in Hin as [<-|Hin].
    + by rewrite Hnil.
    + destruct (if String.eqb _ _ then _ else _) as [md1|]; [|done].
      rewrite IH; [done|]. by exists e.
Qed.

Lemma normalizeTag_nonempty (e : machineUpdateEntry) :
  hasMetadata e -> tagOf key (normalizeTag key e) <> "".
Proof.
  intros [md Hmd]. unfold normalizeTag. rewrite Hmd.
  destruct (String.eqb_spec (mdGet (Some md) key) "") as [E|E].
  - unfold tagOf, mdGet. simpl. by rewrite lookup_insert_eq.
  - unfold tagOf. by rewrite Hmd.
Qed.

Lemma retryDo_bg (n : nat) (c : FleetCall) (errs : list error) (s : St) :
  bg (retryDo n (fleet env c) errs s).2 = bg s.
Proof.
  revert errs s. induction n as [|n IH]; intros errs s; [done|].
  cbn [retryDo]. unfold bind at 1, fleet at 1.
  destruct (Reply env (trace s) c); [|done]. by rewrite IH.
Qed.

Lemma destroyZombies_bg (zombies : gset string) (blue : machineUpdateEntries) (s : St) :
  bg (destroyZombies env zombies blue s).2 = bg s.
Proof.
  revert s. induction blue as [|mach blue IH]; intros s; [done|].
  cbn [destroyZombies]. unfold bind at 1, isAborted at 1.
  destruct (match abortAfter env with
            | Some n => (n <=? polls s)%nat
            | None => false
            end); [done|].
  destruct (bool_decide _).
  - unfold bind at 1.
    match goal with |- context [retryDo 3 ?f [] ?s1] =>
      pose proof (retryDo_bg 3 (CDestroy (Machine.ID (leasableMachine mach)) true) [] s1)
        as H2;
      destruct (retryDo 3 f [] s1) as [[[e|]|msg|] s2] end;
      cbn [snd] in H2 |- *; try exact H2.
    unfold bind at 1, eprint at 1. by rewrite IH.
  - by rewrite IH.
Qed.

(** What a sweep that returns nil leaves in the blue list. *)
Lemma sweep_inversion (s s' : St) :
  Forall hasMetadata (blueMachines (bg s)) ->
  DeleteZombiesFromPreviousDeployment env s = (Done None, s') ->
  let blue := normalizeTag key <$> blueMachines (bg s) in
  (size (tagSet key blue) = 1%nat /\ blueMachines (bg s') = blue)
  \/ (exists numbers n0 rest,
        parseAll (elements (tagSet key blue)) = inr numbers
        /\ sortInts numbers = n0 :: rest
        /\ blueMachines (bg s')
           = nonZombies key (tagSet key blue ∖ {[ Strconv.Sprint n0 ]}) blue).
Proof.
  intros Hmd H blue.
  unfold DeleteZombiesFromPreviousDeployment, bind at 1, getBG at 1 in H.
  rewrite (collectTags_normalize env) in H by done.
  fold key blue in H. fold (tagSet key blue) in H.
  unfold bind at 1, setBG at 1 in H.
  destruct (Nat.eqb_spec (size (tagSet key blue)) 1) as [H1|H1].
  - left. split; [done|]. unfold bind, eprint, ret in H. by simplify_eq.
  - right. unfold getZombies in H.
    destruct (parseAll (elements (tagSet key blue))) as [e|numbers] eqn:Eparse;
      [discriminate H|].
    destruct (sortInts numbers) as [|n0 rest] eqn:Esort; [discriminate H|].
    exists numbers, n0, rest. split; [done|]. split; [done|].
    unfold bind at 1 in H.
    match type of H with context [destroyZombies env ?z ?b ?s1] =>
      pose proof (destroyZombies_bg z b s1) as Hbg;
      destruct (destroyZombies env z b s1) as [[[e|]|msg|] s2] end;
      try discriminate H.
    unfold bind, getBG, setBG, ret in H. by simplify_eq.
Qed.

End SweepMore.



(** X14. A blue entry whose metadata map is nil makes the sweep panic on
    the write of "-1", whatever the other entries are, before the fleet is
    asked for anything; and so does [Deploy], after its first line. *)
Theorem sweep_nil_metadata_panics (env : Env) (s : St) :
  (exists e, e ∈ blueMachines (bg s)
             /\ Config.Metadata (LaunchInput.Config (launchInput e)) = None) ->
  ((DeleteZombiesFromPreviousDeployment env s).1 = Panic "assignment to entry in nil map"
   /\ trace (DeleteZombiesFromPreviousDeployment env s).2 = trace s)
  /\ (~ abortClosed env s ->
      CanPerformBluegreenDeployment env (appName (bg s)) = inr true ->
      (Deploy env s).1 = Panic "assignment to entry in nil map"
      /\ trace (Deploy env s).2 = trace s).
Proof.
  intros Hnil.
  assert (Hsweep : forall s1, bg s1 = bg s ->
             DeleteZombiesFromPreviousDeployment env s1
             = (Panic "assignment to entry in nil map", s1)).
  { intros s1 Hbg. unfold DeleteZombiesFromPreviousDeployment, bind, getBG.
    rewrite Hbg, (collectTags_nil env) by done. reflexivity. }
  split; [by rewrite Hsweep|].
  intros Hopen Hcan.
  assert (Hd : exists s1,
             Deploy env s = (Panic "assignment to entry in nil map", s1)
             /\ trace s1 = trace s).
  { unfold Deploy, deploySwitch, andThen, deployPrepare, unlessAborted.
    unfold bind at 1 2 3. rewrite (isAborted_open env s Hopen).
    unfold bind at 1, getBG at 1.
    change (bg (withWorld s (trace s) (S (polls s)) (stderr s))) with (bg s).
    rewrite Hcan. cbn [negb]. unfold bind at 1, eprint at 1. unfold bind at 1.
    rewrite Hsweep by reflexivity. eexists. split; reflexivity. }
  destruct Hd as (s1 & -> & Htr). by split.
Qed.

Lemma sweep_nil_metadata_panics_witness :
  (DeleteZombiesFromPreviousDeployment Sample.quiet
     (Sample.state [Sample_m1; Sample_noMetadata])).1
  = Panic "assignment to entry in nil map"
  /\ trace (DeleteZombiesFromPreviousDeployment Sample.quiet
              (Sample.state [Sample_m1; Sample_noMetadata])).2
     = trace (Sample.state [Sample_m1; Sample_noMetadata]).
Proof.
  apply (proj1 (sweep_nil_metadata_panics Sample.quiet
                  (Sample.state [Sample_m1; Sample_noMetadata])
                  (ex_intro _ Sample_noMetadata
                     (conj (list_elem_of_further _ _ _ (list_elem_of_here _ _)) eq_refl)))).
Defined.

(** X15. A sweep that has returned nil has nothing left to do: when the
    tags are decimal numbers in the form that [fmt.Sprint] writes, a second
    sweep over the list it left returns nil, asks the fleet for nothing and
    keeps every machine. *)
Theorem sweep_twice_is_sweep_once (env : Env) (s s' : St) :
  let key := MachineConfigMetadataKeyFlyctlBGTag env in
  Forall hasMetadata (blueMachines (bg s)) ->
  Forall (fun e => canonicalTag (tagOf key e)) (normalizeTag key <$> blueMachines (bg s)) ->
  DeleteZombiesFromPreviousDeployment env s = (Done None, s') ->
  exists s'',
    DeleteZombiesFromPreviousDeployment env s' = (Done None, s'')
    /\ trace s'' = trace s'
    /\ blueMachines (bg s'') = blueMachines (bg s').
Proof.
  intros key Hmd Hcanon H.
  set (blue := normalizeTag key <$> blueMachines (bg s)) in *.
  assert (Hnonempty : forall e, e ∈ blue -> tagOf key e <> "").
  { intros e He. apply list_elem_of_fmap in He as (e0 & -> & He0).
    apply normalizeTag_nonempty. rewrite Forall_forall in Hmd. by apply Hmd. }
  assert (Hone : forall t l,
             t <> "" -> l <> [] -> blueMachines (bg s') = l ->
             Forall (fun e => tagOf key e = t) l ->
             exists s'',
               DeleteZombiesFromPreviousDeployment env s' = (Done None, s'')
               /\ trace s'' = trace s'
               /\ blueMachines (bg s'') = blueMachines (bg s')).
  { intros t l Ht Hl El Hall.
    destruct (sweep_one_generation env t s' Ht) as (s'' & E & Htr & Hb & _).
    - by rewrite El.
    - by rewrite El.
    - by exists s''. }
  apply (sweep_inversion env) in H; [|done]. fold key blue in H.
  destruct H as [[Hsize Hb]|(numbers & n0 & rest & Eparse & Esort & Hb)].
  - apply size_1_elem_of in Hsize as [t Ht]. apply leibniz_equiv in Ht.
    assert (Hall : Forall (fun e => tagOf key e = t) blue).
    { apply Forall_forall. intros e He.
      assert (Hin : tagOf key e ∈ tagSet key blue) by (apply tagSet_spec; eauto).
      rewrite Ht in Hin. by apply elem_of_singleton in Hin. }
    assert (Hin : t ∈ tagSet key blue) by (rewrite Ht; by apply elem_of_singleton).
    apply tagSet_spec in Hin as (e & He & Et).
    apply (Hone t blue); [|by intros E; rewrite E in He; apply elem_of_nil in He|done|done].
    rewrite <- Et. by apply Hnonempty.
  - assert (Hn0 : n0 ∈ numbers).
    { apply (elem_of_Permutation_proper _ _ _ (merge_sort_Permutation Z.le numbers)).
      unfold sortInts in Esort. rewrite Esort. left. }
    apply parseAll_inr in Eparse.
    destruct (Forall2_elem_of_r _ _ _ n0 Eparse Hn0) as (t & Ht & Hatoi).
    apply elem_of_elements, tagSet_spec in Ht as (e & He & <-).
    assert (Etag : tagOf key e = Strconv.Sprint n0).
    { rewrite Forall_forall in Hcanon.
      by apply (canonicalTag_value (tagOf key e) n0 (Hcanon e He)). }
    apply (Hone (Strconv.Sprint n0) (blueMachines (bg s'))); [| |done|].
    + rewrite <- Etag. by apply Hnonempty.
    + rewrite Hb. intros Hnil.
      assert (Hin : e ∈ nonZombies key (tagSet key blue ∖ {[Strconv.Sprint n0]}) blue).
      { unfold nonZombies. apply list_elem_of_filter. split; [|done].
        rewrite elem_of_difference, elem_of_singleton. tauto. }
      rewrite Hnil in Hin. by apply elem_of_nil in Hin.
    + rewrite Hb. apply Forall_forall. intros x Hx.
      unfold nonZombies in Hx. apply list_elem_of_filter in Hx as [Hx Hxin].
      rewrite elem_of_difference, elem_of_singleton in Hx.
      destruct (decide (tagOf key x = Strconv.Sprint n0)) as [|Hne]; [done|].
      exfalso. apply Hx. split; [|done]. apply tagSet_spec. eauto.
Qed.

Lemma sweep_twice_is_sweep_once_witness :
  exists s'',
    DeleteZombiesFromPreviousDeployment Sample.quiet
      (DeleteZombiesFromPreviousDeployment Sample.quiet
         (Sample.state [Sample_m1; Sample_m2; Sample_m3])).2
    = (Done None, s'')
    /\ trace s''
       = trace (DeleteZombiesFromPreviousDeployment Sample.quiet
                  (Sample.state [Sample_m1; Sample_m2; Sample_m3])).2
    /\ blueMachines (bg s'')
       = blueMachines (bg (DeleteZombiesFromPreviousDeployment Sample.quiet
                             (Sample.state [Sample_m1; Sample_m2; Sample_m3])).2).
Proof.
  apply (sweep_twice_is_sweep_once Sample.quiet
           (Sample.state [Sample_m1; Sample_m2; Sample_m3])).
  - repeat constructor; by eexists.
  - repeat constructor.
    + exists 100. split; [vm_compute; split; discriminate | reflexivity].
    + exists 200. split; [vm_compute; split; discriminate | reflexivity].
    + exists 200. split; [vm_compute; split; discriminate | reflexivity].
  - vm_compute. reflexivity.
Defined.

(** X16. The destroy of a zombie machine is tried up to three times: the
    sweep goes on to the next machine as soon as an attempt succeeds, and
    after three failures it returns the errors of the three attempts
    together and touches no other machine. *)
Theorem zombie_destroy_is_tried_three_times (env : Env) (zombies : gset string)
    (e : machineUpdateEntry) (rest : machineUpdateEntries) (s : St) :
  let d := destroyCall e in
  ~ abortClosed env s ->
  tagOf (MachineConfigMetadataKeyFlyctlBGTag env) e ∈ zombies ->
  (Reply env (trace s) d = None ->
   destroyZombies env zombies (e :: rest) s
   = destroyZombies env zombies rest (advanced s 1 [d] [zombieLine env e]))
  /\ (forall e1,
        Reply env (trace s) d = Some e1 ->
        Reply env (trace s ++ [d])%list d = None ->
        destroyZombies env zombies (e :: rest) s
        = destroyZombies env zombies rest (advanced s 1 [d; d] [zombieLine env e]))
  /\ (forall e1 e2,
        Reply env (trace s) d = Some e1 ->
        Reply env (trace s ++ [d])%list d = Some e2 ->
        Reply env (trace s ++ [d; d])%list d = None ->
        destroyZombies env zombies (e :: rest) s
        = destroyZombies env zombies rest (advanced s 1 [d; d; d] [zombieLine env e]))
  /\ (forall e1 e2 e3,
        Reply env (trace s) d = Some e1 ->
        Reply env (trace s ++ [d])%list d = Some e2 ->
        Reply env (trace s ++ [d; d])%list d = Some e3 ->
        destroyZombies env zombies (e :: rest) s
        = (Done (Some (ERetry [e1; e2; e3])), advanced s 1 [d; d; d] [])).
Proof.
  intros d Hopen Hz.
  assert (Hhead : forall k : option error -> M (option error),
             (let* aborted := isAborted env in
              if aborted then ret (Some ErrAborted)
              else
                if bool_decide (tagOf (MachineConfigMetadataKeyFlyctlBGTag env) e ∈ zombies)
                then let* err := retryDo 3 (fleet env d) [] in k err
                else destroyZombies env zombies rest) s
             = (let* err := retryDo 3 (fleet env d) [] in k err) (polled s)).
  { intros k. unfold bind at 1. rewrite (isAborted_open env s Hopen).
    by rewrite bool_decide_eq_true_2. }
  cbn [destroyZombies]. fold (destroyCall e). fold d.
  split; [|split; [|split]].
  - intros H1. rewrite Hhead. cbn [retryDo]. unfold bind, fleet, eprint, polled.
    cbn [trace bg polls stderr withWorld]. rewrite H1. reflexivity.
  - intros e1 H1 H2. rewrite Hhead. cbn [retryDo]. unfold bind, fleet, eprint, polled.
    cbn [trace bg polls stderr withWorld]. rewrite H1. cbn [trace]. rewrite H2.
    unfold advanced, withWorld, zombieLine. cbn [trace bg polls stderr].
    by rewrite <- !app_assoc.
  - intros e1 e2 H1 H2 H3. rewrite Hhead. cbn [retryDo]. unfold bind, fleet, eprint, polled.
    cbn [trace bg polls stderr withWorld]. rewrite H1. cbn [trace]. rewrite H2.
    cbn [trace]. rewrite <- app_assoc. cbn [app]. rewrite H3.
    unfold advanced, withWorld, zombieLine. cbn [trace bg polls stderr].
    by rewrite <- !app_assoc.
  - intros e1 e2 e3 H1 H2 H3. rewrite Hhead. cbn [retryDo].
    unfold bind, fleet, eprint, polled, ret.
    cbn [trace bg polls stderr withWorld]. rewrite H1. cbn [trace]. rewrite H2.
    cbn [trace]. rewrite <- app_assoc. cbn [app]. rewrite H3.
    unfold advanced, withWorld. cbn [trace bg polls stderr].
    by rewrite <- !app_assoc, app_nil_r.
Qed.

(** The third attempt to destroy m2 succeeds; the sweep goes on to m3. *)
Lemma zombie_destroy_is_tried_three_times_witness :
  destroyZombies Sample_destroyAtThird {[ "200" ]} [Sample_m2; Sample_m3]
    (Sample.state [Sample_m1; Sample_m2; Sample_m3])
  = destroyZombies Sample_destroyAtThird {[ "200" ]} [Sample_m3]
      (advanced (Sample.state [Sample_m1; Sample_m2; Sample_m3]) 1
         [destroyCall Sample_m2; destroyCall Sample_m2; destroyCall Sample_m2]
         [zombieLine Sample_destroyAtThird Sample_m2]).
Proof.
  refine (proj1 (proj2 (proj2
            (zombie_destroy_is_tried_three_times Sample_destroyAtThird {[ "200" ]}
               Sample_m2 [Sample_m3] (Sample.state [Sample_m1; Sample_m2; Sample_m3])
               _ _)))
            (ENew "machine still active") (ENew "machine still active")
            eq_refl eq_refl eq_refl).
  - intros (n & E & _). discriminate E.
  - apply elem_of_singleton. reflexivity.
Defined.

(** ** More on check propagation *)

Section AttachMore.

Local Open Scope list_scope.

Lemma stored_app (checks : option (gmap string Check.t))
    (l1 l2 : list (Service.t * Check.t)) :
  stored (stored checks l1) l2 = stored checks (l1 ++ l2).
Proof.
  destruct l1 as [|p l1]; [done|]. destruct l2 as [|q l2].
  - by rewrite app_nil_r.
  - unfold stored. cbn [app default]. f_equal.
    by rewrite (storeAll_app _ (p :: l1) (q :: l2)).
Qed.

Lemma attachChecks_stored (service : Service.t) (cs : list Check.t)
    (checks : option (gmap string Check.t)) :
  Forall (fun c => is_Some (Check.Type_ c)) cs ->
  foldO (attachCheck service) cs checks
  = Done (stored checks (map (fun c => (service, c)) cs)).
Proof.
  revert checks. induction cs as [|c cs IH]; intros checks Hall; [done|].
  apply Forall_cons_1 in Hall as [[t Ht] Hall]. cbn [foldO].
  unfold attachCheck at 1. rewrite Ht. rewrite IH by done.
  f_equal. change (map (fun c0 => (service, c0)) (c :: cs))
    with ([(service, c)] ++ map (fun c0 => (service, c0)) cs).
  rewrite <- stored_app. f_equal. unfold stored, storeAll, typeOf. simpl. rewrite Ht.
  by destruct checks.
Qed.

Lemma attachServices_stored (services : list Service.t)
    (checks : option (gmap string Check.t)) :
  Forall typed (pairsOf services) ->
  foldO attachService services checks = Done (stored checks (pairsOf services)).
Proof.
  revert checks. induction services as [|service services IH]; intros checks Hall; [done|].
  unfold pairsOf in Hall. cbn [flat_map] in Hall. apply Forall_app in Hall as [Hs Hall].
  cbn [foldO]. unfold attachService at 1. rewrite attachChecks_stored.
  - rewrite IH by done. f_equal. unfold pairsOf. cbn [flat_map]. apply stored_app.
  - apply Forall_forall. intros c Hc. rewrite Forall_forall in Hs.
    apply (Hs (service, c)). apply list_elem_of_fmap. by exists c.
Qed.

(** What [attachEntry] returns when it returns. *)
Lemma attachEntry_inv (entry entry' : machineUpdateEntry) :
  attachEntry entry = Done entry' ->
  entry'
  = withLaunchInput entry
      (withChecks (launchInput entry)
         (stored (Config.Checks (LaunchInput.Config (launchInput entry)))
                 (serviceChecks entry))).
Proof.
  intros H. destruct (typed_or_not (serviceChecks entry)) as [Hall|Hsome].
  - unfold attachEntry in H.
    rewrite (attachServices_stored _ _ Hall) in H. by simplify_eq.
  - rewrite (attachEntry_untyped entry Hsome) in H. discriminate H.
Qed.

Lemma attachAll_inv (blue blue' : machineUpdateEntries) :
  attachAll blue = Done blue' ->
  Forall2 (fun e e' => attachEntry e = Done e') blue blue'.
Proof.
  revert blue'. induction blue as [|e blue IH]; intros blue' H.
  - simpl in H. simplify_eq. constructor.
  - cbn [attachAll] in H. destruct (attachEntry e) as [e'|msg|] eqn:Ee; try discriminate H.
    destruct (attachAll blue) as [rest'|msg|]; try discriminate H. simplify_eq.
    constructor; [done | by apply IH].
Qed.

Lemma storeAll_lookup_frame (m : gmap string Check.t) (pairs : list (Service.t * Check.t))
    (k : string) :
  k ∉ map (fun p => checkKey (typeOf p.2)) pairs -> storeAll m pairs !! k = m !! k.
Proof.
  revert m. induction pairs as [|p pairs IH]; intros m Hk; [done|].
  change (storeAll m (p :: pairs))
    with (storeAll (<[checkKey (typeOf p.2) := customCheck p.1 p.2]> m) pairs).
  cbn [map] in Hk. apply not_elem_of_cons in Hk as [Hne Hk].
  rewrite IH by done. by apply lookup_insert_ne.
Qed.

Lemma storeAll_union (m : gmap string Check.t) (pairs : list (Service.t * Check.t)) :
  storeAll m pairs
  = list_to_map (rev ((fun p => (checkKey (typeOf p.2), customCheck p.1 p.2)) <$> pairs))
      ∪ m.
Proof.
  revert m. induction pairs as [|p pairs IH]; intros m.
  - simpl. by rewrite (left_id_L ∅ (∪)).
  - change (storeAll m (p :: pairs))
      with (storeAll (<[checkKey (typeOf p.2) := customCheck p.1 p.2]> m) pairs).
    rewrite IH. cbn [fmap list_fmap rev]. rewrite list_to_map_app.
    cbn [list_to_map foldr]. rewrite <- (assoc_L (∪)). f_equal.
    rewrite insert_union_singleton_l. f_equal.
Qed.

Lemma storeAll_idem (m : gmap string Check.t) (pairs : list (Service.t * Check.t)) :
  storeAll (storeAll m pairs) pairs = storeAll m pairs.
Proof.
  rewrite (storeAll_union (storeAll m pairs)), (storeAll_union m).
  by rewrite (assoc_L (∪)), (idemp_L (∪)).
Qed.

Lemma stored_idem (checks : option (gmap string Check.t))
    (pairs : list (Service.t * Check.t)) :
  stored (stored checks pairs) pairs = stored checks pairs.
Proof.
  destruct pairs as [|p pairs]; [done|]. unfold stored. f_equal.
  apply (storeAll_idem (default ∅ checks) (p :: pairs)).
Qed.

Lemma attachEntry_idem (entry entry' : machineUpdateEntry) :
  attachEntry entry = Done entry' -> attachEntry entry' = Done entry'.
Proof.
  intros H. pose proof (attachEntry_inv _ _ H) as E.
  destruct (typed_or_not (serviceChecks entry)) as [Hall|Hsome].
  - rewrite E. unfold attachEntry. cbn [launchInput withLaunchInput withChecks
      LaunchInput.Config Config.Services Config.Checks].
    rewrite (attachServices_stored _ _ Hall).
    change (pairsOf (Config.Services (LaunchInput.Config (launchInput entry))))
      with (serviceChecks entry).
    by rewrite stored_idem.
  - rewrite (attachEntry_untyped entry Hsome) in H. discriminate H.
Qed.

Lemma attachAll_idem (blue blue' : machineUpdateEntries) :
  attachAll blue = Done blue' -> attachAll blue' = Done blue'.
Proof.
  intros H. apply attachAll_inv in H. induction H as [|e e' blue blue' He _ IH]; [done|].
  cbn [attachAll]. by rewrite (attachEntry_idem _ _ He), IH.
Qed.

End AttachMore.

(** X17. Check propagation changes nothing but the top-level checks of
    the blue entries: the fleet is not called, nothing is printed, the
    machines and every other field of the launch inputs stay as they were;
    in the checks map no key is lost, and a key that is not the
    [bg_deployments_] key of a service check keeps its check. *)
Theorem attach_changes_only_its_keys (s s' : St) :
  attachCustomTopLevelChecks s = (Done tt, s') ->
  s' = withBG s (setBlue (bg s) (blueMachines (bg s')))
  /\ Forall2
       (fun e e' =>
          leasableMachine e' = leasableMachine e
          /\ withoutChecks (launchInput e') = withoutChecks (launchInput e)
          /\ dom (topLevelChecks e) ⊆ dom (topLevelChecks e')
          /\ forall k,
               k ∉ map checkKey (checkTypes e) ->
               topLevelChecks e' !! k = topLevelChecks e !! k)
       (blueMachines (bg s)) (blueMachines (bg s')).
Proof.
  intros H. unfold attachCustomTopLevelChecks, bind, getBG in H.
  destruct (attachAll (blueMachines (bg s))) as [blue'|msg|] eqn:E; try discriminate H.
  unfold setBG in H. simplify_eq. cbn [bg blueMachines setBlue]. split; [done|].
  apply attachAll_inv in E. eapply Forall2_impl; [exact E|].
  intros e e' He. cbv beta in He.
  assert (Htyped : Forall typed (serviceChecks e)).
  { destruct (typed_or_not (serviceChecks e)) as [Hall|Hsome]; [done|].
    rewrite (attachEntry_untyped e Hsome) in He. discriminate He. }
  destruct (attachEntry_typed e Htyped) as (e'' & He'' & Hchecks).
  rewrite He in He''. simplify_eq.
  pose proof (attachEntry_inv _ _ He) as Einv.
  split; [by rewrite Einv|]. split; [by rewrite Einv|]. split.
  - rewrite Hchecks, storeAll_dom. apply union_subseteq_l.
  - intros k Hk. rewrite Hchecks. apply storeAll_lookup_frame.
    unfold checkTypes in Hk. by rewrite map_map in Hk.
Qed.

(** The check "alive" of m4 is kept. *)
Lemma attach_changes_only_its_keys_witness :
  let s' := (attachCustomTopLevelChecks (Sample.state [Sample_a; Sample_ownCheck])).2 in
  s' = withBG (Sample.state [Sample_a; Sample_ownCheck])
         (setBlue (bg (Sample.state [Sample_a; Sample_ownCheck])) (blueMachines (bg s')))
  /\ Forall2
       (fun e e' =>
          leasableMachine e' = leasableMachine e
          /\ withoutChecks (launchInput e') = withoutChecks (launchInput e)
          /\ dom (topLevelChecks e) ⊆ dom (topLevelChecks e')
          /\ forall k,
               k ∉ map checkKey (checkTypes e) ->
               topLevelChecks e' !! k = topLevelChecks e !! k)
       [Sample_a; Sample_ownCheck] (blueMachines (bg s')).
Proof.
  intros s'.
  apply (attach_changes_only_its_keys (Sample.state [Sample_a; Sample_ownCheck]) s').
  vm_compute. reflexivity.
Defined.

(** X18. Check propagation is idempotent: run again on the state it left,
    it returns that same state. *)
Theorem attach_twice_is_attach_once (s s' : St) :
  attachCustomTopLevelChecks s = (Done tt, s') ->
  attachCustomTopLevelChecks s' = (Done tt, s').
Proof.
  intros H. unfold attachCustomTopLevelChecks, bind, getBG in H.
  destruct (attachAll (blueMachines (bg s))) as [blue'|msg|] eqn:E; try discriminate H.
  unfold setBG in H. simplify_eq.
  unfold attachCustomTopLevelChecks, bind, getBG. cbn [bg blueMachines setBlue].
  by rewrite (attachAll_idem _ _ E).
Qed.

Lemma attach_twice_is_attach_once_witness :
  attachCustomTopLevelChecks
    (attachCustomTopLevelChecks (Sample.state [Sample_tcpTwice; Sample_ownCheck])).2
  = (Done tt,
     (attachCustomTopLevelChecks (Sample.state [Sample_tcpTwice; Sample_ownCheck])).2).
Proof.
  apply (attach_twice_is_attach_once (Sample.state [Sample_tcpTwice; Sample_ownCheck])).
  vm_compute. reflexivity.
Defined.

(** ** The validation of the checks *)

Section ValidationMore.

Local Open Scope list_scope.

Variable env : Env.

Lemma countChecked_spec (blue : machineUpdateEntries) (n : nat) (s : St) :
  countChecked env blue n s
  = (Done (n + length (List.filter (fun e => negb (unchecked e)) blue))%nat,
     withWorld s (trace s) (polls s) (stderr s ++ (warning <$> List.filter unchecked blue))).
Proof.
  revert n s. induction blue as [|e blue IH]; intros n s.
  - simpl. unfold ret. rewrite Nat.add_0_r, app_nil_r. by destruct s.
  - cbn [countChecked List.filter]. change (Nat.eqb (lenChecks e) 0) with (unchecked e).
    destruct (unchecked e); cbn [negb].
    + unfold bind at 1, eprint at 1. rewrite IH. unfold withWorld.
      cbn [trace bg polls stderr fmap list_fmap]. fold (warning e).
      by rewrite <- app_assoc.
    + rewrite IH. cbn [length]. f_equal. f_equal. lia.
Qed.

Lemma invalid_spec (blue : machineUpdateEntries) :
  invalid blue = true <-> blue <> [] /\ Forall (fun e => topLevelChecks e = ∅) blue.
Proof.
  unfold invalid. rewrite andb_true_iff, negb_true_iff, Nat.eqb_neq, forallb_forall.
  rewrite Forall_forall.
  assert (Hun : forall e, unchecked e = true <-> topLevelChecks e = ∅).
  { intros e. unfold unchecked, lenChecks, topLevelChecks. rewrite Nat.eqb_eq.
    destruct (Config.Checks (LaunchInput.Config (launchInput e))) as [g|]; [|done].
    apply map_size_empty_iff. }
  split.
  - intros [Hall Hlen]. split; [by destruct blue|].
    intros e He. apply Hun, Hall. by apply list_elem_of_In.
  - intros [Hne Hall]. split; [|by destruct blue].
    intros e He. apply Hun, Hall. by apply list_elem_of_In.
Qed.

Lemma filter_none {A} (f : A -> bool) (l : list A) :
  length (List.filter (fun x => negb (f x)) l) = O <-> forallb f l = true.
Proof.
  induction l as [|x l IH]; [done|]. cbn [List.filter forallb].
  destruct (f x); cbn [negb andb length]; [exact IH | done].
Qed.

Lemma storeAll_empty (m : gmap string Check.t) (pairs : list (Service.t * Check.t)) :
  storeAll m pairs = ∅ <-> m = ∅ /\ pairs = [].
Proof.
  split; [|by intros [-> ->]].
  intros H. destruct pairs as [|p pairs]; [by split|]. exfalso.
  assert (Hin : checkKey (typeOf p.2) ∈ dom (storeAll m (p :: pairs))).
  { rewrite storeAll_dom, elem_of_union, elem_of_list_to_set. right. cbn [map]. left. }
  rewrite H, dom_empty_L in Hin. by apply elem_of_empty in Hin.
Qed.

Lemma validateChecks_run (s : St) :
  validateChecks env s
  = (Done (if invalid (blueMachines (bg s)) then Some ErrValidationError else None),
     withWorld s (trace s) (polls s)
       (stderr s ++ (warning <$> List.filter unchecked (blueMachines (bg s)))
          ++ (if invalid (blueMachines (bg s)) then [needsCheck] else []))).
Proof.
  set (blue := blueMachines (bg s)).
  unfold validateChecks, bind at 1, getBG at 1. fold blue.
  unfold bind at 1. rewrite countChecked_spec. cbn [Nat.add].
  assert (E : Nat.eqb (length (List.filter (fun e => negb (unchecked e)) blue)) 0
              = forallb unchecked blue).
  { destruct (forallb unchecked blue) eqn:Ef.
    - apply Nat.eqb_eq. by apply filter_none.
    - apply Nat.eqb_neq. intros H0. apply filter_none in H0. congruence. }
  rewrite E. fold (invalid blue).
  destruct (invalid blue).
  - unfold bind, eprint, ret, withWorld. cbn [trace bg polls stderr]. fold needsCheck.
    by rewrite <- app_assoc.
  - unfold ret. by rewrite app_nil_r.
Qed.

End ValidationMore.

(** X19. The validation of [Deploy] warns once for every blue entry
    without a top-level check, in the order of the list; it fails, with
    [ErrValidationError] and one more message, exactly when the list is not
    empty and no entry has a top-level check (a nil map and an empty one
    count alike), and it never calls the fleet. *)
Theorem validation_verdict (env : Env) (s : St) :
  let blue := blueMachines (bg s) in
  validateChecks env s
  = (Done (if invalid blue then Some ErrValidationError else None),
     withWorld s (trace s) (polls s)
       (stderr s ++ (warning <$> List.filter unchecked blue)
          ++ (if invalid blue then [needsCheck] else []))%list)
  /\ (invalid blue = true <-> blue <> [] /\ Forall (fun e => topLevelChecks e = ∅) blue).
Proof.
  intros blue. split; [|apply invalid_spec].
  unfold validateChecks, bind at 1, getBG at 1. fold blue.
  unfold bind at 1. rewrite countChecked_spec. cbn [Nat.add].
  assert (E : Nat.eqb (length (List.filter (fun e => negb (unchecked e)) blue)) 0
              = forallb unchecked blue).
  { destruct (forallb unchecked blue) eqn:Ef.
    - apply Nat.eqb_eq. by apply filter_none.
    - apply Nat.eqb_neq. intros H0. apply filter_none in H0. congruence. }
  rewrite E. fold (invalid blue).
  destruct (invalid blue).
  - unfold bind, eprint, ret, withWorld. cbn [trace bg polls stderr]. fold needsCheck.
    by rewrite <- app_assoc.
  - unfold ret. by rewrite app_nil_r.
Qed.

(** X20. Check propagation and validation together: when propagation
    returns, the validation that follows fails exactly when there is a blue
    entry and no blue entry had a top-level check or a service check. *)
Theorem validation_rejects_only_checkless_apps (env : Env) (s s' : St) :
  attachCustomTopLevelChecks s = (Done tt, s') ->
  ((validateChecks env s').1 = Done (Some ErrValidationError)
   <-> blueMachines (bg s) <> []
       /\ Forall (fun e => topLevelChecks e = ∅ /\ serviceChecks e = [])
            (blueMachines (bg s)))
  /\ ((validateChecks env s').1 = Done None
      <-> ~ (blueMachines (bg s) <> []
             /\ Forall (fun e => topLevelChecks e = ∅ /\ serviceChecks e = [])
                  (blueMachines (bg s)))).
Proof.
  intros H.
  assert (Hiff : invalid (blueMachines (bg s')) = true
                 <-> blueMachines (bg s) <> []
                     /\ Forall (fun e => topLevelChecks e = ∅ /\ serviceChecks e = [])
                          (blueMachines (bg s))).
  { unfold attachCustomTopLevelChecks, bind, getBG in H.
    destruct (attachAll (blueMachines (bg s))) as [blue'|msg|] eqn:E; try discriminate H.
    unfold setBG in H. simplify_eq. cbn [bg blueMachines setBlue].
    apply attachAll_inv in E. rewrite invalid_spec.
    assert (Hpair : Forall2 (fun e e' =>
                       topLevelChecks e' = ∅
                       <-> topLevelChecks e = ∅ /\ serviceChecks e = [])
                      (blueMachines (bg s)) blue').
    { eapply Forall2_impl; [exact E|]. intros e e' He. cbv beta in He.
      assert (Htyped : Forall typed (serviceChecks e)).
      { destruct (typed_or_not (serviceChecks e)) as [Hall|Hsome]; [done|].
        rewrite (attachEntry_untyped e Hsome) in He. discriminate He. }
      destruct (attachEntry_typed e Htyped) as (e'' & He'' & Hchecks).
      rewrite He in He''. simplify_eq. rewrite Hchecks. apply storeAll_empty. }
    clear E. induction Hpair as [|e e' blue blue' He Hrest IH].
    - split; intros [Hne _]; done.
    - split.
      + intros [_ Hall]. apply Forall_cons_1 in Hall as [He' Hall]. split; [done|].
        constructor; [by apply He|].
        destruct blue' as [|x blue'].
        * apply Forall2_nil_inv_r in Hrest. rewrite Hrest. constructor.
        * apply IH. by split.
      + intros [_ Hall]. apply Forall_cons_1 in Hall as [He' Hall]. split; [done|].
        constructor; [by apply He|].
        destruct blue as [|x blue].
        * apply Forall2_nil_inv_l in Hrest. rewrite Hrest. constructor.
        * apply IH. by split. }
  rewrite (validateChecks_run env s'). cbn [fst]. rewrite <- Hiff.
  destruct (invalid (blueMachines (bg s'))); split; split; congruence.
Qed.

(** Neither m1 nor m2 has a check of any kind: the validation fails. *)
Lemma validation_rejects_only_checkless_apps_witness :
  let s := Sample.state [Sample_unchecked; Sample_unchecked2] in
  let s' := (attachCustomTopLevelChecks s).2 in
  ((validateChecks Sample.quiet s').1 = Done (Some ErrValidationError)
   <-> blueMachines (bg s) <> []
       /\ Forall (fun e => topLevelChecks e = ∅ /\ serviceChecks e = [])
            (blueMachines (bg s)))
  /\ ((validateChecks Sample.quiet s').1 = Done None
      <-> ~ (blueMachines (bg s) <> []
             /\ Forall (fun e => topLevelChecks e = ∅ /\ serviceChecks e = [])
                  (blueMachines (bg s)))).
Proof.
  intros s s'.
  apply (validation_rejects_only_checkless_apps Sample.quiet s s').
  vm_compute. reflexivity.
Defined.

(** ** The tasks of the waiting phases *)

Section Tasks.

Local Open Scope list_scope.

(** A property that every step of a phase keeps holds when the phase
    returns. *)
Lemma runPhase_inv {C : Type} (step : event -> C -> M (C + (C * option error)))
    (sched : list event) (Inv : C -> St -> Prop)
    (Post : C -> option error -> St -> Prop) :
  (forall ev c s c' s', ev ∈ sched -> Inv c s ->
     step ev c s = (Done (inl c'), s') -> Inv c' s') ->
  (forall ev c s c' r s', ev ∈ sched -> Inv c s ->
     step ev c s = (Done (inr (c', r)), s') -> Post c' r s') ->
  forall c s c' r s',
    Inv c s -> runPhase step sched c s = (Done (c', r), s') -> Post c' r s'.
Proof.
  intros Hkeep Hend.
  assert (H : forall l, (forall ev, ev ∈ l -> ev ∈ sched) ->
            forall c s c' r s',
              Inv c s -> runPhase step l c s = (Done (c', r), s') -> Post c' r s').
  { induction l as [|ev l IH]; intros Hsub c s c' r s' Hinv Hrun; [discriminate Hrun|].
    cbn [runPhase] in Hrun. unfold bind at 1 in Hrun.
    destruct (step ev c s) as [[[c1|[c1 r1]]|msg|] s1] eqn:Estep; try discriminate Hrun.
    - apply (IH (fun e He => Hsub e (list_elem_of_further _ _ _ He)) c1 s1); [|exact Hrun].
      apply (Hkeep ev c s); [apply Hsub; left | done | done].
    - unfold ret in Hrun. simplify_eq.
      apply (Hend ev c s); [apply Hsub; left | done | done]. }
  by apply H.
Qed.

Lemma setTask_lookup_eq (tasks : list task) (i : nat) (t : task) (w : wstate) :
  tasks !! i = Some t ->
  setTask tasks i w !! i = Some {| tMachine := tMachine t; tState := w |}.
Proof.
  intros Hi. unfold setTask. rewrite Hi. apply list_lookup_insert_eq.
  by apply lookup_lt_Some in Hi.
Qed.

Lemma setTask_lookup_ne (tasks : list task) (i j : nat) (w : wstate) :
  i <> j -> setTask tasks i w !! j = tasks !! j.
Proof.
  intros Hne. unfold setTask. destruct (tasks !! i); [|done].
  by apply list_lookup_insert_ne.
Qed.

Lemma setTask_machines (tasks : list task) (i : nat) (w : wstate) :
  tMachine <$> setTask tasks i w = tMachine <$> tasks.
Proof.
  unfold setTask. destruct (tasks !! i) as [t|] eqn:Hi; [|done].
  rewrite list_fmap_insert. cbn [tMachine]. apply list_insert_id.
  by rewrite list_lookup_fmap, Hi.
Qed.

(** A task whose fleet call returns joins the answered ones. *)
Lemma answered_wake (tasks : list task) (i : nat) (t : task) (w : wstate) :
  tasks !! i = Some t -> notRun t = false ->
  notRun {| tMachine := tMachine t; tState := w |} = true ->
  answered (setTask tasks i w) ≡ₚ tMachine t :: answered tasks.
Proof.
  intros Hi Ht Hw. unfold setTask. rewrite Hi.
  revert i Hi. induction tasks as [|x tasks IH]; intros i Hi; [done|].
  destruct i as [|i]; simpl in Hi.
  - simplify_eq. unfold answered. simpl. by rewrite Hw, Ht.
  - specialize (IH i Hi). unfold answered in *. simpl.
    destruct (notRun x); simpl; [|exact IH].
    rewrite IH. apply Permutation_swap.
Qed.

(** A task that moves on after its call has returned stays among them. *)
Lemma answered_keep (tasks : list task) (i : nat) (t : task) (w : wstate) :
  tasks !! i = Some t -> notRun t = true ->
  notRun {| tMachine := tMachine t; tState := w |} = true ->
  answered (setTask tasks i w) = answered tasks.
Proof.
  intros Hi Ht Hw. unfold setTask. rewrite Hi.
  revert i Hi. induction tasks as [|x tasks IH]; intros i Hi; [done|].
  destruct i as [|i]; simpl in Hi.
  - simplify_eq. unfold answered. simpl. by rewrite Hw, Ht.
  - specialize (IH i Hi). unfold answered in *. simpl.
    destruct (notRun x); simpl; [f_equal|]; exact IH.
Qed.

Lemma answered_sub (tasks : list task) : answered tasks ⊆+ tMachine <$> tasks.
Proof.
  unfold answered. induction tasks as [|x tasks IH]; [done|]. simpl.
  destruct (notRun x); simpl; [by apply submseteq_skip | by apply submseteq_cons].
Qed.

Lemma answered_elem (tasks : list task) (j : nat) (t : task) :
  tasks !! j = Some t -> notRun t = true -> tMachine t ∈ answered tasks.
Proof.
  intros Hj Ht. unfold answered. apply list_elem_of_fmap. exists t. split; [done|].
  apply list_elem_of_In, List.filter_In. split; [|done].
  apply list_elem_of_In. by eapply list_elem_of_lookup_2.
Qed.

Lemma answered_all (tasks : list task) :
  Forall (fun t => tState t = WEnd) tasks -> answered tasks = tMachine <$> tasks.
Proof.
  unfold answered. induction 1 as [|t tasks Ht _ IH]; [done|]. simpl.
  unfold notRun at 1. rewrite Ht. simpl. f_equal. exact IH.
Qed.

Lemma answered_new (l : machineUpdateEntries) : answered (newTask <$> l) = [].
Proof. unfold answered. induction l as [|e l IH]; [done | exact IH]. Qed.

Lemma NoDup_fmap_inj_on {A B} (f : A -> B) (l : list A) (x y : A) :
  NoDup (f <$> l) -> x ∈ l -> y ∈ l -> f x = f y -> x = y.
Proof.
  intros Hnd Hx Hy Hxy.
  apply list_elem_of_lookup in Hx as [i Hi]. apply list_elem_of_lookup in Hy as [j Hj].
  assert (Hij : i = j).
  { apply (NoDup_lookup (f <$> l) i j (f x) Hnd).
    - by rewrite list_lookup_fmap, Hi.
    - by rewrite list_lookup_fmap, Hj, Hxy. }
  subst j. congruence.
Qed.

End Tasks.

(** ** The wait for the green machines to start *)

Section StartWaitMore.

Local Open Scope list_scope.

Variable env : Env.

Lemma allMachinesStarted_all (stateMap : gmap string string) (k v : string) :
  allMachinesStarted stateMap = true -> stateMap !! k = Some v -> v = "started".
Proof.
  unfold allMachinesStarted. rewrite Nat.eqb_eq, <- length_map_to_list.
  rewrite (count_all (fun kv : string * string => String.eqb kv.2 "started")).
  rewrite Forall_forall. intros Hall Hk.
  apply String.eqb_eq. apply (Hall (k, v)). by apply elem_of_map_to_list.
Qed.

Lemma startTableInit_created (l : list Machine.t) (t : gmap string string) (k v : string) :
  (forall k' v', t !! k' = Some v' -> v' = "created") ->
  foldl (fun t gm => <[Machine.FormattedMachineId gm := "created"]> t) t l !! k = Some v ->
  v = "created".
Proof.
  revert t. induction l as [|m l IH]; intros t Ht H; [by apply (Ht k)|].
  cbn [foldl] in H. apply (IH _) in H; [done|].
  intros k' v' Hk'. apply lookup_insert_Some in Hk' as [[_ <-]|[_ Hk']]; [done|].
  by apply (Ht k').
Qed.

Lemma startTableInit_dom (l : list Machine.t) (t : gmap string string) (m : Machine.t) :
  m ∈ l \/ is_Some (t !! Machine.FormattedMachineId m) ->
  is_Some (foldl (fun t gm => <[Machine.FormattedMachineId gm := "created"]> t) t l
             !! Machine.FormattedMachineId m).
Proof.
  revert t. induction l as [|x l IH]; intros t [Hin|Hsome];
    try (by apply elem_of_nil in Hin); try done.
  - cbn [foldl]. apply IH. apply elem_of_cons in Hin as [->|Hin]; [right | by left].
    apply lookup_insert_is_Some. by left.
  - cbn [foldl]. apply IH. right. apply lookup_insert_is_Some.
    destruct (decide (Machine.FormattedMachineId x = Machine.FormattedMachineId m));
      [by left | by right].
Qed.

Lemma startSpawn_lookup (greens : machineUpdateEntries) (c : startCfg) (k v : string) :
  startTable (startSpawn greens c) !! k = Some v ->
  startTable c !! k = Some v \/ (v = "started" /\ skipped greens k).
Proof.
  revert c. induction greens as [|gm greens IH]; intros c H; [by left|].
  cbn [startSpawn] in H.
  destruct (LaunchInput.SkipLaunch (launchInput gm)) eqn:Eskip.
  - apply IH in H as [H|[-> (x & Hx & Hs & Hk)]].
    + cbn [startTable] in H. apply lookup_insert_Some in H as [[<- <-]|[_ H]]; [|by left].
      right. split; [done|]. exists gm. split; [left | done].
    + right. split; [done|]. exists x. split; [by right | done].
  - apply IH in H as [H|[-> (x & Hx & Hs & Hk)]]; [by left|].
    right. split; [done|]. exists x. split; [by right | done].
Qed.

Lemma startSpawn_dom (greens : machineUpdateEntries) (c : startCfg) (k : string) :
  is_Some (startTable c !! k) -> is_Some (startTable (startSpawn greens c) !! k).
Proof.
  revert c. induction greens as [|gm greens IH]; intros c H; [done|].
  cbn [startSpawn]. destruct (LaunchInput.SkipLaunch (launchInput gm)); apply IH; [|done].
  cbn [startTable]. apply lookup_insert_is_Some.
  destruct (decide (Machine.FormattedMachineId (leasableMachine gm) = k));
    [by left | by right].
Qed.

Lemma startInit_inv (sched : list event) (s0 : St) :
  startInv sched s0 (startInit (greenMachines (bg s0))) s0.
Proof.
  set (greens := greenMachines (bg s0)).
  assert (Htasks : startTasks (startInit greens)
                   = newTask
                       <$> filter (fun gm => LaunchInput.SkipLaunch (launchInput gm) = false)
                             greens).
  { unfold startInit. by rewrite startSpawn_tasks. }
  split; [done|]. split; [|split; [|split; [|split]]].
  - rewrite Htasks. unfold launched. rewrite <- list_fmap_compose.
    by apply list_fmap_ext.
  - exists []. split; [by rewrite app_nil_r|]. by rewrite Htasks, answered_new.
  - intros k Hk. unfold startInit in Hk.
    apply startSpawn_lookup in Hk as [Hk|[_ Hskip]]; [|by right].
    cbn [startTable] in Hk. unfold startTableInit in Hk.
    apply startTableInit_created in Hk; [discriminate Hk|].
    intros k' v' H'. by rewrite lookup_empty in H'.
  - intros m Hm. unfold startInit. apply startSpawn_dom. cbn [startTable].
    unfold startTableInit. apply startTableInit_dom. left.
    unfold launched in Hm. apply list_elem_of_fmap in Hm as (gm & -> & Hgm).
    apply list_elem_of_filter in Hgm as [_ Hgm].
    unfold machines. apply list_elem_of_In, in_map, list_elem_of_In. exact Hgm.
  - intros j t e Hj He. rewrite Htasks, list_lookup_fmap in Hj.
    destruct (filter _ greens !! j) as [gm|]; [|discriminate Hj].
    simpl in Hj. by simplify_eq.
Qed.

Lemma startStep_keep (sched : list event) (s0 : St) (ev : event) (c c' : startCfg)
    (st st' : St) :
  ev ∈ sched -> startInv sched s0 c st ->
  startStep env ev c st = (Done (inl c'), st') ->
  startInv sched s0 c' st'.
Proof.
  intros Hev (Hbg & Hms & (waited & Htr & Hw) & Hstarted & Hdom & Hsend) H.
  destruct ev as [i r|i ctxErr r|i|sel]; simpl in H; try discriminate H.
  - destruct (startTasks c !! i) as [[m []]|] eqn:Ei; try discriminate H.
    unfold bind, record in H.
    assert (Hwake : forall w, notRun {| tMachine := m; tState := w |} = true ->
               waited ++ [m] ≡ₚ answered (setTask (startTasks c) i w)).
    { intros w Hw'. rewrite (answered_wake _ _ _ w Ei); [|done|done].
      cbn [tMachine]. by rewrite <- Hw, Permutation_app_comm. }
    assert (Hold : forall w k,
               startTable c !! k = Some "started" ->
               (exists j t, setTask (startTasks c) i w !! j = Some t
                            /\ Machine.FormattedMachineId (tMachine t) = k
                            /\ tState t = WEnd)
               \/ skipped (greenMachines (bg s0)) k).
    { intros w k Hk. destruct (Hstarted k Hk) as [(j & t & Hj & Hf & Ht)|Hs]; [|by right].
      left. exists j, t. split; [|done]. rewrite setTask_lookup_ne; [done|].
      intros ->. rewrite Ei in Hj. by simplify_eq. }
    destruct r as [err|]; unfold ret in H; simplify_eq;
      unfold startInv; cbn [startTable startTasks trace bg];
      (split; [done|]); (split; [by rewrite setTask_machines|]);
      (split; [|split; [|split]]).
    + exists (waited ++ [m]). split; [|by apply Hwake].
      by rewrite Htr, fmap_app, app_assoc.
    + apply Hold.
    + exact Hdom.
    + intros j t e Hj He. destruct (decide (i = j)) as [<-|Hne].
      * rewrite (setTask_lookup_eq _ _ _ _ Ei) in Hj. simplify_eq.
        cbn [tState] in He. simplify_eq. by exists i.
      * rewrite setTask_lookup_ne in Hj by done. by apply (Hsend j t).
    + exists (waited ++ [m]). split; [|by apply Hwake].
      by rewrite Htr, fmap_app, app_assoc.
    + intros k Hk. apply lookup_insert_Some in Hk as [[<- _]|[Hne Hk]]; [|by apply Hold].
      left. exists i. eexists. split; [by apply (setTask_lookup_eq _ _ _ _ Ei)|]. done.
    + intros m' Hm'. apply lookup_insert_is_Some.
      destruct (decide (Machine.FormattedMachineId m = Machine.FormattedMachineId m'));
        [by left | right; split; [done | by apply Hdom]].
    + intros j t e Hj He. destruct (decide (i = j)) as [<-|Hne].
      * rewrite (setTask_lookup_eq _ _ _ _ Ei) in Hj. by simplify_eq.
      * rewrite setTask_lookup_ne in Hj by done. by apply (Hsend j t).
  - destruct (allMachinesStarted (startTable c)); [discriminate H|].
    unfold bind at 1, isAborted at 1 in H.
    destruct (match abortAfter env with
              | Some k => (k <=? polls st)%nat
              | None => false
              end); [discriminate H|].
    destruct sel as [|i|]; try discriminate H.
    + destruct (startTasks c !! i) as [[m []]|]; discriminate H.
    + destruct (noneSending (startTasks c)); [|discriminate H].
      unfold ret in H. simplify_eq.
      split; [done|]. split; [done|]. split; [by exists waited|]. done.
Qed.

Lemma startStep_end (sched : list event) (s0 : St) (ev : event) (c c' : startCfg)
    (r : option error) (st st' : St) :
  ev ∈ sched -> startInv sched s0 c st ->
  startStep env ev c st = (Done (inr (c', r)), st') ->
  startPost sched s0 r st'.
Proof.
  intros Hev (Hbg & Hms & (waited & Htr & Hw) & Hstarted & Hdom & Hsend) H.
  assert (Hsub : waited ⊆+ launched (greenMachines (bg s0))).
  { rewrite Hw, <- Hms. apply answered_sub. }
  destruct ev as [i r0|i ctxErr r0|i|sel]; simpl in H; try discriminate H.
  - destruct (startTasks c !! i) as [[m []]|]; try discriminate H.
    unfold bind, record in H. destruct r0; discriminate H.
  - destruct (allMachinesStarted (startTable c)) eqn:Eall.
    + unfold ret in H. simplify_eq. split; [done|]. split; [|done].
      exists waited. split; [done|]. split; [done|]. intros _ Hnd.
      set (greens := greenMachines (bg s0)) in *.
      assert (Hnd1 : NoDup ((fun gm => Machine.FormattedMachineId (leasableMachine gm))
                              <$> greens)).
      { unfold machines in Hnd. change (map leasableMachine greens)
          with (leasableMachine <$> greens) in Hnd.
        by rewrite <- list_fmap_compose in Hnd. }
      assert (Hnd2 : NoDup (Machine.FormattedMachineId <$> launched greens)).
      { unfold launched. rewrite <- list_fmap_compose.
        eapply sublist_NoDup; [exact Hnd1|]. apply fmap_sublist, sublist_filter. }
      pose proof (NoDup_fmap_1 _ _ Hnd2) as Hnd3.
      apply NoDup_Permutation; [|done|].
      { apply submseteq_sublist_l in Hsub as (l2 & Hsl & Hperm).
        eapply sublist_NoDup; [|exact Hsl]. by rewrite Hperm. }
      intros x. split; [intros Hx; by eapply elem_of_submseteq|].
      intros Hx. destruct (Hdom x Hx) as [v Hv].
      pose proof (allMachinesStarted_all _ _ _ Eall Hv) as ->.
      destruct (Hstarted _ Hv) as [(j & t & Hj & Hf & Ht)|(gm & Hgm & Hskip & Hf)].
      * assert (Hin : tMachine t ∈ launched greens).
        { rewrite <- Hms. apply list_elem_of_fmap. exists t. split; [done|].
          by eapply list_elem_of_lookup_2. }
        assert (Ex : tMachine t = x)
          by (by apply (NoDup_fmap_inj_on Machine.FormattedMachineId (launched greens))).
        rewrite Hw, <- Ex. apply (answered_elem _ j); [done|].
        unfold notRun. by rewrite Ht.
      * exfalso. unfold launched in Hx. apply list_elem_of_fmap in Hx as (gm0 & -> & Hgm0).
        apply list_elem_of_filter in Hgm0 as [Hno Hgm0].
        assert (Egm : gm = gm0).
        { by apply (NoDup_fmap_inj_on
                      (fun gm => Machine.FormattedMachineId (leasableMachine gm)) greens). }
        congruence.
    + unfold bind at 1, isAborted at 1 in H.
      destruct (match abortAfter env with
                | Some k => (k <=? polls st)%nat
                | None => false
                end).
      { unfold ret in H. simplify_eq. split; [done|]. split.
        - exists waited. split; [done|]. split; [done|]. intros E. discriminate E.
        - intros e E. simplify_eq. by left. }
      destruct sel as [|i|].
      * unfold ret in H. simplify_eq. split; [done|]. split.
        -- exists waited. split; [done|]. split; [done|]. intros E. discriminate E.
        -- intros e E. simplify_eq. right. by left.
      * destruct (startTasks c !! i) as [[m [|err| |]]|] eqn:Ei; try discriminate H.
        unfold ret in H. simplify_eq. split; [done|]. split.
        -- exists waited. split; [done|]. split; [done|]. intros E. discriminate E.
        -- intros e E. simplify_eq. right. right. by apply (Hsend i _ e Ei).
      * destruct (noneSending (startTasks c)); discriminate H.
Qed.

Lemma startRun_post (s : St) (c : startCfg) (r : option error) (s' : St) :
  runPhase (startStep env) (startSchedule env) (startInit (greenMachines (bg s))) s
  = (Done (c, r), s') ->
  startPost (startSchedule env) s r s'.
Proof.
  apply (runPhase_inv (startStep env) (startSchedule env)
           (startInv (startSchedule env) s)
           (fun _ r st => startPost (startSchedule env) s r st)
           (fun ev c0 st c1 st' => startStep_keep _ s ev c0 c1 st st')
           (fun ev c0 st c1 r st' => startStep_end _ s ev c0 c1 r st st')
           _ _ _ _ _ (startInit_inv (startSchedule env) s)).
Qed.

End StartWaitMore.

(** X21. Whatever the schedule, [WaitForGreenMachinesToBeStarted] asks the
    fleet for nothing but waits for the start of green machines without
    [SkipLaunch], each at most once, and leaves the lists of the deployment
    alone. When the formatted ids of the green machines are distinct and it
    returns nil, it has waited for every one of them. An error it returns
    is [ErrAborted], [ErrWaitTimeout] or the error of one of the waits. *)
Theorem start_wait_accounts_for_every_machine (env : Env) (s s' : St)
    (res : option error) :
  let greens := greenMachines (bg s) in
  WaitForGreenMachinesToBeStarted env s = (Done res, s') ->
  bg s' = bg s
  /\ (exists waited,
        trace s' = (trace s ++ (waitCall "start" <$> waited))%list
        /\ waited ⊆+ launched greens
        /\ (res = None ->
            NoDup (Machine.FormattedMachineId <$> machines greens) ->
            waited ≡ₚ launched greens))
  /\ (forall e, res = Some e ->
                e = ErrAborted \/ e = ErrWaitTimeout
                \/ exists i, EvWait i (Some e) ∈ startSchedule env).
Proof.
  intros greens H.
  unfold WaitForGreenMachinesToBeStarted, bind at 1, getBG at 1 in H.
  unfold bind at 1 in H.
  destruct (runPhase (startStep env) (startSchedule env) (startInit (greenMachines (bg s))) s)
    as [[[c r]|msg|] s1] eqn:E; try discriminate H.
  unfold ret in H. simplify_eq. cbn [snd].
  exact (startRun_post env s c res s' E).
Qed.

(** g-m1 starts, the wait for g-m2 fails: the phase returns that error
    after two waits. *)
Lemma start_wait_accounts_for_every_machine_witness :
  let s' := (WaitForGreenMachinesToBeStarted Sample_startFails Sample_created).2 in
  bg s' = bg Sample_created
  /\ (exists waited,
        trace s' = (trace Sample_created ++ (waitCall "start" <$> waited))%list
        /\ waited ⊆+ launched (greenMachines (bg Sample_created))
        /\ (Some (ENew "machine failed to start") = None ->
            NoDup (Machine.FormattedMachineId
                     <$> machines (greenMachines (bg Sample_created))) ->
            waited ≡ₚ launched (greenMachines (bg Sample_created))))
  /\ (forall e, Some (ENew "machine failed to start") = Some e ->
                e = ErrAborted \/ e = ErrWaitTimeout
                \/ exists i, EvWait i (Some e) ∈ startSchedule Sample_startFails).
Proof.
  intros s'.
  apply (start_wait_accounts_for_every_machine Sample_startFails Sample_created s'
           (Some (ENew "machine failed to start"))).
  vm_compute. reflexivity.
Defined.

(** ** The wait for the blue machines to stop *)

Section StopWaitMore.

Local Open Scope list_scope.

Variable env : Env.

Lemma stopWaitInit_inv (s0 : St) : stopWaitInv s0 (stopInit (blueMachines (bg s0))) s0.
Proof.
  split; [apply stopInit_inv|]. split; [done|]. split; [|split; [|split]].
  - unfold stopInit, machines. cbn [stopTasks].
    rewrite <- list_fmap_compose. by apply list_fmap_ext.
  - exists []. split; [by rewrite app_nil_r|].
    unfold stopInit. cbn [stopTasks].
    change (map (fun gm => {| tMachine := leasableMachine gm; tState := WRun |})
              (blueMachines (bg s0)))
      with (newTask <$> blueMachines (bg s0)).
    by rewrite answered_new.
  - intros j t e Hj He. unfold stopInit in Hj. cbn [stopTasks] in Hj.
    change (map (fun gm => {| tMachine := leasableMachine gm; tState := WRun |})
              (blueMachines (bg s0)))
      with (newTask <$> blueMachines (bg s0)) in Hj.
    rewrite list_lookup_fmap in Hj.
    destruct (blueMachines (bg s0) !! j) as [gm|]; [|discriminate Hj].
    simpl in Hj. by simplify_eq.
  - constructor.
Qed.

Lemma stopWait_keep (s0 : St) (ev : event) (c c' : stopCfg) (st st' : St) :
  stopWaitInv s0 c st ->
  stopStep env (length (blueMachines (bg s0))) ev c st = (Done (inl c'), st') ->
  stopWaitInv s0 c' st'.
Proof.
  intros (Hinv & Hbg & Hms & (waited & Htr & Hw) & Hsend & Hmerr) H.
  split; [by eapply (stopStep_continue env)|].
  assert (Hblue : forall i t, stopTasks c !! i = Some t ->
             tMachine t ∈ machines (blueMachines (bg s0))).
  { intros i t Hi. rewrite <- Hms. apply list_elem_of_fmap. exists t. split; [done|].
    by eapply list_elem_of_lookup_2. }
  destruct ev as [i r|i ctxErr r|i|sel]; simpl in H; try discriminate H.
  - destruct (stopTasks c !! i) as [[m []]|] eqn:Ei; try discriminate H.
    unfold bind, record in H.
    assert (Hwake : forall w, notRun {| tMachine := m; tState := w |} = true ->
               waited ++ [m] ≡ₚ answered (setTask (stopTasks c) i w)).
    { intros w Hw'. rewrite (answered_wake _ _ _ w Ei); [|done|done].
      cbn [tMachine]. by rewrite <- Hw, Permutation_app_comm. }
    destruct r as [err|]; unfold ret in H; simplify_eq;
      cbn [stopTable stopTasks merr trace bg];
      (split; [done|]); (split; [by rewrite setTask_machines|]);
      (split; [|split; [|done]]).
    + exists (waited ++ [m]). split; [|by apply Hwake].
      by rewrite Htr, fmap_app, app_assoc.
    + intros j t e Hj He. destruct (decide (i = j)) as [<-|Hne].
      * rewrite (setTask_lookup_eq _ _ _ _ Ei) in Hj. simplify_eq.
        cbn [tState] in He. simplify_eq. exists m, err. split; [|done].
        by apply (Hblue i {| tMachine := m; tState := WRun |}).
      * rewrite setTask_lookup_ne in Hj by done. by apply (Hsend j t).
    + exists (waited ++ [m]). split; [|by apply Hwake].
      by rewrite Htr, fmap_app, app_assoc.
    + intros j t e Hj He. destruct (decide (i = j)) as [<-|Hne].
      * rewrite (setTask_lookup_eq _ _ _ _ Ei) in Hj. by simplify_eq.
      * rewrite setTask_lookup_ne in Hj by done. by apply (Hsend j t).
  - destruct (stopTasks c !! i) as [[m []]|] eqn:Ei; try discriminate H.
    unfold ret in H. simplify_eq. cbn [stopTable stopTasks merr trace bg].
    split; [done|]. split; [by rewrite setTask_machines|]. split; [|split; [|done]].
    + exists waited. split; [done|]. by rewrite (answered_keep _ _ _ WEnd Ei).
    + intros j t e Hj He. destruct (decide (i = j)) as [<-|Hne].
      * rewrite (setTask_lookup_eq _ _ _ _ Ei) in Hj. by simplify_eq.
      * rewrite setTask_lookup_ne in Hj by done. by apply (Hsend j t).
  - destruct (Nat.eqb (done c) (length (blueMachines (bg s0)))); [discriminate H|].
    unfold bind at 1, isAborted at 1 in H.
    destruct (match abortAfter env with
              | Some k => (k <=? polls st)%nat
              | None => false
              end); [discriminate H|].
    destruct sel as [|i|]; try discriminate H.
    + destruct (stopTasks c !! i) as [[m [|err| |]]|] eqn:Ei; try discriminate H.
      unfold ret in H. simplify_eq. cbn [stopTable stopTasks merr trace bg].
      split; [done|]. split; [by rewrite setTask_machines|]. split; [|split].
      * exists waited. split; [done|]. by rewrite (answered_keep _ _ _ WCount Ei).
      * intros j t e Hj He. destruct (decide (i = j)) as [<-|Hne].
        -- rewrite (setTask_lookup_eq _ _ _ _ Ei) in Hj. by simplify_eq.
        -- rewrite setTask_lookup_ne in Hj by done. by apply (Hsend j t).
      * apply Forall_app. split; [done|]. constructor; [|constructor].
        by apply (Hsend i _ err Ei).
    + destruct (noneSending (stopTasks c)); [|discriminate H].
      unfold ret in H. simplify_eq.
      split; [done|]. split; [done|]. split; [by exists waited|]. done.
Qed.

Lemma stopWait_end (s0 : St) (ev : event) (c c' : stopCfg) (r : option error)
    (st st' : St) :
  stopWaitInv s0 c st ->
  stopStep env (length (blueMachines (bg s0))) ev c st = (Done (inr (c', r)), st') ->
  stopWaitPost s0 r st'.
Proof.
  intros (Hinv & Hbg & Hms & (waited & Htr & Hw) & Hsend & Hmerr) H.
  pose proof (stopStep_return env _ _ _ _ _ _ _ H) as [-> Hr].
  assert (Hworld : bg st' = bg st /\ trace st' = trace st).
  { destruct ev as [i r0|i ctxErr r0|i|sel]; simpl in H; try discriminate H.
    - destruct (stopTasks c !! i) as [[m []]|]; try discriminate H.
      unfold bind, record in H. destruct r0; discriminate H.
    - destruct (stopTasks c !! i) as [[m []]|]; discriminate H.
    - destruct (Nat.eqb (done c) (length (blueMachines (bg s0)))).
      { unfold ret in H. by simplify_eq. }
      unfold bind at 1, isAborted at 1 in H.
      destruct (match abortAfter env with
                | Some k => (k <=? polls st)%nat
                | None => false
                end).
      { unfold ret in H. by simplify_eq. }
      destruct sel as [|i|].
      + unfold ret in H. by simplify_eq.
      + destruct (stopTasks c !! i) as [[m []]|]; discriminate H.
      + destruct (noneSending (stopTasks c)); discriminate H. }
  destruct Hworld as [Hbg' Htr'].
  assert (Hsub : waited ⊆+ machines (blueMachines (bg s0))).
  { rewrite Hw, <- Hms. apply answered_sub. }
  assert (Hall : done c = length (blueMachines (bg s0)) ->
                 waited ≡ₚ machines (blueMachines (bg s0))).
  { intros Hdone. destruct Hinv as [Hlen Hcount].
    rewrite Hw, <- Hms. rewrite answered_all; [done|].
    apply countEnded_all. congruence. }
  split; [congruence|]. split; [|split].
  - exists waited. split; [congruence|]. split; [done|].
    intros Hres. apply Hall.
    destruct Hr as [->|[->|[_ Hdone]]]; [| |done];
      destruct Hres as [E|[es E]]; discriminate E.
  - intros es E. destruct Hr as [->|[->|[Hr _]]]; try discriminate E.
    rewrite E in Hr. unfold ErrorOrNil in Hr.
    destruct (merr c) as [|e l] eqn:Em; [discriminate Hr|].
    simplify_eq. by split.
  - destruct Hr as [->|[->|[-> _]]]; [by right; left | by right; right; left|].
    unfold ErrorOrNil. destruct (merr c); [by left|]. right. right. right. by eexists.
Qed.

Lemma stopRun_post (s : St) (c : stopCfg) (r : option error) (s' : St) :
  runPhase (stopStep env (length (blueMachines (bg s)))) (stopSchedule env)
    (stopInit (blueMachines (bg s))) s
  = (Done (c, r), s') ->
  stopWaitPost s r s'.
Proof.
  apply (runPhase_inv (stopStep env (length (blueMachines (bg s)))) (stopSchedule env)
           (stopWaitInv s)
           (fun _ r st => stopWaitPost s r st)
           (fun ev c0 st c1 st' _ => stopWait_keep s ev c0 c1 st st')
           (fun ev c0 st c1 r st' _ => stopWait_end s ev c0 c1 r st st')
           _ _ _ _ _ (stopWaitInit_inv s)).
Qed.

End StopWaitMore.

(** X22. Whatever the schedule, [WaitForBlueMachinesToBeStopped] asks the
    fleet for nothing but waits for the stop of blue machines, each at most
    once, and leaves the lists of the deployment alone. It returns nil,
    [ErrAborted], [ErrWaitTimeout] or an aggregate; when it returns nil or an
    aggregate it has waited for every blue machine, and every error of an
    aggregate names a blue machine that failed to stop. *)
Theorem stop_wait_accounts_for_every_machine (env : Env) (s s' : St)
    (res : option error) :
  WaitForBlueMachinesToBeStopped env s = (Done res, s') ->
  bg s' = bg s
  /\ (exists waited,
        trace s' = (trace s ++ (waitCall "stop" <$> waited))%list
        /\ waited ⊆+ machines (blueMachines (bg s))
        /\ (res = None \/ (exists es, res = Some (EMulti es)) ->
            waited ≡ₚ machines (blueMachines (bg s))))
  /\ (forall es, res = Some (EMulti es) -> es <> [] /\ Forall (namesBlue s) es)
  /\ (res = None \/ res = Some ErrAborted \/ res = Some ErrWaitTimeout
      \/ exists es, res = Some (EMulti es)).
Proof.
  intros H.
  unfold WaitForBlueMachinesToBeStopped, bind at 1, stopWaitRun in H.
  unfold bind at 1, getBG at 1 in H.
  destruct (runPhase (stopStep env (length (blueMachines (bg s)))) (stopSchedule env)
              (stopInit (blueMachines (bg s))) s)
    as [[[c r]|msg|] s1] eqn:E; try discriminate H.
  unfold ret in H. simplify_eq. cbn [snd].
  exact (stopRun_post env s c res s' E).
Qed.

(** m1 stops, m2 does not: the aggregate names m2, and both were waited
    for. *)
Lemma stop_wait_accounts_for_every_machine_witness :
  let res := Some (EMulti [stopError (Sample.machine "m2")
                             (ENew "timeout reached waiting for machine to stop")]) in
  let s' := (WaitForBlueMachinesToBeStopped Sample_m2Stays Sample_stopping).2 in
  bg s' = bg Sample_stopping
  /\ (exists waited,
        trace s' = (trace Sample_stopping ++ (waitCall "stop" <$> waited))%list
        /\ waited ⊆+ machines (blueMachines (bg Sample_stopping))
        /\ (res = None \/ (exists es, res = Some (EMulti es)) ->
            waited ≡ₚ machines (blueMachines (bg Sample_stopping))))
  /\ (forall es, res = Some (EMulti es) -> es <> [] /\ Forall (namesBlue Sample_stopping) es)
  /\ (res = None \/ res = Some ErrAborted \/ res = Some ErrWaitTimeout
      \/ exists es, res = Some (EMulti es)).
Proof.
  intros res s'.
  apply (stop_wait_accounts_for_every_machine Sample_m2Stays Sample_stopping s' res).
  vm_compute. reflexivity.
Defined.

(** ** The wait for the green machines to be healthy *)

Section HealthWaitMore.

Local Open Scope list_scope.

Variable env : Env.

Lemma healthTableInit_zero (greens : machineUpdateEntries)
    (t : gmap string HealthCheckStatus) (k : string) (v : HealthCheckStatus) :
  (forall k' v', t !! k' = Some v' -> Total v' = 0) ->
  healthTableInit greens t !! k = Some v -> Total v = 0.
Proof.
  revert t. induction greens as [|gm greens IH]; intros t Ht H; [by apply (Ht k)|].
  cbn [healthTableInit] in H. destruct (healthChecked gm); [|by apply (IH t)].
  apply (IH _) in H; [done|]. intros k' v' Hk'.
  apply lookup_insert_Some in Hk' as [[_ <-]|[_ Hk']]; [done | by apply (Ht k')].
Qed.

Lemma healthTableInit_has (greens : machineUpdateEntries)
    (t : gmap string HealthCheckStatus) (k : string) :
  is_Some (healthTableInit greens t !! k)
  <-> is_Some (t !! k)
      \/ exists m, m ∈ checked greens /\ Machine.FormattedMachineId m = k.
Proof.
  revert t. induction greens as [|gm greens IH]; intros t.
  - cbn [healthTableInit]. split; [by left|].
    intros [H|(m & Hm & _)]; [done | by apply elem_of_nil in Hm].
  - cbn [healthTableInit]. unfold checked. cbn [List.filter].
    destruct (healthChecked gm).
    + rewrite IH, lookup_insert_is_Some. cbn [fmap list_fmap]. split.
      * intros [[E|[_ H]]|(m & Hm & E)]; [|by left|].
        -- right. exists (leasableMachine gm). split; [left | done].
        -- right. exists m. split; [by right | done].
      * intros [H|(m & Hm & E)].
        -- left. destruct (decide (Machine.FormattedMachineId (leasableMachine gm) = k));
             [by left | by right].
        -- apply elem_of_cons in Hm as [->|Hm]; [left; by left|].
           right. by exists m.
    + apply IH.
Qed.

Lemma healthInit_inv (sched : list event) (s0 : St) :
  healthInv sched s0 (healthInit (greenMachines (bg s0))) s0.
Proof.
  set (greens := greenMachines (bg s0)).
  split; [done|]. split; [|split; [|split; [|split]]].
  - unfold healthInit, healthSpawn, checked. cbn [healthTasks].
    change (map ?f ?l) with (f <$> l). rewrite <- list_fmap_compose.
    by apply list_fmap_ext.
  - exists []. split; [by rewrite app_nil_r|]. split.
    + intros m Hm. by apply elem_of_nil in Hm.
    + intros k v Hk Hv. exfalso. apply Hv.
      apply (healthTableInit_zero greens ∅ k v); [|exact Hk].
      intros k' v' H'. by rewrite lookup_empty in H'.
  - intros m Hm. unfold healthInit. cbn [healthTable].
    apply healthTableInit_has. right. by exists m.
  - intros k Hk. unfold healthInit in Hk. cbn [healthTable] in Hk.
    apply healthTableInit_has in Hk as [Hk|Hk]; [|done].
    rewrite lookup_empty in Hk. by destruct Hk.
  - intros j t e Hj He. unfold healthInit, healthSpawn in Hj. cbn [healthTasks] in Hj.
    change (map ?f ?l) with (f <$> l) in Hj. rewrite list_lookup_fmap in Hj.
    destruct (List.filter healthChecked greens !! j) as [gm|]; [|discriminate Hj].
    simpl in Hj. by simplify_eq.
Qed.

Lemma healthStep_keep (sched : list event) (s0 : St) (ev : event) (c c' : healthCfg)
    (st st' : St) :
  ev ∈ sched -> healthInv sched s0 c st ->
  healthStep env ev c st = (Done (inl c'), st') ->
  healthInv sched s0 c' st'.
Proof.
  intros Hev (Hbg & Hms & (polledM & Htr & Hin & Hseen) & Hdom & Hkeys & Hsend) H.
  destruct ev as [i r|i ctxErr r|i|sel]; simpl in H; try discriminate H.
  - destruct (healthTasks c !! i) as [[m []]|] eqn:Ei; try discriminate H.
    unfold bind, record in H.
    assert (Hm : m ∈ checked (greenMachines (bg s0))).
    { rewrite <- Hms. apply list_elem_of_fmap.
      exists {| tMachine := m; tState := WRun |}. split; [done|].
      by eapply list_elem_of_lookup_2. }
    assert (Hin' : forall x, x ∈ polledM ++ [m] -> x ∈ checked (greenMachines (bg s0))).
    { intros x Hx. apply elem_of_app in Hx as [Hx|Hx]; [by apply Hin|].
      apply list_elem_of_singleton in Hx. by subst x. }
    assert (Htr' : trace st ++ [CGet (Machine.ID m)]
                   = trace s0 ++ (getCall <$> polledM ++ [m])).
    { by rewrite Htr, fmap_app, app_assoc. }
    assert (Hseen0 : forall k v, healthTable c !! k = Some v -> Total v <> 0 ->
               exists x, x ∈ polledM ++ [m] /\ Machine.FormattedMachineId x = k).
    { intros k v Hk Hv. destruct (Hseen k v Hk Hv) as (x & Hx & E).
      exists x. split; [|done]. apply elem_of_app. by left. }
    assert (Hseen1 : forall status k v,
               <[Machine.FormattedMachineId m := status]> (healthTable c) !! k = Some v ->
               Total v <> 0 ->
               exists x, x ∈ polledM ++ [m] /\ Machine.FormattedMachineId x = k).
    { intros status k v Hk Hv.
      apply lookup_insert_Some in Hk as [[<- _]|[_ Hk]]; [|by apply (Hseen0 k v)].
      exists m. split; [|done]. apply elem_of_app. right. left. }
    assert (Hdom1 : forall status x,
               x ∈ checked (greenMachines (bg s0)) ->
               is_Some (<[Machine.FormattedMachineId m := status]> (healthTable c)
                          !! Machine.FormattedMachineId x)).
    { intros status x Hx. apply lookup_insert_is_Some.
      destruct (decide (Machine.FormattedMachineId m = Machine.FormattedMachineId x));
        [by left | right; split; [done | by apply Hdom]]. }
    assert (Hkeys1 : forall status k,
               is_Some (<[Machine.FormattedMachineId m := status]> (healthTable c) !! k) ->
               exists x, x ∈ checked (greenMachines (bg s0))
                         /\ Machine.FormattedMachineId x = k).
    { intros status k Hk. apply lookup_insert_is_Some in Hk as [<-|[_ Hk]];
        [by exists m | by apply Hkeys]. }
    assert (Hsend1 : forall w, (forall e, w = WSend e -> polledError sched e) ->
               forall j t e, setTask (healthTasks c) i w !! j = Some t ->
                             tState t = WSend e -> polledError sched e).
    { intros w Hw j t e Hj He. destruct (decide (i = j)) as [<-|Hne].
      - rewrite (setTask_lookup_eq _ _ _ _ Ei) in Hj. simplify_eq.
        cbn [tState] in He. by apply Hw.
      - rewrite setTask_lookup_ne in Hj by done. by apply (Hsend j t). }
    destruct ctxErr as [cerr|].
    { unfold ret in H. simplify_eq. unfold healthInv. cbn [healthTable healthTasks trace bg].
      split; [done|]. split; [by rewrite setTask_machines|].
      split; [by exists (polledM ++ [m])|]. split; [done|]. split; [done|].
      apply Hsend1. intros e E. simplify_eq. exists i, (Some e), r. split; [done | by left]. }
    destruct r as [err|status].
    { unfold ret in H. simplify_eq. unfold healthInv. cbn [healthTable healthTasks trace bg].
      split; [done|]. split; [by rewrite setTask_machines|].
      split; [by exists (polledM ++ [m])|]. split; [done|]. split; [done|].
      apply Hsend1. intros e E. simplify_eq. exists i, None, (inl e).
      split; [done | by right]. }
    destruct ((Total status =? Passing status)%Z && negb (Total status =? 0)%Z)%bool;
      unfold ret in H; simplify_eq; unfold healthInv; cbn [healthTable healthTasks trace bg].
    + split; [done|]. split; [by rewrite setTask_machines|].
      split; [exists (polledM ++ [m]); split; [done|]; split; [done | by apply Hseen1]|].
      split; [by apply Hdom1|]. split; [by apply Hkeys1|].
      apply Hsend1. intros e E. discriminate E.
    + split; [done|]. split; [done|].
      split; [exists (polledM ++ [m]); split; [done|]; split; [done | by apply Hseen1]|].
      split; [by apply Hdom1|]. split; [by apply Hkeys1 | done].
  - destruct (allMachinesHealthy (healthTable c)); [discriminate H|].
    unfold bind at 1, isAborted at 1 in H.
    destruct (match abortAfter env with
              | Some k => (k <=? polls st)%nat
              | None => false
              end); [discriminate H|].
    destruct sel as [|i|]; try discriminate H.
    + destruct (healthTasks c !! i) as [[m []]|]; discriminate H.
    + destruct (noneSending (healthTasks c)); [|discriminate H].
      unfold ret in H. simplify_eq.
      split; [done|]. split; [done|]. split; [by exists polledM|]. done.
Qed.

Lemma healthStep_end (sched : list event) (s0 : St) (ev : event) (c c' : healthCfg)
    (r : option error) (st st' : St) :
  ev ∈ sched -> healthInv sched s0 c st ->
  healthStep env ev c st = (Done (inr (c', r)), st') ->
  healthPost sched s0 r st'.
Proof.
  intros Hev (Hbg & Hms & (polledM & Htr & Hin & Hseen) & Hdom & Hkeys & Hsend) H.
  destruct ev as [i r0|i ctxErr r0|i|sel]; simpl in H; try discriminate H.
  - destruct (healthTasks c !! i) as [[m []]|]; try discriminate H.
    unfold bind, record in H. destruct ctxErr; [discriminate H|].
    destruct r0 as [err|status]; [discriminate H|].
    destruct ((Total status =? Passing status)%Z && negb (Total status =? 0)%Z)%bool;
      discriminate H.
  - destruct (allMachinesHealthy (healthTable c)) eqn:Eall.
    + unfold ret in H. simplify_eq. split; [done|]. split; [|split; [done|done]].
      exists polledM. split; [done|]. split; [done|]. intros _ m Hm.
      destruct (Hdom m Hm) as [v Hv].
      apply allMachinesHealthy_passes in Eall. destruct (Eall _ _ Hv) as [Hne _].
      by apply (Hseen _ v).
    + assert (Hnonempty : checked (greenMachines (bg s0)) <> []).
      { intros Hnil.
        assert (Hempty : healthTable c = ∅).
        { apply map_empty. intros k. apply eq_None_not_Some. intros Hk.
          destruct (Hkeys k Hk) as (m & Hm & _). rewrite Hnil in Hm.
          by apply elem_of_nil in Hm. }
        rewrite Hempty in Eall. discriminate Eall. }
      unfold bind at 1, isAborted at 1 in H.
      destruct (match abortAfter env with
                | Some k => (k <=? polls st)%nat
                | None => false
                end).
      { unfold ret in H. simplify_eq. split; [done|]. split; [|split; [done|]].
        - exists polledM. split; [done|]. split; [done|]. intros E. discriminate E.
        - intros e E. simplify_eq. by left. }
      destruct sel as [|i|].
      * unfold ret in H. simplify_eq. split; [done|]. split; [|split; [done|]].
        -- exists polledM. split; [done|]. split; [done|]. intros E. discriminate E.
        -- intros e E. simplify_eq. right. by left.
      * destruct (healthTasks c !! i) as [[m [|err| |]]|] eqn:Ei; try discriminate H.
        unfold ret in H. simplify_eq. split; [done|]. split; [|split; [done|]].
        -- exists polledM. split; [done|]. split; [done|]. intros E. discriminate E.
        -- intros e E. simplify_eq. right. right. by apply (Hsend i _ e Ei).
      * destruct (noneSending (healthTasks c)); discriminate H.
Qed.

Lemma healthRun_post (s : St) (c : healthCfg) (r : option error) (s' : St) :
  runPhase (healthStep env) (healthSchedule env) (healthInit (greenMachines (bg s))) s
  = (Done (c, r), s') ->
  healthPost (healthSchedule env) s r s'.
Proof.
  apply (runPhase_inv (healthStep env) (healthSchedule env)
           (healthInv (healthSchedule env) s)
           (fun _ r st => healthPost (healthSchedule env) s r st)
           (fun ev c0 st c1 st' => healthStep_keep _ s ev c0 c1 st st')
           (fun ev c0 st c1 r st' => healthStep_end _ s ev c0 c1 r st st')
           _ _ _ _ _ (healthInit_inv (healthSchedule env) s)).
Qed.

End HealthWaitMore.



(** ** The order of the phases *)

Section Order.

Local Open Scope list_scope.

Variable env : Env.

Lemma andThen_inv (m next : M (option error)) (s s' : St) :
  andThen m next s = (Done None, s') ->
  exists s1, m s = (Done None, s1) /\ next s1 = (Done None, s').
Proof.
  unfold andThen, bind. destruct (m s) as [[[e|]|msg|] s1]; intros H; try discriminate H.
  by exists s1.
Qed.

Lemma phase_inv (sentinel : error) (run next : M (option error)) (s s' : St) :
  phase env sentinel run next s = (Done None, s') ->
  exists s1, run s = (Done None, s1) /\ next s1 = (Done None, s').
Proof.
  unfold phase, bind. destruct (run s) as [[[e|]|msg|] s1]; intros H; try discriminate H.
  by exists s1.
Qed.

Lemma unlessAborted_inv (next : M (option error)) (s s' : St) :
  unlessAborted env next s = (Done None, s') -> next (polled s) = (Done None, s').
Proof.
  unfold unlessAborted, bind, isAborted.
  destruct (match abortAfter env with
            | Some k => (k <=? polls s)%nat
            | None => false
            end); intros H; [discriminate H | exact H].
Qed.

Lemma sleep_inv (next : M (option error)) (s s' : St) :
  (let* aborted := sleepAbortable env in
   if aborted then ret (Some ErrAborted) else next) s = (Done None, s') ->
  next (polled s) = (Done None, s').
Proof. apply unlessAborted_inv. Qed.

Lemma eprint_inv {A} (text : string) (next : M A) (s : St) :
  (do eprint text in next) s = next (printed text s).
Proof. reflexivity. Qed.

Lemma markLoop_nil (l : list Machine.t) (s s' : St) :
  markLoop env l s = (Done None, s') ->
  trace s' = trace s ++ (uncordonCall <$> l) /\ bg s' = bg s.
Proof.
  revert s. induction l as [|gm l IH]; intros s H.
  - simpl in H. unfold ret in H. simplify_eq. by rewrite app_nil_r.
  - cbn [markLoop] in H. unfold bind at 1, isAborted at 1 in H.
    destruct (match abortAfter env with
              | Some k => (k <=? polls s)%nat
              | None => false
              end); [discriminate H|].
    unfold bind at 1, fleet at 1 in H. cbn [trace bg polls stderr] in H.
    destruct (Reply env (trace s) (CUncordon (Machine.ID gm))); [discriminate H|].
    unfold bind at 1, eprint at 1 in H. apply IH in H as [Htr Hbg].
    cbn [trace bg] in Htr, Hbg. split; [|done].
    rewrite Htr. cbn [fmap list_fmap]. by rewrite <- app_assoc.
Qed.

Lemma reached_all {A} (s : St) (l : list A) :
  abortedWithin env s l = None -> reached env s l = l.
Proof.
  unfold abortedWithin, reached. destruct (pollsLeft env s) as [k|]; [|done].
  destruct (Nat.ltb_spec k (length l)); [discriminate|]. intros _. by apply take_ge.
Qed.

Lemma destroyLoop_signal (l : machineUpdateEntries) (s : St) :
  stopSignal (bg (destroyLoop env l s).2) = stopSignal (bg s).
Proof.
  revert s. induction l as [|gm l IH]; intros s; [done|].
  cbn [destroyLoop]. unfold bind at 1, isAborted at 1.
  destruct (match abortAfter env with
            | Some k => (k <=? polls s)%nat
            | None => false
            end); [done|].
  unfold bind at 1, fleet at 1. cbn [trace bg polls stderr].
  destruct (Reply env (trace s) _).
  - unfold bind at 1, getBG at 1. unfold bind at 1, setBG at 1. by rewrite IH.
  - unfold bind at 1, eprint at 1. by rewrite IH.
Qed.

End Order.

(** X24. A deployment that returns nil has gone through every phase, in
    this order and with nothing in between: destroys of the sweep; one
    launch per green machine; waits for the start of green machines; polls
    of green machines with checks; the uncordon of every green machine; then
    the cordon, the stop and, after the waits for the stop of every blue
    machine, the destroy of every blue machine. No blue machine is cordoned
    before every green machine is uncordoned. *)
Theorem Deploy_nil_runs_the_phases_in_order (env : Env) (s s' : St) :
  let blue := blueMachines (bg s') in
  let greens := greenMachines (bg s') in
  Deploy env s = (Done None, s') ->
  exists zombies started polledMachines stopped,
    trace s'
    = (trace s ++ zombies
         ++ (CLaunch <$> (launchInput <$> greens))
         ++ (waitCall "start" <$> started)
         ++ (getCall <$> polledMachines)
         ++ (uncordonCall <$> machines greens)
         ++ (cordonCall <$> blue)
         ++ (stopCall (stopSignal (bg s')) <$> blue)
         ++ (waitCall "stop" <$> stopped)
         ++ (destroyCall <$> blue))%list
    /\ Forall isDestroy zombies
    /\ launchInput <$> greens = launchInput <$> blue
    /\ started ⊆+ launched greens
    /\ (forall m, m ∈ polledMachines -> m ∈ checked greens)
    /\ stopped ≡ₚ machines blue.
Proof.
  intros blue greens H. unfold Deploy in H.
  apply andThen_inv in H as (s3 & Hswitch & Hretire).
  unfold deploySwitch in Hswitch.
  apply andThen_inv in Hswitch as (s1 & Hprep & H).
  apply andThen_inv in H as (s2 & Hval & Hrep).
  (* the sweep *)
  pose proof (prepare_onlyDestroys env s) as [(zombies & Hz & Fz) _].
  rewrite Hprep in Hz. cbn [snd] in Hz.
  (* the validation *)
  rewrite (validateChecks_run env s1) in Hval.
  assert (Hs2 : trace s2 = trace s1 /\ bg s2 = bg s1).
  { destruct (invalid (blueMachines (bg s1))); [discriminate Hval|]. by simplify_eq. }
  destruct Hs2 as [Htr2 Hbg2]. clear Hval.
  (* the creation *)
  unfold deployReplace in Hrep. rewrite eprint_inv in Hrep.
  apply phase_inv in Hrep as (sc & Hcreate & Hrep).
  unfold CreateGreenMachines, bind at 1, getBG at 1 in Hcreate.
  pose proof (createLoop_launches_all env _ _ _ _ _ Hcreate) as [Htrc _].
  apply createLoop_success in Hcreate as [Hbc (news & Hgc & Hlic & _)].
  rewrite app_nil_l in Hgc.
  cbn [trace bg printed withWorld] in Htrc, Hbc, Hlic.
  assert (Hpair : launchInput <$> greenMachines (bg sc)
                  = launchInput <$> blueMachines (bg sc)).
  { rewrite Hgc, Hlic, Hbc. destruct (blueMachines (bg s2)); [done|].
    rewrite app_nil_l, <- !list_fmap_compose. apply list_fmap_ext. by intros ? [] ?. }
  (* the wait for the start *)
  apply unlessAborted_inv in Hrep. rewrite eprint_inv in Hrep.
  apply phase_inv in Hrep as (sw & Hstart & Hrep).
  unfold WaitForGreenMachinesToBeStarted, bind at 1, getBG at 1 in Hstart.
  unfold bind at 1 in Hstart.
  match type of Hstart with context [runPhase ?f ?l ?c ?st] =>
    destruct (runPhase f l c st) as [[[c1 r1]|msg|] sx] eqn:Erun end;
    try discriminate Hstart.
  unfold ret in Hstart. simplify_eq. cbn [snd] in *.
  apply (startRun_post env) in Erun
    as (Hbgw & (started & Htrw & Hsubw & _) & _).
  cbn [trace bg printed polled withWorld] in Hbgw, Htrw, Hsubw.
  (* the wait for the checks *)
  apply unlessAborted_inv in Hrep. rewrite eprint_inv in Hrep.
  apply phase_inv in Hrep as (sh & Hhealth & Hrep).
  unfold WaitForGreenMachinesToBeHealthy, bind at 1, getBG at 1 in Hhealth.
  unfold bind at 1 in Hhealth.
  match type of Hhealth with context [runPhase ?f ?l ?c ?st] =>
    destruct (runPhase f l c st) as [[[c2 r2]|msg|] sx] eqn:Erun end;
    try discriminate Hhealth.
  unfold ret in Hhealth. simplify_eq. cbn [snd] in *.
  apply (healthRun_post env) in Erun
    as (Hbgh & (polledM & Htrh & Hinh & _) & _).
  cbn [trace bg printed polled withWorld] in Hbgh, Htrh, Hinh.
  (* the uncordon *)
  apply unlessAborted_inv in Hrep. rewrite eprint_inv in Hrep.
  apply phase_inv in Hrep as (sm & Hmark & Hrep).
  unfold MarkGreenMachinesAsReadyForTraffic, bind at 1, getBG at 1 in Hmark.
  apply markLoop_nil in Hmark as [Htrm Hbgm].
  cbn [trace bg printed polled withWorld] in Htrm, Hbgm.
  (* the cordon *)
  apply unlessAborted_inv in Hrep. rewrite eprint_inv in Hrep.
  apply sleep_inv in Hrep.
  apply phase_inv in Hrep as (so & Hcordon & Hrep).
  unfold CordonBlueMachines, bind at 1, getBG at 1 in Hcordon.
  match type of Hcordon with cordonLoop env ?l ?st = _ =>
    destruct (cordonLoop_abort env l st) as (so' & Ex & Htro & Hbgo) end.
  rewrite Ex in Hcordon. injection Hcordon as Hab Hso. subst so'.
  apply (reached_all env) in Hab. cbn [bg printed polled withWorld] in Hab, Htro.
  rewrite Hab in Htro.
  cbn [trace bg printed polled withWorld] in Htro, Hbgo. clear Ex Hab.
  (* the stop *)
  apply unlessAborted_inv in Hrep. rewrite eprint_inv in Hrep.
  apply sleep_inv in Hrep. rewrite eprint_inv in Hrep.
  apply phase_inv in Hrep as (st & Hstop & Hrep).
  unfold StopBlueMachines, bind at 1, getBG at 1 in Hstop.
  match type of Hstop with stopLoop env ?sig ?l ?st0 = _ =>
    destruct (stopLoop_abort env sig l st0) as (st' & Ex & Htrs & Hbgs) end.
  rewrite Ex in Hstop. injection Hstop as Hab Hst. subst st'.
  apply (reached_all env) in Hab. cbn [bg printed polled withWorld] in Hab, Htrs.
  rewrite Hab in Htrs.
  cbn [trace bg printed polled withWorld] in Htrs, Hbgs. clear Ex Hab.
  unfold ret in Hrep. injection Hrep as Hs3. subst s3.
  (* the wait for the stop *)
  unfold deployRetire in Hretire. rewrite eprint_inv in Hretire.
  unfold bind at 1 in Hretire.
  destruct (WaitForBlueMachinesToBeStopped env _) as [[res|msg|] sv] eqn:Ewait;
    try discriminate Hretire.
  unfold WaitForBlueMachinesToBeStopped, bind at 1, stopWaitRun in Ewait.
  unfold bind at 1, getBG at 1 in Ewait.
  match type of Ewait with context [runPhase ?f ?l ?c ?st0] =>
    destruct (runPhase f l c st0) as [[[c3 r3]|msg|] sy] eqn:Erun end;
    try discriminate Ewait.
  unfold ret in Ewait. simplify_eq. cbn [snd] in *.
  apply (stopRun_post env) in Erun
    as (Hbgv & (stopped & Htrv & _ & Hallv) & _ & Hkind).
  cbn [trace bg printed polled withWorld] in Hbgv, Htrv, Hallv.
  (* what [Deploy] does with the result of the wait *)
  assert (Hgo : exists sf,
             trace sf = trace sv /\ bg sf = bg sv
             /\ stopped ≡ₚ machines (blueMachines (bg st))
             /\ phase env ErrDestroyBlueMachines (DestroyBlueMachines env)
                  (do eprint (newline ++ "Deployment Complete" ++ newline) in ret None)
                  (printed (newline ++ "Destroying all blue machines" ++ newline) sf)
                = (Done None, s')).
  { destruct res as [e|].
    - destruct Hkind as [E|[E|[E|[es E]]]]; simplify_eq;
        try (unfold bind, ret in Hretire; cbn [as_multierror ErrAborted ErrWaitTimeout]
               in Hretire; discriminate Hretire).
      cbn [as_multierror] in Hretire. unfold bind at 1 in Hretire.
      rewrite eprint_inv in Hretire. unfold bind at 1 in Hretire.
      rewrite eprintEach_run in Hretire. unfold ret at 1 in Hretire.
      rewrite eprint_inv in Hretire.
      eexists. split; [|split; [|split; [|exact Hretire]]]; [done | done|].
      apply Hallv. right. by exists es.
    - unfold bind at 1, ret at 1 in Hretire. rewrite eprint_inv in Hretire.
      exists sv. split; [done|]. split; [done|]. split; [|exact Hretire].
      apply Hallv. by left. }
  destruct Hgo as (sf & Htrf & Hbgf & Hstopped & Hdestroy). clear Hretire Hallv Hkind.
  apply phase_inv in Hdestroy as (sd & Hdestroy & Hend).
  unfold DestroyBlueMachines, bind at 1, getBG at 1 in Hdestroy.
  pose proof (destroyLoop_signal env
                (blueMachines (bg (printed (newline ++ "Destroying all blue machines"
                                              ++ newline) sf)))
                (printed (newline ++ "Destroying all blue machines" ++ newline) sf))
    as Hsig.
  match type of Hdestroy with destroyLoop env ?l ?st0 = _ =>
    destruct (destroyLoop_abort env l st0) as (sd' & Ex & Htrd & _ & Hbd & Hgd) end.
  rewrite Ex in Hdestroy, Hsig. injection Hdestroy as Hab Hsd. subst sd'.
  apply (reached_all env) in Hab. cbn [bg printed polled withWorld] in Hab, Htrd.
  rewrite Hab in Htrd.
  cbn [trace bg printed polled withWorld snd] in Htrd, Hbd, Hgd, Hsig. clear Ex Hab.
  rewrite eprint_inv in Hend. unfold ret in Hend. injection Hend as Hs'.
  (* the lists and the signal of the end are those of the creation *)
  assert (Hbgst : bg st = bg sc) by congruence.
  assert (Hblue : blue = blueMachines (bg sc)).
  { unfold blue. rewrite <- Hs'. cbn [bg printed withWorld]. congruence. }
  assert (Hgreens : greens = greenMachines (bg sc)).
  { unfold greens. rewrite <- Hs'. cbn [bg printed withWorld]. congruence. }
  assert (Hsignal : stopSignal (bg s') = stopSignal (bg sc)).
  { rewrite <- Hs'. cbn [bg printed withWorld]. congruence. }
  exists zombies, started, polledM, stopped.
  split; [|split; [exact Fz|split; [|split; [|split]]]].
  - rewrite <- Hs' at 1. cbn [trace printed withWorld].
    rewrite Htrd, Htrf, Htrv, Htrs, Htro, Htrm, Htrh, Htrw, Htrc, Htr2, Hz.
    rewrite Hsignal, Hblue, Hgreens, Hlic.
    rewrite Hbgf, Hbgv, Hbgs, Hbgo, Hbgm, Hbgh, Hbgw.
    by rewrite <- !app_assoc.
  - by rewrite Hblue, Hgreens.
  - by rewrite Hgreens.
  - rewrite Hgreens, <- Hbgw. exact Hinh.
  - rewrite Hblue, <- Hbgst. exact Hstopped.
Qed.

(** Two machines, no failure: the trace of the deployment is the nine
    blocks of calls, the sweep's empty. *)
Lemma Deploy_nil_runs_the_phases_in_order_witness :
  let s := Sample.state [Sample_a; Sample_b] in
  let s' := (Deploy Sample_fine2 s).2 in
  let blue := blueMachines (bg s') in
  let greens := greenMachines (bg s') in
  exists zombies started polledMachines stopped,
    trace s'
    = (trace s ++ zombies
         ++ (CLaunch <$> (launchInput <$> greens))
         ++ (waitCall "start" <$> started)
         ++ (getCall <$> polledMachines)
         ++ (uncordonCall <$> machines greens)
         ++ (cordonCall <$> blue)
         ++ (stopCall (stopSignal (bg s')) <$> blue)
         ++ (waitCall "stop" <$> stopped)
         ++ (destroyCall <$> blue))%list
    /\ Forall isDestroy zombies
    /\ launchInput <$> greens = launchInput <$> blue
    /\ started ⊆+ launched greens
    /\ (forall m, m ∈ polledMachines -> m ∈ checked greens)
    /\ stopped ≡ₚ machines blue.
Proof.
  intros s s'.
  apply (Deploy_nil_runs_the_phases_in_order Sample_fine2 s s').
  vm_compute. reflexivity.
Defined.

(** ** What the deployment never does *)

Section QuietSteps.

Local Open Scope list_scope.

Variable env : Env.

Lemma quiet_refl (s : St) : quiet s s.
Proof. split; [done|]. exists []. by rewrite app_nil_r. Qed.

Lemma quiet_trans (s1 s2 s3 : St) : quiet s1 s2 -> quiet s2 s3 -> quiet s1 s3.
Proof.
  intros [G1 (c1 & E1 & F1)] [G2 (c2 & E2 & F2)]. split; [congruence|].
  exists (c1 ++ c2). rewrite E2, E1, app_assoc. split; [done|]. by apply Forall_app.
Qed.

Lemma quiet_same (s s' : St) :
  trace s' = trace s -> greenMachines (bg s') = greenMachines (bg s) -> quiet s s'.
Proof. intros Ht Hg. split; [done|]. exists []. by rewrite app_nil_r. Qed.

Lemma quiet_calls (s s' : St) (calls : list FleetCall) :
  trace s' = trace s ++ calls -> greenMachines (bg s') = greenMachines (bg s) ->
  Forall (fun c => isLaunch c = false) calls -> quiet s s'.
Proof. intros Ht Hg Hc. split; [done|]. by exists calls. Qed.

Lemma Quiet_ret {A} (a : A) : Quiet (ret a).
Proof. intros s. apply quiet_refl. Qed.

Lemma Quiet_panic {A} (msg : string) : Quiet (@panic A msg).
Proof. intros s. apply quiet_refl. Qed.

Lemma Quiet_stuck {A} : Quiet (@stuck A).
Proof. intros s. apply quiet_refl. Qed.

Lemma Quiet_bind {A B} (m : M A) (k : A -> M B) :
  Quiet m -> (forall a, Quiet (k a)) -> Quiet (bind m k).
Proof.
  intros Hm Hk s. unfold bind. specialize (Hm s).
  destruct (m s) as [[a|msg|] s1]; cbn [snd] in *; [|done|done].
  eapply quiet_trans; [exact Hm | apply Hk].
Qed.

Lemma Quiet_eprint (text : string) : Quiet (eprint text).
Proof. intros s. by apply quiet_same. Qed.

Lemma Quiet_isAborted : Quiet (isAborted env).
Proof. intros s. by apply quiet_same. Qed.

Lemma Quiet_getBG : Quiet getBG.
Proof. intros s. apply quiet_refl. Qed.

Lemma Quiet_fleet (c : FleetCall) : isLaunch c = false -> Quiet (fleet env c).
Proof.
  intros Hc s. apply (quiet_calls _ _ [c]); [done | done|]. by constructor.
Qed.

Lemma Quiet_record (c : FleetCall) : isLaunch c = false -> Quiet (record c).
Proof.
  intros Hc s. apply (quiet_calls _ _ [c]); [done | done|]. by constructor.
Qed.

Lemma Quiet_eprintEach (texts : list string) : Quiet (eprintEach texts).
Proof. intros s. rewrite eprintEach_run. by apply quiet_same. Qed.

Lemma Quiet_phase (sentinel : error) (run next : M (option error)) :
  Quiet run -> Quiet next -> Quiet (phase env sentinel run next).
Proof.
  intros Hr Hn. unfold phase. apply Quiet_bind; [done|].
  intros [e|]; [apply Quiet_ret | done].
Qed.

Lemma Quiet_unless (next : M (option error)) :
  Quiet next -> Quiet (unlessAborted env next).
Proof.
  intros Hn. unfold unlessAborted. apply Quiet_bind; [apply Quiet_isAborted|].
  intros [|]; [apply Quiet_ret | done].
Qed.

Lemma Quiet_sleep (next : M (option error)) :
  Quiet next ->
  Quiet (let* aborted := sleepAbortable env in
         if aborted then ret (Some ErrAborted) else next).
Proof. apply Quiet_unless. Qed.

Lemma Quiet_do {A} (text : string) (next : M A) :
  Quiet next -> Quiet (do eprint text in next).
Proof. intros Hn. apply Quiet_bind; [apply Quiet_eprint | by intros _]. Qed.

Lemma Quiet_runPhase {C : Type} (step : event -> C -> M (C + (C * option error)))
    (sched : list event) (c : C) :
  (forall ev c0, Quiet (step ev c0)) -> Quiet (runPhase step sched c).
Proof.
  intros Hstep. revert c. induction sched as [|ev sched IH]; intros c.
  - apply Quiet_stuck.
  - cbn [runPhase]. apply Quiet_bind; [apply Hstep|].
    intros [c'|res]; [apply IH | apply Quiet_ret].
Qed.

Lemma Quiet_startStep (ev : event) (c : startCfg) : Quiet (startStep env ev c).
Proof.
  destruct ev as [i r|i ctxErr r|i|sel]; cbn [startStep]; try apply Quiet_stuck.
  - destruct (startTasks c !! i) as [[m []]|]; try apply Quiet_stuck.
    apply Quiet_bind; [by apply Quiet_record|]. intros _.
    destruct r; apply Quiet_ret.
  - destruct (allMachinesStarted (startTable c)); [apply Quiet_ret|].
    apply Quiet_bind; [apply Quiet_isAborted|]. intros [|]; [apply Quiet_ret|].
    destruct sel as [|i|]; [apply Quiet_ret| |].
    + destruct (startTasks c !! i) as [[m []]|]; try apply Quiet_stuck. apply Quiet_ret.
    + destruct (noneSending (startTasks c)); [apply Quiet_ret | apply Quiet_stuck].
Qed.

Lemma Quiet_healthStep (ev : event) (c : healthCfg) : Quiet (healthStep env ev c).
Proof.
  destruct ev as [i r|i ctxErr r|i|sel]; cbn [healthStep]; try apply Quiet_stuck.
  - destruct (healthTasks c !! i) as [[m []]|]; try apply Quiet_stuck.
    apply Quiet_bind; [by apply Quiet_record|]. intros _.
    destruct ctxErr; [apply Quiet_ret|]. destruct r; [apply Quiet_ret|].
    destruct (_ && _)%bool; apply Quiet_ret.
  - destruct (allMachinesHealthy (healthTable c)); [apply Quiet_ret|].
    apply Quiet_bind; [apply Quiet_isAborted|]. intros [|]; [apply Quiet_ret|].
    destruct sel as [|i|]; [apply Quiet_ret| |].
    + destruct (healthTasks c !! i) as [[m []]|]; try apply Quiet_stuck. apply Quiet_ret.
    + destruct (noneSending (healthTasks c)); [apply Quiet_ret | apply Quiet_stuck].
Qed.

Lemma Quiet_stopStep (n : nat) (ev : event) (c : stopCfg) : Quiet (stopStep env n ev c).
Proof.
  destruct ev as [i r|i ctxErr r|i|sel]; cbn [stopStep]; try apply Quiet_stuck.
  - destruct (stopTasks c !! i) as [[m []]|]; try apply Quiet_stuck.
    apply Quiet_bind; [by apply Quiet_record|]. intros _.
    destruct r; apply Quiet_ret.
  - destruct (stopTasks c !! i) as [[m []]|]; try apply Quiet_stuck. apply Quiet_ret.
  - destruct (Nat.eqb (done c) n); [apply Quiet_ret|].
    apply Quiet_bind; [apply Quiet_isAborted|]. intros [|]; [apply Quiet_ret|].
    destruct sel as [|i|]; [apply Quiet_ret| |].
    + destruct (stopTasks c !! i) as [[m []]|]; try apply Quiet_stuck. apply Quiet_ret.
    + destruct (noneSending (stopTasks c)); [apply Quiet_ret | apply Quiet_stuck].
Qed.

Lemma Quiet_startWait : Quiet (WaitForGreenMachinesToBeStarted env).
Proof.
  unfold WaitForGreenMachinesToBeStarted. apply Quiet_bind; [apply Quiet_getBG|].
  intros b. apply Quiet_bind; [|intros r; apply Quiet_ret].
  apply Quiet_runPhase, Quiet_startStep.
Qed.

Lemma Quiet_healthWait : Quiet (WaitForGreenMachinesToBeHealthy env).
Proof.
  unfold WaitForGreenMachinesToBeHealthy. apply Quiet_bind; [apply Quiet_getBG|].
  intros b. apply Quiet_bind; [|intros r; apply Quiet_ret].
  apply Quiet_runPhase, Quiet_healthStep.
Qed.

Lemma Quiet_stopWait : Quiet (WaitForBlueMachinesToBeStopped env).
Proof.
  unfold WaitForBlueMachinesToBeStopped, stopWaitRun.
  apply Quiet_bind; [|intros r; apply Quiet_ret].
  apply Quiet_bind; [apply Quiet_getBG|]. intros b.
  apply Quiet_runPhase. intros ev c0. apply Quiet_stopStep.
Qed.

Lemma Quiet_markLoop (l : list Machine.t) : Quiet (markLoop env l).
Proof.
  induction l as [|gm l IH]; [apply Quiet_ret|]. cbn [markLoop].
  apply Quiet_unless. apply Quiet_bind; [by apply Quiet_fleet|].
  intros [e|]; [apply Quiet_ret|]. by apply Quiet_do.
Qed.

Lemma Quiet_mark : Quiet (MarkGreenMachinesAsReadyForTraffic env).
Proof.
  unfold MarkGreenMachinesAsReadyForTraffic. apply Quiet_bind; [apply Quiet_getBG|].
  intros b. apply Quiet_markLoop.
Qed.

Lemma Quiet_cordon : Quiet (CordonBlueMachines env).
Proof.
  intros s. unfold CordonBlueMachines, bind at 1, getBG at 1.
  destruct (cordonLoop_abort env (blueMachines (bg s)) s) as (s' & E & Htr & Hbg).
  rewrite E. cbn [snd]. eapply quiet_calls; [exact Htr | by rewrite Hbg|].
  apply Forall_fmap, Forall_true. done.
Qed.

Lemma Quiet_stop : Quiet (StopBlueMachines env).
Proof.
  intros s. unfold StopBlueMachines, bind at 1, getBG at 1.
  destruct (stopLoop_abort env (stopSignal (bg s)) (blueMachines (bg s)) s)
    as (s' & E & Htr & Hbg).
  rewrite E. cbn [snd]. eapply quiet_calls; [exact Htr | by rewrite Hbg|].
  apply Forall_fmap, Forall_true. done.
Qed.

Lemma Quiet_destroy : Quiet (DestroyBlueMachines env).
Proof.
  intros s. unfold DestroyBlueMachines, bind at 1, getBG at 1.
  destruct (destroyLoop_abort env (blueMachines (bg s)) s)
    as (s' & E & Htr & _ & _ & Hg).
  rewrite E. cbn [snd]. eapply quiet_calls; [exact Htr | exact Hg|].
  apply Forall_fmap, Forall_true. done.
Qed.

Lemma Quiet_retire : Quiet (deployRetire env).
Proof.
  unfold deployRetire. apply Quiet_do.
  apply Quiet_bind; [apply Quiet_stopWait|]. intros err.
  apply Quiet_bind.
  - destruct err as [e|]; [|apply Quiet_ret].
    destruct (as_multierror e); [|apply Quiet_ret].
    apply Quiet_do. apply Quiet_bind; [apply Quiet_eprintEach|]. intros _.
    apply Quiet_ret.
  - intros [e|]; [apply Quiet_ret|]. apply Quiet_do.
    apply Quiet_phase; [apply Quiet_destroy|]. apply Quiet_do, Quiet_ret.
Qed.

End QuietSteps.

Section Outcomes.

Local Open Scope list_scope.

Variable env : Env.

Lemma andThen_cases (m next : M (option error)) (s : St) (r : option error) (s' : St) :
  andThen m next s = (Done r, s') ->
  (exists e, m s = (Done (Some e), s') /\ r = Some e)
  \/ (exists s1, m s = (Done None, s1) /\ next s1 = (Done r, s')).
Proof.
  unfold andThen, bind. destruct (m s) as [[[e|]|msg|] s1]; intros H; try discriminate H.
  - unfold ret in H. simplify_eq. left. by exists e.
  - right. by exists s1.
Qed.

Lemma phase_cases (sentinel : error) (run next : M (option error)) (s : St)
    (r : option error) (s' : St) :
  phase env sentinel run next s = (Done r, s') ->
  (exists e, run s = (Done (Some e), s') /\ r = Some (wrapWith env sentinel e))
  \/ (exists s1, run s = (Done None, s1) /\ next s1 = (Done r, s')).
Proof.
  unfold phase, bind. destruct (run s) as [[[e|]|msg|] s1]; intros H; try discriminate H.
  - unfold ret in H. simplify_eq. left. by exists e.
  - right. by exists s1.
Qed.

Lemma unless_cases (next : M (option error)) (s : St) (r : option error) (s' : St) :
  unlessAborted env next s = (Done r, s') ->
  (r = Some ErrAborted /\ s' = polled s) \/ next (polled s) = (Done r, s').
Proof.
  unfold unlessAborted, bind, isAborted.
  destruct (match abortAfter env with
            | Some k => (k <=? polls s)%nat
            | None => false
            end); intros H; [|by right].
  unfold ret in H. simplify_eq. by left.
Qed.

Lemma filter_no_launch (calls : list FleetCall) :
  Forall (fun c => isLaunch c = false) calls -> List.filter isLaunch calls = [].
Proof.
  induction 1 as [|c calls Hc _ IH]; [done|]. cbn [List.filter]. by rewrite Hc.
Qed.

Lemma filter_destroys (calls : list FleetCall) :
  Forall isDestroy calls -> List.filter isLaunch calls = [].
Proof.
  intros H. apply filter_no_launch. eapply Forall_impl; [exact H|].
  by intros [].
Qed.

Lemma filter_launches (l : list LaunchInput.t) :
  List.filter isLaunch (CLaunch <$> l) = CLaunch <$> l.
Proof. induction l as [|x l IH]; [done|]. cbn. by rewrite IH. Qed.

(** The part of [Deploy] that follows the creation of the green machines
    launches nothing and keeps the green list. *)
Lemma replace_cases (s : St) (r : option error) (s' : St) :
  deployReplace env s = (Done r, s') ->
  (exists e,
     CreateGreenMachines env (printed (newline ++ "Creating green machines" ++ newline) s)
     = (Done (Some e), s')
     /\ r = Some (wrapWith env ErrCreateGreenMachine e))
  \/ (exists sc,
        CreateGreenMachines env (printed (newline ++ "Creating green machines" ++ newline) s)
        = (Done None, sc)
        /\ quiet sc s').
Proof.
  intros H. unfold deployReplace in H. rewrite eprint_inv in H.
  apply phase_cases in H as [(e & Hc & ->)|(sc & Hc & Hrest)]; [left; by exists e|].
  right. exists sc. split; [done|].
  match type of Hrest with ?f sc = _ => assert (Hq : Quiet f) end.
  { repeat first [ apply Quiet_unless | apply Quiet_sleep | apply Quiet_do
                 | apply Quiet_phase | apply Quiet_startWait | apply Quiet_healthWait
                 | apply Quiet_mark | apply Quiet_cordon | apply Quiet_stop
                 | apply Quiet_ret ]. }
  specialize (Hq sc). by rewrite Hrest in Hq.
Qed.

(** What [Deploy] has launched when it is done with the stop of the blue
    machines, or has returned before. *)
Lemma switch_launches (s : St) (r : option error) (s' : St) :
  deploySwitch env s = (Done r, s') ->
  greenMachines (bg s) = [] ->
  exists calls,
    trace s' = trace s ++ calls
    /\ (List.filter isLaunch calls = CLaunch <$> (launchInput <$> greenMachines (bg s'))
        \/ (exists e, r = Some (wrapWith env ErrCreateGreenMachine e)
                      /\ greenMachines (bg s') = []
                      /\ List.filter isLaunch calls <> [])).
Proof.
  intros H Hg. unfold deploySwitch in H.
  pose proof (prepare_onlyDestroys env s) as [(zs & Hz & Fz) Hg1].
  apply andThen_cases in H as [(e & Hprep & ->)|(s1 & Hprep & H)];
    rewrite Hprep in Hz, Hg1; cbn [snd] in Hz, Hg1.
  { exists zs. split; [done|]. left. by rewrite Hg1, Hg, filter_destroys. }
  rewrite Hg in Hg1.
  apply andThen_cases in H as [(e & Hval & ->)|(s2 & Hval & H)];
    rewrite (validateChecks_run env s1) in Hval;
    destruct (invalid (blueMachines (bg s1))); simplify_eq.
  { exists zs. split; [done|]. left. cbn [bg withWorld]. by rewrite Hg1, filter_destroys. }
  apply replace_cases in H as [(e & Hc & ->)|(sc & Hc & Hq)];
    unfold CreateGreenMachines, bind at 1, getBG at 1 in Hc.
  - apply createLoop_failure in Hc as [Hgc (ms & Hlen & _ & Htr)].
    cbn [trace bg printed withWorld] in Hgc, Hlen, Htr.
    eexists. split; [rewrite Htr, Hz, <- app_assoc; reflexivity|].
    right. exists e. split; [done|]. split; [congruence|].
    rewrite List.filter_app, filter_destroys, filter_launches by done.
    destruct (blueMachines (bg s1)) as [|b bs]; [simpl in Hlen; lia|]. done.
  - pose proof (createLoop_launches_all env _ _ _ _ _ Hc) as [Htr _].
    apply createLoop_success in Hc as [_ (news & Hgc & Hli & _)].
    rewrite app_nil_l in Hgc.
    cbn [trace bg printed withWorld] in Htr, Hli.
    destruct Hq as [Hg' (calls & Htr' & Fc)].
    eexists. split; [rewrite Htr', Htr, Hz, <- !app_assoc; reflexivity|].
    left. rewrite !List.filter_app, filter_destroys, filter_launches by done.
    rewrite (filter_no_launch calls) by done.
    by rewrite app_nil_r, Hg', Hgc, Hli.
Qed.

End Outcomes.

(** X25. Whatever the result of [Deploy], started with no green machine,
    the launches it asked the fleet for are the launch inputs of the green
    machines it has recorded, in their order: an abort, a timeout or a
    failure in a later phase leaves a list that a rollback can work from.
    The one exception is the failure of a launch, which [Deploy] returns
    wrapped in [ErrCreateGreenMachine] with launches made and no green
    machine recorded. *)
Theorem Deploy_records_every_launch (env : Env) (s : St) (r : option error) (s' : St) :
  Deploy env s = (Done r, s') ->
  greenMachines (bg s) = [] ->
  exists calls,
    trace s' = (trace s ++ calls)%list
    /\ (List.filter isLaunch calls = CLaunch <$> (launchInput <$> greenMachines (bg s'))
        \/ (exists e, r = Some (wrapWith env ErrCreateGreenMachine e)
                      /\ greenMachines (bg s') = []
                      /\ List.filter isLaunch calls <> [])).
Proof.
  intros H Hg. unfold Deploy in H.
  apply andThen_cases in H as [(e & Hswitch & ->)|(s3 & Hswitch & Hretire)].
  - by apply (switch_launches env s (Some e) s').
  - destruct (switch_launches env s None s3 Hswitch Hg) as (calls & Htr & Hcalls).
    destruct Hcalls as [Hcalls|(e & E & _)]; [|discriminate E].
    pose proof (Quiet_retire env s3) as [Hg' (calls' & Htr' & Fc)].
    rewrite Hretire in Hg', Htr'. cbn [snd] in Hg', Htr'.
    exists (calls ++ calls')%list. split; [by rewrite Htr', Htr, app_assoc|].
    left. by rewrite List.filter_app, (filter_no_launch calls'), app_nil_r, Hg'.
Qed.

(** The user aborts right after the creation: [Deploy] returns
    [ErrAborted] and the two launches are the two green machines. *)
Lemma Deploy_records_every_launch_witness :
  let s := Sample.state [Sample_a; Sample_b] in
  let s' := (Deploy Sample_abortAfterCreate s).2 in
  exists calls,
    trace s' = (trace s ++ calls)%list
    /\ (List.filter isLaunch calls = CLaunch <$> (launchInput <$> greenMachines (bg s'))
        \/ (exists e, Some ErrAborted
                      = Some (wrapWith Sample_abortAfterCreate ErrCreateGreenMachine e)
                      /\ greenMachines (bg s') = []
                      /\ List.filter isLaunch calls <> [])).
Proof.
  intros s s'.
  apply (Deploy_records_every_launch Sample_abortAfterCreate s (Some ErrAborted) s').
  - vm_compute. reflexivity.
  - reflexivity.
Defined.

Section Drains.

Local Open Scope list_scope.

Variable env : Env.

Lemma noDrain_destroys (calls : list FleetCall) : Forall isDestroy calls -> noDrain calls.
Proof. intros H. eapply Forall_impl; [exact H|]. by intros []. Qed.

Lemma noDrain_fmap {A} (f : A -> FleetCall) (l : list A) :
  (forall x, isDrain (f x) = false) -> noDrain (f <$> l).
Proof. intros H. apply Forall_fmap, Forall_true. exact H. Qed.

Lemma noDrain_app (a b : list FleetCall) : noDrain a -> noDrain b -> noDrain (a ++ b).
Proof. intros Ha Hb. apply Forall_app. by split. Qed.

Lemma startWait_calls (s : St) (r : option error) (s' : St) :
  WaitForGreenMachinesToBeStarted env s = (Done r, s') ->
  bg s' = bg s /\ exists calls, trace s' = trace s ++ calls /\ noDrain calls.
Proof.
  intros H. unfold WaitForGreenMachinesToBeStarted, bind at 1, getBG at 1 in H.
  unfold bind at 1 in H.
  destruct (runPhase (startStep env) (startSchedule env) (startInit (greenMachines (bg s))) s)
    as [[[c r1]|msg|] s1] eqn:E; try discriminate H.
  unfold ret in H. simplify_eq.
  apply (startRun_post env) in E as (Hbg & (waited & Htr & _) & _).
  split; [done|]. eexists. split; [exact Htr|]. by apply noDrain_fmap.
Qed.

Lemma healthWait_calls (s : St) (r : option error) (s' : St) :
  WaitForGreenMachinesToBeHealthy env s = (Done r, s') ->
  bg s' = bg s /\ exists calls, trace s' = trace s ++ calls /\ noDrain calls.
Proof.
  intros H. unfold WaitForGreenMachinesToBeHealthy, bind at 1, getBG at 1 in H.
  unfold bind at 1 in H.
  destruct (runPhase (healthStep env) (healthSchedule env)
              (healthInit (greenMachines (bg s))) s)
    as [[[c r1]|msg|] s1] eqn:E; try discriminate H.
  unfold ret in H. simplify_eq.
  apply (healthRun_post env) in E as (Hbg & (polledM & Htr & _) & _).
  split; [done|]. eexists. split; [exact Htr|]. by apply noDrain_fmap.
Qed.

Lemma markLoop_calls (l : list Machine.t) (s : St) (r : option error) (s' : St) :
  markLoop env l s = (Done r, s') ->
  bg s' = bg s /\ exists calls, trace s' = trace s ++ calls /\ noDrain calls.
Proof.
  revert s. induction l as [|gm l IH]; intros s H.
  - simpl in H. unfold ret in H. simplify_eq. split; [done|].
    exists []. split; [by rewrite app_nil_r | constructor].
  - cbn [markLoop] in H. unfold bind at 1, isAborted at 1 in H.
    destruct (match abortAfter env with
              | Some k => (k <=? polls s)%nat
              | None => false
              end).
    { unfold ret in H. simplify_eq. split; [done|].
      exists []. split; [by rewrite app_nil_r | constructor]. }
    unfold bind at 1, fleet at 1 in H. cbn [trace bg polls stderr] in H.
    destruct (Reply env (trace s) (CUncordon (Machine.ID gm))).
    { unfold ret in H. simplify_eq. split; [done|].
      exists [CUncordon (Machine.ID gm)]. split; [done|]. by constructor. }
    unfold bind at 1, eprint at 1 in H. apply IH in H as [Hbg (calls & Htr & Hc)].
    cbn [trace bg] in Htr, Hbg. split; [done|].
    exists (CUncordon (Machine.ID gm) :: calls). split; [|by constructor].
    rewrite Htr. by rewrite <- app_assoc.
Qed.

(** What [Deploy] has done to the blue machines when it is done with their
    stop, or has returned before: a cordon or a stop comes after the
    uncordon of every green machine. *)
Lemma switch_drains (s : St) (r : option error) (s' : St) :
  deploySwitch env s = (Done r, s') ->
  exists calls,
    trace s' = trace s ++ calls
    /\ ((r <> None /\ noDrain calls)
        \/ exists pre post,
             calls = pre ++ (uncordonCall <$> machines (greenMachines (bg s'))) ++ post
             /\ noDrain pre).
Proof.
  intros H. unfold deploySwitch in H.
  pose proof (prepare_onlyDestroys env s) as [(zs & Hz & Fz) _].
  apply noDrain_destroys in Fz.
  apply andThen_cases in H as [(e & Hprep & ->)|(s1 & Hprep & H)];
    rewrite Hprep in Hz; cbn [snd] in Hz.
  { exists zs. split; [done|]. left. by split. }
  apply andThen_cases in H as [(e & Hval & ->)|(s2 & Hval & H)];
    rewrite (validateChecks_run env s1) in Hval;
    destruct (invalid (blueMachines (bg s1))); simplify_eq.
  { exists zs. split; [done|]. left. by split. }
  (* the creation *)
  unfold deployReplace in H. rewrite eprint_inv in H.
  apply phase_cases in H as [(e & Hc & ->)|(sc & Hc & H)];
    unfold CreateGreenMachines, bind at 1, getBG at 1 in Hc.
  { apply createLoop_failure in Hc as [_ (ms & _ & _ & Htr)].
    cbn [trace bg printed withWorld] in Htr.
    eexists. split; [rewrite Htr, Hz, <- app_assoc; reflexivity|].
    left. split; [done|]. apply noDrain_app; [done | by apply noDrain_fmap]. }
  pose proof (createLoop_launches_all env _ _ _ _ _ Hc) as [Htrc _]. clear Hc.
  cbn [trace bg printed withWorld] in Htrc.
  assert (Hsc : exists calls, trace sc = trace s ++ calls /\ noDrain calls).
  { eexists. split; [rewrite Htrc, Hz, <- app_assoc; reflexivity|].
    apply noDrain_app; [done | by apply noDrain_fmap]. }
  clear Htrc Hz Fz. destruct Hsc as (c0 & Htr0 & F0).
  (* the wait for the start *)
  apply unless_cases in H as [[-> ->]|H].
  { exists c0. split; [done|]. left. by split. }
  rewrite eprint_inv in H.
  apply phase_cases in H as [(e & Hw & ->)|(sw & Hw & H)];
    apply startWait_calls in Hw as [Hbgw (c1 & Htr1 & F1)];
    cbn [trace bg printed polled withWorld] in Hbgw, Htr1.
  { exists (c0 ++ c1). split; [by rewrite Htr1, Htr0, app_assoc|].
    left. split; [done | by apply noDrain_app]. }
  (* the wait for the checks *)
  apply unless_cases in H as [[-> ->]|H].
  { exists (c0 ++ c1). split; [cbn; by rewrite Htr1, Htr0, app_assoc|].
    left. split; [done | by apply noDrain_app]. }
  rewrite eprint_inv in H.
  apply phase_cases in H as [(e & Hh & ->)|(sh & Hh & H)];
    apply healthWait_calls in Hh as [Hbgh (c2 & Htr2 & F2)];
    cbn [trace bg printed polled withWorld] in Hbgh, Htr2.
  { exists (c0 ++ c1 ++ c2). split; [by rewrite Htr2, Htr1, Htr0, <- !app_assoc|].
    left. split; [done | by repeat apply noDrain_app]. }
  (* the uncordon *)
  apply unless_cases in H as [[-> ->]|H].
  { exists (c0 ++ c1 ++ c2). split; [cbn; by rewrite Htr2, Htr1, Htr0, <- !app_assoc|].
    left. split; [done | by repeat apply noDrain_app]. }
  rewrite eprint_inv in H.
  apply phase_cases in H as [(e & Hm & ->)|(sm & Hm & H)];
    unfold MarkGreenMachinesAsReadyForTraffic, bind at 1, getBG at 1 in Hm.
  { apply markLoop_calls in Hm as [_ (c3 & Htr3 & F3)].
    cbn [trace bg printed polled withWorld] in Htr3.
    exists (c0 ++ c1 ++ c2 ++ c3).
    split; [by rewrite Htr3, Htr2, Htr1, Htr0, <- !app_assoc|].
    left. split; [done | by repeat apply noDrain_app]. }
  apply markLoop_nil in Hm as [Htr3 Hbgm].
  cbn [trace bg printed polled withWorld] in Htr3, Hbgm.
  (* the rest keeps the green machines *)
  match type of H with ?f sm = _ => assert (Hq : Quiet f) end.
  { repeat first [ apply Quiet_unless | apply Quiet_sleep | apply Quiet_do
                 | apply Quiet_phase | apply Quiet_cordon | apply Quiet_stop
                 | apply Quiet_ret ]. }
  specialize (Hq sm). rewrite H in Hq. cbn [snd] in Hq.
  destruct Hq as [Hg (post & Htr4 & _)].
  exists ((c0 ++ c1 ++ c2) ++ (uncordonCall <$> machines (greenMachines (bg s'))) ++ post).
  split.
  - rewrite Htr4, Htr3, Htr2, Htr1, Htr0, Hg, <- !app_assoc. by rewrite Hbgm, Hbgh.
  - right. exists (c0 ++ c1 ++ c2), post. split; [done|].
    by repeat apply noDrain_app.
Qed.

End Drains.

(** X26. Whatever the result of [Deploy], no blue machine is cordoned or
    stopped before every green machine has been uncordoned: either the
    deployment has returned an error without a cordon or a stop, or its
    calls are calls without a cordon or a stop, then the uncordon of every
    green machine of the list, then the rest. *)
Theorem Deploy_drains_blue_after_green_is_ready (env : Env) (s : St)
    (r : option error) (s' : St) :
  Deploy env s = (Done r, s') ->
  exists calls,
    trace s' = (trace s ++ calls)%list
    /\ ((r <> None /\ noDrain calls)
        \/ exists pre post,
             calls
             = (pre ++ (uncordonCall <$> machines (greenMachines (bg s'))) ++ post)%list
             /\ noDrain pre).
Proof.
  intros H. unfold Deploy in H.
  apply andThen_cases in H as [(e & Hswitch & ->)|(s3 & Hswitch & Hretire)].
  - by apply (switch_drains env s (Some e) s').
  - destruct (switch_drains env s None s3 Hswitch) as (calls & Htr & Hcalls).
    destruct Hcalls as [[Hne _]|(pre & post & Hcalls & Hpre)]; [done|].
    pose proof (Quiet_retire env s3) as [Hg (calls' & Htr' & _)].
    rewrite Hretire in Hg, Htr'. cbn [snd] in Hg, Htr'.
    exists (calls ++ calls')%list. split; [by rewrite Htr', Htr, app_assoc|].
    right. exists pre, (post ++ calls')%list. split; [|done].
    by rewrite Hcalls, Hg, <- !app_assoc.
Qed.

(** The user aborts during the cordon phase: m1 is cordoned, after the
    uncordon of g-m1 and g-m2. *)
Lemma Deploy_drains_blue_after_green_is_ready_witness :
  let s := Sample.state [Sample_a; Sample_b] in
  let r := Some (wrapWith Sample_abortInCordon ErrCordonBlueMachines ErrAborted) in
  let s' := (Deploy Sample_abortInCordon s).2 in
  exists calls,
    trace s' = (trace s ++ calls)%list
    /\ ((r <> None /\ noDrain calls)
        \/ exists pre post,
             calls
             = (pre ++ (uncordonCall <$> machines (greenMachines (bg s'))) ++ post)%list
             /\ noDrain pre).
Proof.
  intros s r s'.
  apply (Deploy_drains_blue_after_green_is_ready Sample_abortInCordon s r s').
  vm_compute. reflexivity.
Defined.

(** ** The health table on the terminal *)

Section HealthTable.

Local Open Scope list_scope.

Lemma healthText_nonempty (value : HealthCheckStatus) : healthText value <> "".
Proof.
  unfold healthText. destruct (Total value =? 0)%Z; [discriminate|].
  destruct (Strconv.Sprint (Passing value)); discriminate.
Qed.

Lemma renderHealthAll_views (cs : ColorScheme)
    (tables : list (gmap string HealthCheckStatus)) (r : renderer) :
  renderHealthAll cs tables r = renderAll cs (healthView <$> tables) r.
Proof.
  revert r. induction tables as [|table tables IH]; intros r; [done|].
  cbn [renderHealthAll renderAll fmap list_fmap].
  unfold renderMachineHealthchecks, healthView.
  destruct (render cs (healthText <$> table) r) as [ops r1]. by rewrite IH.
Qed.

Lemma render_empty (cs : ColorScheme) (r : renderer) :
  render cs ∅ r = ([], {| firstRun := false; previousView := previousView r |}).
Proof. apply render_same_run. unfold changeDetected. by rewrite map_to_list_empty. Qed.

Lemma renderAll_empty (cs : ColorScheme) (views : list (gmap string string))
    (r : renderer) :
  Forall (fun view => view = ∅) views -> (renderAll cs views r).1 = [].
Proof.
  revert r. induction views as [|view views IH]; intros r Hall; [done|].
  apply Forall_cons_1 in Hall as [-> Hall]. cbn [renderAll]. rewrite render_empty.
  specialize (IH {| firstRun := false; previousView := previousView r |} Hall).
  destruct (renderAll cs views _) as [ops r2]. cbn [fst] in *. by rewrite IH.
Qed.

End HealthTable.

(** X27. The renderer of the health table never shows an empty status (a
    machine reads "unchecked" or "p/t passing"), so its first call writes
    whenever the table has a machine: called on tables that keep the same
    number of machines, it only ever clears the rows of the block it wrote
    last, with no condition on the table it starts from. *)
Theorem health_table_clears_what_it_wrote (cs : ColorScheme)
    (table : gmap string HealthCheckStatus)
    (tables : list (gmap string HealthCheckStatus)) :
  Forall (fun t => size t = size table) tables ->
  balanced None (renderHealthAll cs (table :: tables) newRenderer).1.
Proof.
  intros Hall. rewrite renderHealthAll_views. cbn [fmap list_fmap].
  set (view := healthView table).
  assert (Hsizes : Forall (fun v => size v = size view) (healthView <$> tables)).
  { apply Forall_fmap. eapply Forall_impl; [exact Hall|].
    intros t Ht. cbv beta. unfold view, compose, healthView. by rewrite !map_size_fmap. }
  destruct (decide (table = ∅)) as [Hempty|Hne].
  - rewrite renderAll_empty; [apply balanced_nil|].
    constructor; [unfold view, healthView; by rewrite Hempty, fmap_empty|].
    eapply Forall_impl; [exact Hsizes|]. intros v Hv. cbv beta in Hv.
    apply map_size_empty_iff. rewrite Hv. unfold view, healthView.
    by rewrite Hempty, fmap_empty, map_size_empty.
  - apply map_choose in Hne as (k & v & Hk).
    assert (Hfirst : changeDetected view (previousView newRenderer) = true).
    { apply changeDetected_true. exists k, (healthText v). split.
      - unfold view, healthView. by rewrite lookup_fmap, Hk.
      - unfold viewGet. cbn [previousView newRenderer]. rewrite lookup_empty.
        cbn [default]. intros E. by apply (healthText_nonempty v). }
    cbn [renderAll]. rewrite (render_changed_run cs view newRenderer Hfirst).
    destruct (sortStrings_sorted (rowsOf cs view)) as [_ Hp].
    assert (Hlen : length (sortStrings (rowsOf cs view)) = size view)
      by (by rewrite Hp, rowsOf_length).
    cbn [firstRun newRenderer app].
    pose proof (renderAll_balanced cs (healthView <$> tables)
                  {| firstRun := false; previousView := view |} (size view)
                  Hsizes eq_refl) as H.
    destruct (renderAll cs _ _) as [ops r2]. cbn [fst] in *.
    apply balanced_write. by rewrite Hlen.
Qed.

(** Both machines show as unchecked, then g-m1 as 1/1 passing. *)
Lemma health_table_clears_what_it_wrote_witness :
  balanced None
    (renderHealthAll Sample_plain [Sample_healthNew; Sample_healthOne] newRenderer).1.
Proof.
  apply (health_table_clears_what_it_wrote Sample_plain Sample_healthNew
           [Sample_healthOne]).
  constructor; [vm_compute; reflexivity | constructor].
Defined.
